(** * videographie-app: classification and synthesis pipeline

    A shallow embedding of the server side of the application
    (services/transcription.ts, services/documentGeneration.ts, db.ts,
    routers.ts and drizzle/schema.ts) together with the properties of the
    pipeline that the specification states.

    Conventions.
    - A JavaScript string is the list of its UTF-16 code units.
    - The handlers run one at a time: a request is a function from the
      world before it to its outcome and the world after it.  A thrown
      exception keeps the writes made before it.  Interleavings of
      concurrent requests are not represented.
    - The external collaborators (speech-to-text, Gemini, Anthropic, image
      generation, object storage) are oracles of the environment; every
      call is appended to a trace.  An oracle answers from the calls made
      so far and its request, and may answer with a failure.
    - The tables are lists of rows in insertion order with AUTO_INCREMENT
      counters.  A statement fails only when the database is not
      connected.  The statements are represented for values within the
      limits of their columns ([varchar], [text_column], [int_column]):
      what the server does with a value beyond them (refuse it or
      shorten it) is not in the sources, and these limits are the
      hypotheses of the properties that state which text a procedure
      stores.  Identifiers, counters and versions are natural numbers,
      and the clock is a number that the environment moves.
    - Two texts are equal in a WHERE clause, and for a unique key, when
      their code units are.
    - The users table is kept apart from the three tables of the
      pipeline, which never reads it.  What the console prints is left
      out, as are the auth and system routers. *)

From Stdlib Require Import String Ascii DecimalString.
From Stdlib Require Import List NArith ZArith Bool Arith Lia Permutation.
From Stdlib Require Import RelationClasses.
Import ListNotations.

Set Implicit Arguments.
Set Warnings "-register-all".

(* ================================================================== *)
(** ** JavaScript strings *)
(* ================================================================== *)

Definition jsstring := list N.

Fixpoint bytes_of_string (s : string) : list N :=
  match s with
  | EmptyString => []
  | String a r => N_of_ascii a :: bytes_of_string r
  end.

(** The source files are UTF-8; a literal of this development is written
    as the same text and converted to the code units the program sees.
    The decoder is fed one byte at a time: [pending] continuation bytes
    are still expected for the code point whose high bits are [acc]. *)
Definition utf16_units (cp : N) : jsstring :=
  if (cp <? 0x10000)%N then [cp]
  else [(0xD800 + (cp - 0x10000) / 1024)%N;
        (0xDC00 + (cp - 0x10000) mod 1024)%N].

Definition utf8_feed (pending : nat) (acc b : N) : jsstring * nat * N :=
  match pending with
  | O =>
    if (b <? 0x80)%N then ([b], 0, 0%N)
    else if (b <? 0xE0)%N then ([], 1, (b - 0xC0)%N)
    else if (b <? 0xF0)%N then ([], 2, (b - 0xE0)%N)
    else ([], 3, (b - 0xF0)%N)
  | S k =>
    let acc' := (acc * 64 + (b - 0x80))%N in
    match k with
    | O => (utf16_units acc', 0, 0%N)
    | S _ => ([], k, acc')
    end
  end.

Fixpoint utf16_of_utf8_from (pending : nat) (acc : N) (bs : list N)
  : jsstring :=
  match bs with
  | [] => []
  | b :: r =>
    let '(out, pending', acc') := utf8_feed pending acc b in
    out ++ utf16_of_utf8_from pending' acc' r
  end.

Definition utf16_of_utf8 (bs : list N) : jsstring :=
  utf16_of_utf8_from 0 0 bs.

Definition js (s : string) : jsstring := utf16_of_utf8 (bytes_of_string s).
Arguments js s%_string : simpl never.

Definition jseqb (a b : jsstring) : bool :=
  if list_eq_dec N.eq_dec a b then true else false.

Definition QUOTE : N := 34%N.
Definition LF : N := 10%N.

(** [String(n)] for a non-negative integer. *)
Definition string_of_number (n : nat) : jsstring :=
  js (NilZero.string_of_uint (Nat.to_uint n)).

(** [s.substring(0, n)] *)
Definition substring0 (n : nat) (s : jsstring) : jsstring := firstn n s.

(** [a.join(sep)] *)
Fixpoint join (sep : jsstring) (l : list jsstring) : jsstring :=
  match l with
  | [] => []
  | [x] => x
  | x :: r => x ++ sep ++ join sep r
  end.

(** [a.slice(0, n)] *)
Definition slice0 (A : Type) (n : nat) (l : list A) : list A := firstn n l.

(** WhiteSpace and LineTerminator code units: the set that [\s] matches
    and that [trim] strips. *)
Definition isWhiteSpace (c : N) : bool :=
  ((9 <=? c) && (c <=? 13) || (c =? 32) || (c =? 0xA0) || (c =? 0x1680)
   || (0x2000 <=? c) && (c <=? 0x200A) || (c =? 0x2028) || (c =? 0x2029)
   || (c =? 0x202F) || (c =? 0x205F) || (c =? 0x3000) || (c =? 0xFEFF))%N.

Definition isLineTerminator (c : N) : bool :=
  ((c =? 10) || (c =? 13) || (c =? 0x2028) || (c =? 0x2029))%N.

Fixpoint dropWhile (A : Type) (p : A -> bool) (l : list A) : list A :=
  match l with
  | [] => []
  | x :: r => if p x then dropWhile p r else l
  end.

Fixpoint takeWhile (A : Type) (p : A -> bool) (l : list A) : list A :=
  match l with
  | [] => []
  | x :: r => if p x then x :: takeWhile p r else []
  end.

Definition trimStart (s : jsstring) : jsstring := dropWhile isWhiteSpace s.
Definition trimEnd (s : jsstring) : jsstring :=
  rev (dropWhile isWhiteSpace (rev s)).

(** [s.trim()] *)
Definition trim (s : jsstring) : jsstring := trimEnd (trimStart s).

(* ================================================================== *)
(** ** Regular expressions *)
(* ================================================================== *)

(** The backtracking matcher of ECMAScript for the constructs the program
    uses.  A matcher state is the code unit before the current position,
    the text from the current position on and the captures so far;
    [run r st] lists the states in which [r] can end, in the order in
    which backtracking tries them, so its head is the match the engine
    reports. *)
Module RegExp.

Inductive regex : Type :=
| Eps
| Chr (p : N -> bool)
| Seq (a b : regex)
| Opt (a : regex)
| Star (a : regex)
| Group (a : regex)
| Bos            (* ^ without the m flag *)
| Bol            (* ^ with the m flag *)
| Eol.           (* $ with the m flag *)

Record mstate : Type := MState {
  prev : option N;
  rest : jsstring;
  caps : list jsstring
}.

(** Greedy iteration; an iteration that consumes nothing is rejected. *)
Fixpoint star_loop (step : mstate -> list mstate) (fuel : nat) (st : mstate)
  : list mstate :=
  match fuel with
  | O => [st]
  | S n =>
    flat_map (fun st' =>
                if length (rest st') <? length (rest st)
                then star_loop step n st' else [])
             (step st) ++ [st]
  end.

Fixpoint run (r : regex) (st : mstate) : list mstate :=
  match r with
  | Eps => [st]
  | Chr p =>
    match rest st with
    | c :: t => if p c then [MState (Some c) t (caps st)] else []
    | [] => []
    end
  | Seq a b => flat_map (run b) (run a st)
  | Opt a => run a st ++ [st]
  | Star a => star_loop (run a) (S (length (rest st))) st
  | Group a =>
    map (fun st' =>
           MState (prev st') (rest st')
                  (caps st'
                   ++ [firstn (length (rest st) - length (rest st')) (rest st)]))
        (run a st)
  | Bos => match prev st with None => [st] | Some _ => [] end
  | Bol =>
    match prev st with
    | None => [st]
    | Some c => if isLineTerminator c then [st] else []
    end
  | Eol =>
    match rest st with
    | [] => [st]
    | c :: _ => if isLineTerminator c then [st] else []
    end
  end.

Definition Plus (a : regex) : regex := Seq a (Star a).

Fixpoint seq_of (l : list regex) : regex :=
  match l with
  | [] => Eps
  | [a] => a
  | a :: r => Seq a (seq_of r)
  end.

(** The match at one position: what is left after it and its captures. *)
Definition match_at (r : regex) (p : option N) (s : jsstring)
  : option mstate :=
  hd_error (run r (MState p s [])).

Record match_result : Type := MatchResult {
  index : nat;
  matched : jsstring;
  groups : list jsstring
}.

(** [RegExp.prototype.exec] from index 0, without the g and y flags: the
    leftmost position at which the pattern matches. *)
Fixpoint exec_from (r : regex) (i : nat) (p : option N) (s : jsstring)
  : option match_result :=
  match match_at r p s with
  | Some st =>
    Some (MatchResult i (firstn (length s - length (rest st)) s) (caps st))
  | None =>
    match s with
    | [] => None
    | c :: t => exec_from r (S i) (Some c) t
    end
  end.

Definition exec (r : regex) (s : jsstring) : option match_result :=
  exec_from r 0 None s.

(** [r.test(s)] *)
Definition test (r : regex) (s : jsstring) : bool :=
  match exec r s with Some _ => true | None => false end.

(** [String.prototype.split] with a regular expression separator that has
    no capture group and no limit.  [chunk] is the text between the end of
    the last separator and the current position, [tail] the text from the
    current position. *)
Fixpoint split_loop (fuel : nat) (r : regex) (p : option N)
         (chunk tail : jsstring) : list jsstring :=
  match fuel with
  | O => [chunk ++ tail]
  | S n =>
    match tail with
    | [] => [chunk]
    | c :: t =>
      match match_at r p tail with
      | None => split_loop n r (Some c) (chunk ++ [c]) t
      | Some st =>
        if (length (rest st) =? length tail) && (length chunk =? 0)
        then split_loop n r (Some c) (chunk ++ [c]) t
        else chunk :: split_loop n r (prev st) [] (rest st)
      end
    end
  end.

Definition split (r : regex) (s : jsstring) : list jsstring :=
  match s with
  | [] => match match_at r None [] with Some _ => [] | None => [[]] end
  | _ => split_loop (2 * length s + 2) r None [] s
  end.

(** Canonicalize of the i flag without the u flag, on the Basic Latin and
    Latin-1 Supplement blocks.  Code units from U+0100 on are left as they
    are; none of them canonicalizes to a Basic Latin letter or to U+00C9,
    the only canonical forms of the characters of this program's
    patterns. *)
Definition Canonicalize (c : N) : N :=
  if ((0x61 <=? c) && (c <=? 0x7A))%N then (c - 32)%N
  else if ((0xE0 <=? c) && (c <=? 0xFE) && negb (c =? 0xF7))%N then (c - 32)%N
  else if (c =? 0xFF)%N then 0x178%N
  else if (c =? 0xB5)%N then 0x39C%N
  else c.

(** A pattern character and a character class under the i flag. *)
Definition chr_i (c : N) : regex :=
  Chr (fun x => (Canonicalize x =? Canonicalize c)%N).
Definition class_i (cs : list N) : regex :=
  Chr (fun x => existsb (fun c => (Canonicalize x =? Canonicalize c)%N) cs).
Definition class (cs : list N) : regex :=
  Chr (fun x => existsb (N.eqb x) cs).

(** a literal run of pattern characters under the i flag *)
Definition lit_i (s : string) : regex := seq_of (map chr_i (js s)).
Arguments lit_i s%_string.

Definition ws : regex := Chr isWhiteSpace.              (* \s *)
Definition any : regex := Chr (fun _ => true).          (* [\s\S] *)
Definition dot : regex := Chr (fun c => negb (isLineTerminator c)).  (* . *)

End RegExp.

(* ================================================================== *)
(** ** services/transcription.ts: extractFirstKeyword *)
(* ================================================================== *)

Import RegExp.

Record Keyword : Type := mkKeyword {
  keyword : jsstring;
  isNewIdea : bool
}.

(** /^nouvelle?\s*id[ée]e/i, /^new\s*idea/i, /^nouvel?\s*id[ée]e/i *)
Definition newIdeaPatterns : list regex :=
  [ seq_of [Bos; lit_i "nouvell"; Opt (chr_i 0x65); Star ws; lit_i "id";
            class_i (js "ée"); chr_i 0x65];
    seq_of [Bos; lit_i "new"; Star ws; lit_i "idea"];
    seq_of [Bos; lit_i "nouve"; Opt (chr_i 0x6C); Star ws; lit_i "id";
            class_i (js "ée"); chr_i 0x65] ].

(** /[.,!?;:\n]/ *)
Definition clauseSeparator : regex := class (js ".,!?;:" ++ [LF]).

(** /\s+/ *)
Definition wordSeparator : regex := Plus ws.

Section KeywordExtractor.

(** [String.prototype.toLowerCase], a built-in of the runtime. *)
Variable toLowerCase : jsstring -> jsstring.

Definition extractFirstKeyword (transcription : jsstring) : Keyword :=
  let text := toLowerCase (trim transcription) in
  if existsb (fun pattern => test pattern text) newIdeaPatterns
  then mkKeyword (js "nouvelle idée") true
  else
    let firstWords := trim (hd [] (split clauseSeparator text)) in
    let keyword := join (js " ") (slice0 3 (split wordSeparator firstWords)) in
    mkKeyword keyword false.

End KeywordExtractor.

(** [toLowerCase] on the Basic Latin and Latin-1 Supplement blocks, for
    the concrete runs of this development. *)
Definition toLowerCase_latin1 (s : jsstring) : jsstring :=
  map (fun c =>
         if ((0x41 <=? c) && (c <=? 0x5A))%N then (c + 32)%N
         else if ((0xC0 <=? c) && (c <=? 0xDE) && negb (c =? 0xD7))%N
              then (c + 32)%N
              else c) s.


(* ================================================================== *)
(** ** JSON.parse *)
(* ================================================================== *)

Module JSON.

(** The digits of a number literal, most significant first, and its
    decimal exponent; the value is read only for its truthiness. *)
Record number : Type := mkNumber {
  negative : bool;
  int_digits : list N;
  frac_digits : list N;
  exponent : Z
}.

Inductive value : Type :=
| Null
| Bool (b : bool)
| Number (n : number)
| Str (s : jsstring)
| Array (l : list value)
| Object (members : list (jsstring * value)).

Definition is_ws (c : N) : bool :=
  ((c =? 32) || (c =? 9) || (c =? 10) || (c =? 13))%N.
Definition skip_ws (s : jsstring) : jsstring := dropWhile is_ws s.

Definition is_digit (c : N) : bool := ((48 <=? c) && (c <=? 57))%N.

Definition hex_digit (c : N) : option N :=
  if is_digit c then Some (c - 48)%N
  else if ((97 <=? c) && (c <=? 102))%N then Some (c - 87)%N
  else if ((65 <=? c) && (c <=? 70))%N then Some (c - 55)%N
  else None.

Definition simple_escape (c : N) : option N :=
  if (c =? 34)%N then Some 34%N            (* quote *)
  else if (c =? 92)%N then Some 92%N       (* backslash *)
  else if (c =? 47)%N then Some 47%N       (* slash *)
  else if (c =? 98)%N then Some 8%N        (* \b *)
  else if (c =? 102)%N then Some 12%N      (* \f *)
  else if (c =? 110)%N then Some 10%N      (* \n *)
  else if (c =? 114)%N then Some 13%N      (* \r *)
  else if (c =? 116)%N then Some 9%N       (* \t *)
  else None.

Definition cons_fst (c : N) (r : option (jsstring * jsstring))
  : option (jsstring * jsstring) :=
  match r with
  | Some (str, t) => Some (c :: str, t)
  | None => None
  end.

(** The characters of a string literal after its opening quote. *)
Fixpoint parse_chars (s : jsstring) : option (jsstring * jsstring) :=
  match s with
  | [] => None
  | c :: t =>
    if (c =? 34)%N then Some ([], t)
    else if (c =? 92)%N then
      match t with
      | [] => None
      | e :: t1 =>
        match simple_escape e with
        | Some x => cons_fst x (parse_chars t1)
        | None =>
          if (e =? 117)%N then       (* \uXXXX *)
            match t1 with
            | h1 :: h2 :: h3 :: h4 :: t2 =>
              match hex_digit h1, hex_digit h2, hex_digit h3, hex_digit h4 with
              | Some a, Some b, Some c', Some d =>
                cons_fst (a * 4096 + b * 256 + c' * 16 + d)%N (parse_chars t2)
              | _, _, _, _ => None
              end
            | _ => None
            end
          else None
        end
      end
    else if (c <? 32)%N then None
    else cons_fst c (parse_chars t)
  end.

Definition digits_of (s : jsstring) : list N :=
  map (fun c => (c - 48)%N) (takeWhile is_digit s).

Fixpoint decimal (ds : list N) (acc : Z) : Z :=
  match ds with
  | [] => acc
  | d :: r => decimal r (acc * 10 + Z.of_N d)
  end.

Definition parse_number (s : jsstring) : option (number * jsstring) :=
  let (neg, s1) :=
    match s with
    | 45%N :: t => (true, t)
    | _ => (false, s)
    end in
  match s1 with
  | [] => None
  | c :: t =>
    if negb (is_digit c) then None
    else
      let (ip, s2) :=
        if (c =? 48)%N then ([0%N], t)
        else (digits_of s1, dropWhile is_digit s1) in
      let frac :=
        match s2 with
        | 46%N :: t2 =>
          match digits_of t2 with
          | [] => None
          | ds => Some (ds, dropWhile is_digit t2)
          end
        | _ => Some ([], s2)
        end in
      match frac with
      | None => None
      | Some (fp, s3) =>
        let is_e := match s3 with
                    | x :: _ => ((x =? 101) || (x =? 69))%N
                    | [] => false
                    end in
        if is_e then
          let (eneg, s4) :=
            match tl s3 with
            | 45%N :: t4 => (true, t4)
            | 43%N :: t4 => (false, t4)
            | t4 => (false, t4)
            end in
          match digits_of s4 with
          | [] => None
          | ds =>
            let e := decimal ds 0 in
            Some (mkNumber neg ip fp (if eneg then (- e)%Z else e),
                  dropWhile is_digit s4)
          end
        else Some (mkNumber neg ip fp 0%Z, s3)
      end
  end.

Fixpoint starts_with (p s : jsstring) : option jsstring :=
  match p, s with
  | [], _ => Some s
  | a :: p', b :: s' => if (a =? b)%N then starts_with p' s' else None
  | _ :: _, [] => None
  end.

(** Skip whitespace, then read the code unit [c]. *)
Definition expect (c : N) (s : jsstring) : option jsstring :=
  match skip_ws s with
  | d :: r => if (d =? c)%N then Some r else None
  | [] => None
  end.

Fixpoint parse_value (fuel : nat) (s : jsstring) {struct fuel}
  : option (value * jsstring) :=
  match fuel with
  | O => None
  | S n =>
    match skip_ws s with
    | [] => None
    | c :: t =>
      if (c =? 123)%N then                             (* { *)
        match expect 125 t with
        | Some t1 => Some (Object [], t1)
        | None =>
          match parse_members n t with
          | Some (ms, t1) => Some (Object ms, t1)
          | None => None
          end
        end
      else if (c =? 91)%N then                         (* [ *)
        match expect 93 t with
        | Some t1 => Some (Array [], t1)
        | None =>
          match parse_elements n t with
          | Some (vs, t1) => Some (Array vs, t1)
          | None => None
          end
        end
      else if (c =? 34)%N then
        match parse_chars t with
        | Some (str, t1) => Some (Str str, t1)
        | None => None
        end
      else if (c =? 116)%N then
        option_map (fun r => (Bool true, r)) (starts_with (js "true") (c :: t))
      else if (c =? 102)%N then
        option_map (fun r => (Bool false, r)) (starts_with (js "false") (c :: t))
      else if (c =? 110)%N then
        option_map (fun r => (Null, r)) (starts_with (js "null") (c :: t))
      else
        match parse_number (c :: t) with
        | Some (x, t1) => Some (Number x, t1)
        | None => None
        end
    end
  end

with parse_elements (fuel : nat) (s : jsstring) {struct fuel}
  : option (list value * jsstring) :=
  match fuel with
  | O => None
  | S n =>
    match parse_value n s with
    | None => None
    | Some (v, s1) =>
      match expect 44 s1 with
      | Some s2 =>
        match parse_elements n s2 with
        | Some (vs, s3) => Some (v :: vs, s3)
        | None => None
        end
      | None =>
        match expect 93 s1 with
        | Some s2 => Some ([v], s2)
        | None => None
        end
      end
    end
  end

with parse_members (fuel : nat) (s : jsstring) {struct fuel}
  : option (list (jsstring * value) * jsstring) :=
  match fuel with
  | O => None
  | S n =>
    match expect 34 s with
    | None => None
    | Some s0 =>
      match parse_chars s0 with
      | None => None
      | Some (k, s1) =>
        match expect 58 s1 with
        | None => None
        | Some s2 =>
          match parse_value n s2 with
          | None => None
          | Some (v, s3) =>
            match expect 44 s3 with
            | Some s4 =>
              match parse_members n s4 with
              | Some (ms, s5) => Some ((k, v) :: ms, s5)
              | None => None
              end
            | None =>
              match expect 125 s3 with
              | Some s4 => Some ([(k, v)], s4)
              | None => None
              end
            end
          end
        end
      end
    end
  end.

Definition parse_with (fuel : nat) (text : jsstring) : option value :=
  match parse_value fuel text with
  | Some (v, t) =>
    match skip_ws t with
    | [] => Some v
    | _ :: _ => None
    end
  | None => None
  end.

(** [JSON.parse(text)]; [None] stands for the SyntaxError it throws.  The
    fuel is enough for every text: more fuel gives the same answer (lemma
    [parse_fuel_enough]). *)
Definition parse (text : jsstring) : option value :=
  parse_with (2 * length text + 3) text.

(** [o.key] on a parsed value: the last member of that name wins;
    [None] is [undefined]. *)
Fixpoint lookup (key : jsstring) (ms : list (jsstring * value))
  : option value :=
  match ms with
  | [] => None
  | (k, v) :: r =>
    match lookup key r with
    | Some v' => Some v'
    | None => if jseqb k key then Some v else None
    end
  end.

Definition get (key : jsstring) (v : value) : option value :=
  match v with
  | Object ms => lookup key ms
  | _ => None
  end.

(** Whether the double nearest to the literal is zero: all digits are
    zero, or the value is at most 2^-1075. *)
Definition rounds_to_zero (x : number) : bool :=
  let m := decimal (int_digits x ++ frac_digits x) 0 in
  let e := (exponent x - Z.of_nat (length (frac_digits x)))%Z in
  if (m =? 0)%Z then true
  else if (0 <=? e)%Z then false
  else (m * 2 ^ 1075 <=? 10 ^ (- e))%Z.

(** ToBoolean *)
Definition truthy (v : value) : bool :=
  match v with
  | Null => false
  | Bool b => b
  | Number x => negb (rounds_to_zero x)
  | Str str => match str with [] => false | _ => true end
  | Array _ => true
  | Object _ => true
  end.

End JSON.


(* ================================================================== *)
(** ** drizzle/schema.ts *)
(* ================================================================== *)

(** Timestamps are readings of one clock; identifiers and counters are
    natural numbers. *)
Definition Date := nat.

Inductive Role : Type := role_user | role_admin.

Module User.
Record t : Type := mk {
  id : nat;
  openId : jsstring;
  role : Role
}.
End User.

Module Project.
Record t : Type := mk {
  id : nat;
  userId : nat;
  name : jsstring;
  description : option jsstring;
  isNewIdeas : bool;
  thumbnailUrl : option jsstring;
  color : option jsstring;
  createdAt : Date;
  updatedAt : Date
}.
End Project.

(** [typeof projects.$inferInsert] without the generated columns; an
    absent member is [None]. *)
Module InsertProject.
Record t : Type := mk {
  userId : nat;
  name : jsstring;
  description : option jsstring;
  isNewIdeas : option bool;
  thumbnailUrl : option jsstring;
  color : option jsstring
}.
End InsertProject.

(** [Partial<InsertProject>]: the members a caller sets. *)
Module PartialProject.
Record t : Type := mk {
  userId : option nat;
  name : option jsstring;
  description : option jsstring;
  isNewIdeas : option bool;
  thumbnailUrl : option jsstring;
  color : option jsstring
}.
Definition empty : t := mk None None None None None None.
End PartialProject.

Inductive VideoStatus : Type :=
| uploading | uploaded | transcribing | transcribed | error.

Definition VideoStatus_eqb (a b : VideoStatus) : bool :=
  match a, b with
  | uploading, uploading | uploaded, uploaded | transcribing, transcribing
  | transcribed, transcribed | error, error => true
  | _, _ => false
  end.

Module Video.
Record t : Type := mk {
  id : nat;
  userId : nat;
  projectId : nat;
  filename : jsstring;
  videoUrl : jsstring;
  videoKey : jsstring;
  duration : option Z;
  fileSize : option Z;
  mimeType : option jsstring;
  transcription : option jsstring;
  firstKeyword : option jsstring;
  status : VideoStatus;
  errorMessage : option jsstring;
  createdAt : Date;
  updatedAt : Date
}.
End Video.

Module InsertVideo.
Record t : Type := mk {
  userId : nat;
  projectId : nat;
  filename : jsstring;
  videoUrl : jsstring;
  videoKey : jsstring;
  duration : option Z;
  fileSize : option Z;
  mimeType : option jsstring;
  transcription : option jsstring;
  firstKeyword : option jsstring;
  status : option VideoStatus;
  errorMessage : option jsstring
}.
End InsertVideo.

Module PartialVideo.
Record t : Type := mk {
  projectId : option nat;
  transcription : option jsstring;
  firstKeyword : option jsstring;
  status : option VideoStatus;
  errorMessage : option jsstring
}.
Definition empty : t := mk None None None None None.
End PartialVideo.

Module Document.
Record t : Type := mk {
  id : nat;
  projectId : nat;
  userId : nat;
  title : jsstring;
  content : jsstring;
  version : nat;
  versionNotes : option jsstring;
  videosIncorporated : nat;
  createdAt : Date;
  updatedAt : Date
}.
End Document.

Module InsertDocument.
Record t : Type := mk {
  projectId : nat;
  userId : nat;
  title : jsstring;
  content : jsstring;
  version : option nat;
  versionNotes : option jsstring;
  videosIncorporated : option nat
}.
End InsertDocument.

Module PartialDocument.
Record t : Type := mk {
  title : option jsstring;
  content : option jsstring;
  version : option nat;
  versionNotes : option jsstring;
  videosIncorporated : option nat
}.
Definition empty : t := mk None None None None None.
End PartialDocument.

(** The three tables, rows in insertion order, and the AUTO_INCREMENT
    counter of each. *)
Record Tables : Type := mkTables {
  projects : list Project.t;
  videos : list Video.t;
  documents : list Document.t;
  next_project_id : nat;
  next_video_id : nat;
  next_document_id : nat
}.

Definition empty_tables : Tables := mkTables [] [] [] 1 1 1.

(** The limits of the columns.  A [varchar(n)] column holds at most [n]
    characters and a [text] column at most 65535 bytes; a text of [k]
    code units has at most [k] characters and, in UTF-8, at most [3 * k]
    bytes.  An [int] column holds 32 bits and a [bigint] column 64.  The
    statements of db.ts are represented for values within these limits,
    and the properties that depend on what a statement stores assume
    them. *)
Definition varchar (n : nat) (s : jsstring) : bool := length s <=? n.

Definition text_column (s : jsstring) : bool :=
  (3 * N.of_nat (length s) <=? 65535)%N.

Definition int_column (z : Z) : bool :=
  ((-2147483648 <=? z) && (z <=? 2147483647))%Z.

Definition bigint_column (z : Z) : bool :=
  ((-9223372036854775808 <=? z) && (z <=? 9223372036854775807))%Z.

Definition nullable (A : Type) (column : A -> bool) (o : option A) : bool :=
  match o with
  | Some s => column s
  | None => true
  end.

Definition fits_project (p : InsertProject.t) : bool :=
  varchar 255 (InsertProject.name p)
  && nullable text_column (InsertProject.description p)
  && nullable text_column (InsertProject.thumbnailUrl p)
  && nullable (varchar 7) (InsertProject.color p).

Definition fits_video (v : InsertVideo.t) : bool :=
  varchar 255 (InsertVideo.filename v)
  && text_column (InsertVideo.videoUrl v)
  && varchar 512 (InsertVideo.videoKey v)
  && nullable int_column (InsertVideo.duration v)
  && nullable bigint_column (InsertVideo.fileSize v)
  && nullable (varchar 100) (InsertVideo.mimeType v)
  && nullable text_column (InsertVideo.transcription v)
  && nullable (varchar 255) (InsertVideo.firstKeyword v)
  && nullable text_column (InsertVideo.errorMessage v).

(* ================================================================== *)
(** ** Exceptions, collaborators and the world *)
(* ================================================================== *)

Inductive trpc_code : Type :=
| NOT_FOUND | CONFLICT | FORBIDDEN | BAD_REQUEST | INTERNAL_SERVER_ERROR.

(** What a [throw] carries.  [Thrown] is a value that is not an instance
    of [Error]. *)
Inductive exn : Type :=
| TRPCError (code : trpc_code) (message : jsstring)
| Error (message : jsstring)
| SyntaxError (message : jsstring)
| TypeError (message : jsstring)
| Thrown.

(** [error instanceof Error ? error.message : fallback] *)
Definition message_or (fallback : jsstring) (e : exn) : jsstring :=
  match e with
  | TRPCError _ m | Error m | SyntaxError m | TypeError m => m
  | Thrown => fallback
  end.

Inductive WhisperResult : Type :=
| WhisperText (text : jsstring)
| WhisperError (error : jsstring).

Record MessageRequest : Type := mkMessageRequest {
  model : jsstring;
  max_tokens : nat;
  user_content : jsstring;
  system : option jsstring
}.

Inductive ContentBlock : Type :=
| TextBlock (text : jsstring)
| OtherBlock.

Inductive Call : Type :=
| call_transcribeAudio (audioUrl language prompt : jsstring)
| call_generateContent (model prompt : jsstring)
| call_messages_create (request : MessageRequest)
| call_generateImage (prompt : jsstring)
| call_storagePut (key : jsstring) (data : list N) (contentType : jsstring).

Definition is_generation_call (c : Call) : bool :=
  match c with
  | call_messages_create _ => true
  | _ => false
  end.

(** The environment of the server: its configuration, the built-ins of
    the runtime that are not reproduced here and the collaborators.  A
    collaborator answers from the calls made so far and its request, so
    nothing is assumed about its answers. *)
Record Env : Type := mkEnv {
  GEMINI_API_KEY : bool;
  ANTHROPIC_API_KEY : bool;
  toLowerCase : jsstring -> jsstring;
  syntaxErrorMessage : jsstring -> jsstring;
  typeErrorMessage : jsstring;
  zodErrorMessage : jsstring;
  driverText : JSON.value -> jsstring;
  Buffer_from_base64 : jsstring -> list N;
  nanoid : list Call -> jsstring;
  transcribeAudio : list Call -> jsstring -> jsstring -> jsstring
                    -> exn + WhisperResult;
  generateContent : list Call -> jsstring -> jsstring -> exn + jsstring;
  messages_create : list Call -> MessageRequest -> exn + list ContentBlock;
  generateImage : list Call -> jsstring -> exn + jsstring;
  storagePut : list Call -> jsstring -> list N -> jsstring
               -> exn + jsstring
}.

(** [database] is [None] when [getDb()] yields [null] (DATABASE_URL not
    set, or the connection could not be made). *)
Record World : Type := mkWorld {
  database : option Tables;
  trace : list Call;
  now : Date
}.

Definition M (A : Type) : Type := World -> (exn + A) * World.

Definition ret (A : Type) (a : A) : M A := fun w => (inr a, w).
Definition throw (A : Type) (e : exn) : M A := fun w => (inl e, w).
Definition bind (A B : Type) (m : M A) (k : A -> M B) : M B :=
  fun w =>
    match m w with
    | (inr a, w') => k a w'
    | (inl e, w') => (inl e, w')
    end.
Definition try_catch (A : Type) (m : M A) (handler : exn -> M A) : M A :=
  fun w =>
    match m w with
    | (inr a, w') => (inr a, w')
    | (inl e, w') => handler e w'
    end.

Arguments throw {A} e.

Declare Scope monad_scope.
Delimit Scope monad_scope with M.
Notation "x <- m ;; k" := (bind m (fun x => k))
  (at level 61, m at next level, right associativity) : monad_scope.
Notation "m ;;; k" := (bind m (fun _ => k))
  (at level 61, right associativity) : monad_scope.
Open Scope monad_scope.

(** One call to a collaborator: the answer is the oracle's and the call
    is recorded. *)
Definition call (A : Type) (c : Call) (answer : list Call -> exn + A) : M A :=
  fun w =>
    (answer (trace w), mkWorld (database w) (trace w ++ [c]) (now w)).

(** [new Date()] *)
Definition new_Date : M Date := fun w => (inr (now w), w).

(* ================================================================== *)
(** ** db.ts *)
(* ================================================================== *)

(** The query builder.  [ORDER BY k DESC] keeps rows of equal key in
    table order. *)
Module Query.

Section Rows.
Variable A : Type.

Fixpoint insert_desc (key : A -> nat) (x : A) (l : list A) : list A :=
  match l with
  | [] => [x]
  | y :: r => if key x <? key y then y :: insert_desc key x r else x :: l
  end.

Definition orderBy_desc (key : A -> nat) (l : list A) : list A :=
  fold_right (insert_desc key) [] l.

Definition where_ (p : A -> bool) (l : list A) : list A := filter p l.
Definition limit (n : nat) (l : list A) : list A := firstn n l.

(** [UPDATE ... SET ... WHERE p] *)
Definition update (p : A -> bool) (f : A -> A) (l : list A) : list A :=
  map (fun r => if p r then f r else r) l.

(** [DELETE ... WHERE p] *)
Definition delete (p : A -> bool) (l : list A) : list A :=
  filter (fun r => negb (p r)) l.

(** [result[0]] *)
Definition first (l : list A) : option A := hd_error l.

End Rows.

Definition or_else (A : Type) (o : option A) (d : A) : A :=
  match o with Some a => a | None => d end.

(** [.set(v)]: an absent member leaves the column as it is. *)
Definition set (A : Type) (o : option A) (old : A) : A := or_else o old.
Definition set_null (A : Type) (o : option A) (old : option A) : option A :=
  match o with Some a => Some a | None => old end.

End Query.

Module db.

Import Query.

Definition getDb : M Tables :=
  fun w =>
    match database w with
    | Some t => (inr t, w)
    | None => (inl (Error (js "Database not available")), w)
    end.

(** The effect of a statement on the tables. *)
Definition execute (f : Tables -> Tables) : M unit :=
  fun w => (inr tt, mkWorld (option_map f (database w)) (trace w) (now w)).

(** The rows a query reads. *)
Definition query (A : Type) (f : Tables -> A) : M A :=
  fun w =>
    match database w with
    | Some t => (inr (f t), w)
    | None => (inl (Error (js "Database not available")), w)
    end.

(* ---------------- project helpers ---------------- *)

(** [INSERT INTO projects] and the [SET] of an [UPDATE], for values within
    the limits of the columns ([fits_project]). *)
Definition insert_project (p : InsertProject.t) (at_ : Date) (t : Tables)
  : Tables :=
  mkTables
    (projects t ++
     [Project.mk (next_project_id t) (InsertProject.userId p)
        (InsertProject.name p) (InsertProject.description p)
        (or_else (InsertProject.isNewIdeas p) false)
        (InsertProject.thumbnailUrl p) (InsertProject.color p) at_ at_])
    (videos t) (documents t)
    (S (next_project_id t)) (next_video_id t) (next_document_id t).

Definition set_project (d : PartialProject.t) (at_ : Date) (p : Project.t)
  : Project.t :=
  Project.mk (Project.id p)
    (set (PartialProject.userId d) (Project.userId p))
    (set (PartialProject.name d) (Project.name p))
    (set_null (PartialProject.description d) (Project.description p))
    (set (PartialProject.isNewIdeas d) (Project.isNewIdeas p))
    (set_null (PartialProject.thumbnailUrl d) (Project.thumbnailUrl p))
    (set_null (PartialProject.color d) (Project.color p))
    (Project.createdAt p) at_.

Definition with_projects (f : list Project.t -> list Project.t) (t : Tables)
  : Tables :=
  mkTables (f (projects t)) (videos t) (documents t)
           (next_project_id t) (next_video_id t) (next_document_id t).

Definition createProject (project : InsertProject.t) : M (option Project.t) :=
  _ <- getDb ;;
  at_ <- new_Date ;;
  execute (insert_project project at_) ;;;
  result <- query (fun t =>
    limit 1 (orderBy_desc Project.createdAt
      (where_ (fun p => (Project.userId p =? InsertProject.userId project)
                        && jseqb (Project.name p) (InsertProject.name project))
              (projects t)))) ;;
  ret (first result).

Definition getProjectsByUserId (userId : nat) : M (list Project.t) :=
  _ <- getDb ;;
  query (fun t =>
    orderBy_desc Project.updatedAt
      (where_ (fun p => Project.userId p =? userId) (projects t))).

Definition getProjectById (projectId userId : nat) : M (option Project.t) :=
  _ <- getDb ;;
  result <- query (fun t =>
    limit 1 (where_ (fun p => (Project.id p =? projectId)
                              && (Project.userId p =? userId))
                    (projects t))) ;;
  ret (first result).

Definition getProjectByName (name : jsstring) (userId : nat)
  : M (option Project.t) :=
  _ <- getDb ;;
  result <- query (fun t =>
    limit 1 (where_ (fun p => jseqb (Project.name p) name
                              && (Project.userId p =? userId))
                    (projects t))) ;;
  ret (first result).

(** The values of the new-ideas project of a user. *)
Definition newIdeasValues (userId : nat) : InsertProject.t :=
  InsertProject.mk userId
    (js "Nouvelles idées")
    (Some (js "Catégorie pour les nouvelles idées non encore assignées à un projet"))
    (Some true)
    None
    (Some (js "#8B5CF6")).

Definition getOrCreateNewIdeasProject (userId : nat) : M (option Project.t) :=
  _ <- getDb ;;
  existing <- query (fun t =>
    limit 1 (where_ (fun p => (Project.userId p =? userId)
                              && Bool.eqb (Project.isNewIdeas p) true)
                    (projects t))) ;;
  match existing with
  | p :: _ => ret (Some p)
  | [] => createProject (newIdeasValues userId)
  end.

Definition updateProject (projectId userId : nat) (data : PartialProject.t)
  : M (option Project.t) :=
  _ <- getDb ;;
  at_ <- new_Date ;;
  execute (with_projects
    (update (fun p => (Project.id p =? projectId)
                      && (Project.userId p =? userId))
            (set_project data at_))) ;;;
  getProjectById projectId userId.

Definition deleteProject (projectId userId : nat) : M bool :=
  _ <- getDb ;;
  execute (with_projects
    (delete (fun p => (Project.id p =? projectId)
                      && (Project.userId p =? userId)))) ;;;
  ret true.

(* ---------------- video helpers ---------------- *)

(** [INSERT INTO videos] and the [SET] of an [UPDATE], for values within
    the limits of the columns ([fits_video]). *)
Definition insert_video (v : InsertVideo.t) (at_ : Date) (t : Tables)
  : Tables :=
  mkTables (projects t)
    (videos t ++
     [Video.mk (next_video_id t) (InsertVideo.userId v)
        (InsertVideo.projectId v) (InsertVideo.filename v)
        (InsertVideo.videoUrl v) (InsertVideo.videoKey v)
        (InsertVideo.duration v) (InsertVideo.fileSize v)
        (InsertVideo.mimeType v) (InsertVideo.transcription v)
        (InsertVideo.firstKeyword v)
        (or_else (InsertVideo.status v) uploading)
        (InsertVideo.errorMessage v) at_ at_])
    (documents t)
    (next_project_id t) (S (next_video_id t)) (next_document_id t).

Definition set_video (d : PartialVideo.t) (at_ : Date) (v : Video.t)
  : Video.t :=
  Video.mk (Video.id v) (Video.userId v)
    (set (PartialVideo.projectId d) (Video.projectId v))
    (Video.filename v) (Video.videoUrl v) (Video.videoKey v)
    (Video.duration v) (Video.fileSize v) (Video.mimeType v)
    (set_null (PartialVideo.transcription d) (Video.transcription v))
    (set_null (PartialVideo.firstKeyword d) (Video.firstKeyword v))
    (set (PartialVideo.status d) (Video.status v))
    (set_null (PartialVideo.errorMessage d) (Video.errorMessage v))
    (Video.createdAt v) at_.

Definition with_videos (f : list Video.t -> list Video.t) (t : Tables)
  : Tables :=
  mkTables (projects t) (f (videos t)) (documents t)
           (next_project_id t) (next_video_id t) (next_document_id t).

Definition createVideo (video : InsertVideo.t) : M (option Video.t) :=
  _ <- getDb ;;
  at_ <- new_Date ;;
  execute (insert_video video at_) ;;;
  result <- query (fun t =>
    limit 1 (where_ (fun v => jseqb (Video.videoKey v)
                                    (InsertVideo.videoKey video))
                    (videos t))) ;;
  ret (first result).

Definition getVideosByProjectId (projectId userId : nat) : M (list Video.t) :=
  _ <- getDb ;;
  query (fun t =>
    orderBy_desc Video.createdAt
      (where_ (fun v => (Video.projectId v =? projectId)
                        && (Video.userId v =? userId))
              (videos t))).

Definition getVideoById (videoId userId : nat) : M (option Video.t) :=
  _ <- getDb ;;
  result <- query (fun t =>
    limit 1 (where_ (fun v => (Video.id v =? videoId)
                              && (Video.userId v =? userId))
                    (videos t))) ;;
  ret (first result).

Definition getVideosByUserId (userId : nat) : M (list Video.t) :=
  _ <- getDb ;;
  query (fun t =>
    orderBy_desc Video.createdAt
      (where_ (fun v => Video.userId v =? userId) (videos t))).

Definition updateVideo (videoId userId : nat) (data : PartialVideo.t)
  : M (option Video.t) :=
  _ <- getDb ;;
  at_ <- new_Date ;;
  execute (with_videos
    (update (fun v => (Video.id v =? videoId) && (Video.userId v =? userId))
            (set_video data at_))) ;;;
  getVideoById videoId userId.

Definition deleteVideo (videoId userId : nat) : M bool :=
  _ <- getDb ;;
  execute (with_videos
    (delete (fun v => (Video.id v =? videoId)
                      && (Video.userId v =? userId)))) ;;;
  ret true.

Definition countVideosByProjectId (projectId : nat) : M nat :=
  _ <- getDb ;;
  result <- query (fun t =>
    where_ (fun v => Video.projectId v =? projectId) (videos t)) ;;
  ret (length result).

(* ---------------- document helpers ---------------- *)

(** [INSERT INTO documents] and the [SET] of an [UPDATE], for values
    within the limits of the columns. *)
Definition insert_document (d : InsertDocument.t) (at_ : Date) (t : Tables)
  : Tables :=
  mkTables (projects t) (videos t)
    (documents t ++
     [Document.mk (next_document_id t) (InsertDocument.projectId d)
        (InsertDocument.userId d) (InsertDocument.title d)
        (InsertDocument.content d)
        (or_else (InsertDocument.version d) 1)
        (InsertDocument.versionNotes d)
        (or_else (InsertDocument.videosIncorporated d) 0) at_ at_])
    (next_project_id t) (next_video_id t) (S (next_document_id t)).

Definition set_document (d : PartialDocument.t) (at_ : Date) (x : Document.t)
  : Document.t :=
  Document.mk (Document.id x) (Document.projectId x) (Document.userId x)
    (set (PartialDocument.title d) (Document.title x))
    (set (PartialDocument.content d) (Document.content x))
    (set (PartialDocument.version d) (Document.version x))
    (set_null (PartialDocument.versionNotes d) (Document.versionNotes x))
    (set (PartialDocument.videosIncorporated d)
         (Document.videosIncorporated x))
    (Document.createdAt x) at_.

Definition with_documents (f : list Document.t -> list Document.t)
           (t : Tables) : Tables :=
  mkTables (projects t) (videos t) (f (documents t))
           (next_project_id t) (next_video_id t) (next_document_id t).

Definition createDocument (doc : InsertDocument.t) : M (option Document.t) :=
  _ <- getDb ;;
  at_ <- new_Date ;;
  execute (insert_document doc at_) ;;;
  result <- query (fun t =>
    limit 1 (orderBy_desc Document.createdAt
      (where_ (fun d => (Document.projectId d =? InsertDocument.projectId doc)
                        && (Document.userId d =? InsertDocument.userId doc))
              (documents t)))) ;;
  ret (first result).

Definition getDocumentByProjectId (projectId userId : nat)
  : M (option Document.t) :=
  _ <- getDb ;;
  result <- query (fun t =>
    limit 1 (orderBy_desc Document.version
      (where_ (fun d => (Document.projectId d =? projectId)
                        && (Document.userId d =? userId))
              (documents t)))) ;;
  ret (first result).

Definition getDocumentsByUserId (userId : nat) : M (list Document.t) :=
  _ <- getDb ;;
  query (fun t =>
    orderBy_desc Document.updatedAt
      (where_ (fun d => Document.userId d =? userId) (documents t))).

Definition updateDocument (documentId userId : nat)
           (data : PartialDocument.t) : M (option Document.t) :=
  _ <- getDb ;;
  at_ <- new_Date ;;
  execute (with_documents
    (update (fun d => (Document.id d =? documentId)
                      && (Document.userId d =? userId))
            (set_document data at_))) ;;;
  result <- query (fun t =>
    limit 1 (where_ (fun d => Document.id d =? documentId) (documents t))) ;;
  ret (first result).

Definition deleteDocument (documentId userId : nat) : M bool :=
  _ <- getDb ;;
  execute (with_documents
    (delete (fun d => (Document.id d =? documentId)
                      && (Document.userId d =? userId)))) ;;;
  ret true.

End db.

(* ================================================================== *)
(** ** services/transcription.ts *)
(* ================================================================== *)

Definition lines (l : list jsstring) : jsstring := join [LF] l.
Definition quoted (s : jsstring) : jsstring := [QUOTE] ++ s ++ [QUOTE].

Module TranscriptionResult.
(** [firstKeyword] and [suggestedProjectName] are declared as strings but
    hold whatever the parsed object holds; [None] is [null]. *)
Record t : Type := mk {
  text : jsstring;
  firstKeyword : JSON.value;
  isNewIdea : bool;
  suggestedProjectName : option JSON.value
}.
End TranscriptionResult.

Definition whisperPrompt : jsstring :=
  js "Transcription d'une vidéo de présentation de projet. Le premier mot prononcé est généralement le nom du projet ou 'nouvelle idée'.".

Definition analysisPrompt (transcriptionText : jsstring) : jsstring :=
  lines
    [ js "Analyse cette transcription et identifie le PREMIER MOT-CLÉ prononcé au début.";
      js "Ce premier mot-clé est soit:";
      js "- Le nom d'un projet existant";
      js "- " ++ quoted (js "nouvelle idée") ++ js " (ou variantes comme "
         ++ quoted (js "nouvel idée") ++ js ", " ++ quoted (js "new idea")
         ++ js ")";
      [];
      js "Transcription:";
      quoted transcriptionText;
      [];
      js "Réponds UNIQUEMENT au format JSON suivant, sans aucun texte avant ou après:";
      js "{";
      js "  " ++ quoted (js "firstKeyword") ++ js ": "
         ++ quoted (js "Le premier mot-clé identifié (en minuscules)") ++ js ",";
      js "  " ++ quoted (js "isNewIdea")
         ++ js ": true si c'est une nouvelle idée, false sinon,";
      js "  " ++ quoted (js "suggestedProjectName") ++ js ": "
         ++ quoted (js "Si isNewIdea est false, le nom du projet suggéré, sinon null");
      js "}" ].

(** /\{[\s\S]*\}/ *)
Definition jsonRegex : regex :=
  seq_of [Chr (N.eqb 123); Star any; Chr (N.eqb 125)].

(** [v || the empty string] on a member of the parsed object *)
Definition or_empty (v : option JSON.value) : JSON.value :=
  match v with
  | Some x => if JSON.truthy x then x else JSON.Str []
  | None => JSON.Str []
  end.

(** [v || null] *)
Definition or_null (v : option JSON.value) : option JSON.value :=
  match v with
  | Some x => if JSON.truthy x then Some x else None
  | None => None
  end.

(** [v === true] *)
Definition is_true (v : option JSON.value) : bool :=
  match v with
  | Some (JSON.Bool true) => true
  | _ => false
  end.

Definition geminiModel : jsstring := js "gemini-1.5-flash".

(** The record of the speech-to-text call for a video. *)
Definition whisperCall (videoUrl : jsstring) : Call :=
  call_transcribeAudio videoUrl (js "fr") whisperPrompt.

Definition transcribeWithGemini (E : Env) (videoUrl : jsstring)
  : M TranscriptionResult.t :=
  if negb (GEMINI_API_KEY E) then
    throw (Error (js "Gemini API not configured. Please set GEMINI_API_KEY environment variable."))
  else
    try_catch
      (whisperResult <-
         call (whisperCall videoUrl)
              (fun h => transcribeAudio E h videoUrl (js "fr") whisperPrompt) ;;
       match whisperResult with
       | WhisperError err => throw (Error err)
       | WhisperText transcriptionText =>
         responseText <-
           call (call_generateContent geminiModel
                                      (analysisPrompt transcriptionText))
                (fun h => generateContent E h geminiModel
                                          (analysisPrompt transcriptionText)) ;;
         match exec jsonRegex responseText with
         | None =>
           let extracted :=
             extractFirstKeyword (toLowerCase E) transcriptionText in
           ret (TranscriptionResult.mk
                  transcriptionText
                  (JSON.Str (keyword extracted))
                  (isNewIdea extracted)
                  (if isNewIdea extracted then None
                   else Some (JSON.Str (keyword extracted))))
         | Some jsonMatch =>
           match JSON.parse (matched jsonMatch) with
           | None =>
             throw (SyntaxError (syntaxErrorMessage E (matched jsonMatch)))
           | Some parsed =>
             ret (TranscriptionResult.mk
                    transcriptionText
                    (or_empty (JSON.get (js "firstKeyword") parsed))
                    (is_true (JSON.get (js "isNewIdea") parsed))
                    (or_null (JSON.get (js "suggestedProjectName") parsed)))
           end
         end
       end)
      (fun err => throw err).


(* ================================================================== *)
(** ** services/documentGeneration.ts *)
(* ================================================================== *)

Module DocumentGenerationInput.
Record t : Type := mk {
  projectName : jsstring;
  projectDescription : option jsstring;
  existingContent : option jsstring;
  newTranscriptions : list jsstring;
  videosCount : nat
}.
End DocumentGenerationInput.

Module GeneratedDocument.
Record t : Type := mk {
  title : jsstring;
  content : jsstring;
  summary : jsstring
}.
End GeneratedDocument.

(** ToBoolean of [string | undefined] *)
Definition nonempty (o : option jsstring) : bool :=
  match o with
  | Some (_ :: _) => true
  | _ => false
  end.

Definition systemPrompt : jsstring :=
  lines
    [ js "Tu es un expert en rédaction de documents de présentation de projets.";
      js "Ton objectif est de créer des documents clairs, structurés et professionnels qui peuvent être utilisés pour présenter un projet à une intelligence artificielle afin qu'elle puisse le développer.";
      [];
      js "Le document doit inclure:";
      js "- Un titre clair et descriptif";
      js "- Un résumé exécutif";
      js "- Les objectifs du projet";
      js "- Les fonctionnalités principales";
      js "- Les spécifications techniques (si mentionnées)";
      js "- Les contraintes et exigences";
      js "- Les prochaines étapes suggérées";
      [];
      js "Format: Markdown";
      js "Style: Professionnel mais accessible";
      js "Langue: Français" ].

(** [ts.map((t, i) => `### Vidéo ${i + 1}:\n${t}`)] *)
Fixpoint videoSections (i : nat) (ts : list jsstring) : list jsstring :=
  match ts with
  | [] => []
  | t :: r =>
    (js "### Vidéo " ++ string_of_number (i + 1) ++ js ":" ++ [LF] ++ t)
      :: videoSections (S i) r
  end.

Definition updatePrompt (input : DocumentGenerationInput.t) : jsstring :=
  lines
    [ js "Voici le document de présentation actuel du projet "
         ++ quoted (DocumentGenerationInput.projectName input) ++ js ":";
      [];
      js "---";
      Query.or_else (DocumentGenerationInput.existingContent input) [];
      js "---";
      [];
      js "Nouvelles informations à intégrer ("
         ++ string_of_number
              (length (DocumentGenerationInput.newTranscriptions input))
         ++ js " nouvelle(s) vidéo(s)):";
      [];
      join [LF; LF]
           (videoSections 0 (DocumentGenerationInput.newTranscriptions input));
      [];
      js "---";
      [];
      js "Mets à jour le document en intégrant ces nouvelles informations de manière cohérente.";
      js "- Enrichis les sections existantes avec les nouveaux détails";
      js "- Ajoute de nouvelles sections si nécessaire";
      js "- Maintiens la cohérence et la structure du document";
      js "- Évite les répétitions";
      js "- Garde le document concis mais complet";
      [];
      js "Nombre total de vidéos incorporées: "
         ++ string_of_number (DocumentGenerationInput.videosCount input) ].

Definition createPrompt (input : DocumentGenerationInput.t) : jsstring :=
  lines
    [ js "Crée un document de présentation pour le projet "
         ++ quoted (DocumentGenerationInput.projectName input) ++ js ".";
      [];
      (if nonempty (DocumentGenerationInput.projectDescription input)
       then js "Description initiale: "
            ++ Query.or_else
                 (DocumentGenerationInput.projectDescription input) []
            ++ [LF]
       else []);
      [];
      js "Contenu des vidéos de présentation ("
         ++ string_of_number
              (length (DocumentGenerationInput.newTranscriptions input))
         ++ js " vidéo(s)):";
      [];
      join [LF; LF]
           (videoSections 0 (DocumentGenerationInput.newTranscriptions input));
      [];
      js "---";
      [];
      js "Génère un document de présentation complet et structuré basé sur ces informations.";
      js "Le document doit être suffisamment détaillé pour qu'une IA puisse comprendre et développer le projet." ].

(** /^#\s+(.+)$/m *)
Definition titleRegex : regex :=
  seq_of [Bol; Chr (N.eqb 35); Plus ws; Group (Plus dot); Eol].

Definition claudeModel : jsstring := js "claude-3-5-sonnet-20241022".

Definition messages (E : Env) (request : MessageRequest)
  : M (list ContentBlock) :=
  call (call_messages_create request) (fun h => messages_create E h request).

(** The request of the document itself and the request of its summary. *)
Definition documentRequest (input : DocumentGenerationInput.t)
  : MessageRequest :=
  let isUpdate := nonempty (DocumentGenerationInput.existingContent input) in
  let userPrompt :=
    if isUpdate then updatePrompt input else createPrompt input in
  mkMessageRequest claudeModel 4096 userPrompt (Some systemPrompt).

Definition summaryRequest (documentContent : jsstring) : MessageRequest :=
  mkMessageRequest claudeModel 200
    (js "Résume ce document en 2-3 phrases:" ++ [LF; LF]
        ++ substring0 2000 documentContent)
    None.

Definition generateProjectDocument (E : Env)
           (input : DocumentGenerationInput.t) : M GeneratedDocument.t :=
  if negb (ANTHROPIC_API_KEY E) then
    throw (Error (js "Anthropic API not configured. Please set ANTHROPIC_API_KEY environment variable."))
  else
    try_catch
      (response <- messages E (documentRequest input) ;;
       match response with
       | [] => throw (TypeError (typeErrorMessage E))
       | OtherBlock :: _ =>
         throw (Error (js "Unexpected response type from Claude"))
       | TextBlock documentContent :: _ =>
         let title :=
           match exec titleRegex documentContent with
           | Some titleMatch => nth 0 (groups titleMatch) []
           | None =>
             js "Document de présentation - "
                ++ DocumentGenerationInput.projectName input
           end in
         summaryResponse <- messages E (summaryRequest documentContent) ;;
         match summaryResponse with
         | [] => throw (TypeError (typeErrorMessage E))
         | TextBlock summary :: _ =>
           ret (GeneratedDocument.mk title documentContent summary)
         | OtherBlock :: _ =>
           ret (GeneratedDocument.mk title documentContent [])
         end
       end)
      (fun err => throw err).

Definition thumbnailRequest (projectName documentContent : jsstring)
  : MessageRequest :=
  mkMessageRequest claudeModel 200
    (lines
       [ js "Génère une description courte (max 100 mots) pour créer une image de vignette représentant ce projet:";
         [];
         js "Nom du projet: " ++ projectName;
         js "Contenu: " ++ substring0 1500 documentContent;
         [];
         js "La description doit être visuelle, abstraite et professionnelle, adaptée à la génération d'image par IA.";
         js "Réponds uniquement avec la description, sans préambule." ])
    None.

Definition generateThumbnailPrompt (E : Env)
           (projectName documentContent : jsstring) : M jsstring :=
  if negb (ANTHROPIC_API_KEY E) then
    throw (Error (js "Anthropic API not configured"))
  else
    try_catch
      (response <- messages E (thumbnailRequest projectName documentContent) ;;
       match response with
       | [] => throw (TypeError (typeErrorMessage E))
       | TextBlock text :: _ => ret text
       | OtherBlock :: _ =>
         ret (js "Abstract representation of " ++ projectName ++ js " project")
       end)
      (fun _ =>
         ret (js "Abstract professional illustration representing "
                 ++ projectName)).

(* ================================================================== *)
(** ** routers.ts *)
(* ================================================================== *)

(** The context of a protected procedure: the authenticated caller. *)
Module Context.
Record t : Type := mk { user : User.t }.
End Context.

Definition uid (ctx : Context.t) : nat := User.id (Context.user ctx).

(** A value bound to a text column: a string goes as it is, anything
    else as the driver renders it. *)
Definition sql_text (E : Env) (v : JSON.value) : jsstring :=
  match v with
  | JSON.Str s => s
  | _ => driverText E v
  end.

(** [s.split('.').pop()] *)
Fixpoint after_last_dot (acc s : jsstring) : jsstring :=
  match s with
  | [] => acc
  | c :: t => if (c =? 46)%N then after_last_dot [] t
              else after_last_dot (acc ++ [c]) t
  end.

(** [z.string().min(1).max(255)] *)
Definition valid_name (s : jsstring) : bool :=
  (1 <=? length s) && (length s <=? 255).

Module CreateProjectInput.
Record t : Type := mk {
  name : jsstring;
  description : option jsstring;
  color : option jsstring
}.
End CreateProjectInput.

Module UpdateProjectInput.
Record t : Type := mk {
  id : nat;
  name : option jsstring;
  description : option jsstring;
  color : option jsstring
}.
End UpdateProjectInput.

Module UploadInput.
Record t : Type := mk {
  filename : jsstring;
  mimeType : jsstring;
  fileSize : Z;
  duration : option Z;
  videoBase64 : jsstring
}.
End UploadInput.

Module Dashboard.
Record t : Type := mk {
  totalProjects : nat;
  totalVideos : nat;
  totalDocuments : nat;
  transcribedVideos : nat;
  pendingVideos : nat;
  recentProjects : list Project.t;
  recentVideos : list Video.t
}.
End Dashboard.

Inductive Success : Type := success_true.

Definition is_transcribed (v : Video.t) : bool :=
  VideoStatus_eqb (Video.status v) transcribed
  && nonempty (Video.transcription v).

(** [doc?.content || project.description || project.name] *)
Definition thumbnailContext (project : Project.t) (doc : option Document.t)
  : jsstring :=
  if nonempty (option_map Document.content doc)
  then Query.or_else (option_map Document.content doc) []
  else if nonempty (Project.description project)
       then Query.or_else (Project.description project) []
       else Project.name project.

Module appRouter.

(* ============ PROJECTS ============ *)
Module projects.

Definition get (ctx : Context.t) (id : nat) : M Project.t :=
  project <- db.getProjectById id (uid ctx) ;;
  match project with
  | None => throw (TRPCError NOT_FOUND (js "Project not found"))
  | Some project => ret project
  end.

Definition getNewIdeas (ctx : Context.t) : M (option Project.t) :=
  db.getOrCreateNewIdeasProject (uid ctx).

Definition create (E : Env) (ctx : Context.t) (input : CreateProjectInput.t)
  : M (option Project.t) :=
  if negb (valid_name (CreateProjectInput.name input)) then
    throw (TRPCError BAD_REQUEST (zodErrorMessage E))
  else
    existing <- db.getProjectByName (CreateProjectInput.name input) (uid ctx) ;;
    match existing with
    | Some _ =>
      throw (TRPCError CONFLICT (js "A project with this name already exists"))
    | None =>
      db.createProject
        (InsertProject.mk (uid ctx)
           (CreateProjectInput.name input)
           (CreateProjectInput.description input)
           None None
           (Some (if nonempty (CreateProjectInput.color input)
                  then Query.or_else (CreateProjectInput.color input) []
                  else js "#3B82F6")))
    end.

Definition update (E : Env) (ctx : Context.t) (input : UpdateProjectInput.t)
  : M Project.t :=
  if match UpdateProjectInput.name input with
     | Some n => negb (valid_name n)
     | None => false
     end
  then throw (TRPCError BAD_REQUEST (zodErrorMessage E))
  else
    project <- db.updateProject (UpdateProjectInput.id input) (uid ctx)
                 (PartialProject.mk None
                    (UpdateProjectInput.name input)
                    (UpdateProjectInput.description input)
                    None None
                    (UpdateProjectInput.color input)) ;;
    match project with
    | None => throw (TRPCError NOT_FOUND (js "Project not found"))
    | Some project => ret project
    end.

Definition delete (ctx : Context.t) (id : nat) : M Success :=
  project <- db.getProjectById id (uid ctx) ;;
  match project with
  | None => throw (TRPCError NOT_FOUND (js "Project not found"))
  | Some project =>
    if Project.isNewIdeas project then
      throw (TRPCError FORBIDDEN (js "Cannot delete the 'New Ideas' category"))
    else
      db.deleteProject id (uid ctx) ;;;
      ret success_true
  end.

Definition generateThumbnail (E : Env) (ctx : Context.t) (id : nat)
  : M jsstring :=
  project <- db.getProjectById id (uid ctx) ;;
  match project with
  | None => throw (TRPCError NOT_FOUND (js "Project not found"))
  | Some project =>
    doc <- db.getDocumentByProjectId id (uid ctx) ;;
    let content := thumbnailContext project doc in
    prompt <- generateThumbnailPrompt E (Project.name project) content ;;
    imageUrl <- call (call_generateImage prompt)
                     (fun h => generateImage E h prompt) ;;
    db.updateProject id (uid ctx)
      (PartialProject.mk None None None None (Some imageUrl) None) ;;;
    ret imageUrl
  end.

Definition list (ctx : Context.t) : M (Datatypes.list Project.t) :=
  db.getProjectsByUserId (uid ctx).

End projects.

(* ============ VIDEOS ============ *)
Module videos.

Definition listByProject (ctx : Context.t) (projectId : nat)
  : M (list Video.t) :=
  db.getVideosByProjectId projectId (uid ctx).

Definition listAll (ctx : Context.t) : M (list Video.t) :=
  db.getVideosByUserId (uid ctx).

Definition get (ctx : Context.t) (id : nat) : M Video.t :=
  video <- db.getVideoById id (uid ctx) ;;
  match video with
  | None => throw (TRPCError NOT_FOUND (js "Video not found"))
  | Some video => ret video
  end.

Definition upload (E : Env) (ctx : Context.t) (input : UploadInput.t)
  : M (option Video.t) :=
  let fileExt :=
    match after_last_dot [] (UploadInput.filename input) with
    | [] => js "webm"
    | ext => ext
    end in
  id <- (fun w => (inr (nanoid E (trace w)), w)) ;;
  let videoKey :=
    js "videos/" ++ string_of_number (uid ctx) ++ js "/" ++ id ++ js "."
       ++ fileExt in
  let videoBuffer := Buffer_from_base64 E (UploadInput.videoBase64 input) in
  videoUrl <-
    call (call_storagePut videoKey videoBuffer (UploadInput.mimeType input))
         (fun h => storagePut E h videoKey videoBuffer
                              (UploadInput.mimeType input)) ;;
  newIdeasProject <- db.getOrCreateNewIdeasProject (uid ctx) ;;
  match newIdeasProject with
  | None => throw (TypeError (typeErrorMessage E))
  | Some newIdeasProject =>
    db.createVideo
      (InsertVideo.mk (uid ctx) (Project.id newIdeasProject)
         (UploadInput.filename input) videoUrl videoKey
         (UploadInput.duration input) (Some (UploadInput.fileSize input))
         (Some (UploadInput.mimeType input)) None None
         (Some uploaded) None)
  end.

(** The block of [transcribe] that determines the target project. *)
Definition targetProject (E : Env) (ctx : Context.t) (video : Video.t)
           (result : TranscriptionResult.t) : M nat :=
  if TranscriptionResult.isNewIdea result then
    newIdeasProject <- db.getOrCreateNewIdeasProject (uid ctx) ;;
    match newIdeasProject with
    | None => throw (TypeError (typeErrorMessage E))
    | Some newIdeasProject => ret (Project.id newIdeasProject)
    end
  else
    match TranscriptionResult.suggestedProjectName result with
    | None => ret (Video.projectId video)
    | Some suggested =>
      if JSON.truthy suggested then
        found <- db.getProjectByName (sql_text E suggested) (uid ctx) ;;
        project <-
          match found with
          | Some p => ret (Some p)
          | None =>
            db.createProject
              (InsertProject.mk (uid ctx) (sql_text E suggested)
                 None None None (Some (js "#3B82F6")))
          end ;;
        match project with
        | None => throw (TypeError (typeErrorMessage E))
        | Some project => ret (Project.id project)
        end
      else ret (Video.projectId video)
    end.

(** The [try] block of [transcribe] and its [catch] block. *)
Definition transcribe_try (E : Env) (ctx : Context.t) (id : nat)
           (video : Video.t) : M (option Video.t) :=
  result <- transcribeWithGemini E (Video.videoUrl video) ;;
  targetProjectId <- targetProject E ctx video result ;;
  db.updateVideo id (uid ctx)
    (PartialVideo.mk (Some targetProjectId)
       (Some (TranscriptionResult.text result))
       (Some (sql_text E (TranscriptionResult.firstKeyword result)))
       (Some transcribed) None).

Definition transcribe_catch (ctx : Context.t) (id : nat) (err : exn)
  : M (option Video.t) :=
  let errorMessage := message_or (js "Transcription failed") err in
  db.updateVideo id (uid ctx)
    (PartialVideo.mk None None None (Some error) (Some errorMessage)) ;;;
  throw (TRPCError INTERNAL_SERVER_ERROR errorMessage).

Definition transcribe (E : Env) (ctx : Context.t) (id : nat)
  : M (option Video.t) :=
  video <- db.getVideoById id (uid ctx) ;;
  match video with
  | None => throw (TRPCError NOT_FOUND (js "Video not found"))
  | Some video =>
    db.updateVideo id (uid ctx)
      (PartialVideo.mk None None None (Some transcribing) None) ;;;
    try_catch (transcribe_try E ctx id video) (transcribe_catch ctx id)
  end.

Definition reassign (ctx : Context.t) (id projectId : nat)
  : M (option Video.t) :=
  video <- db.getVideoById id (uid ctx) ;;
  match video with
  | None => throw (TRPCError NOT_FOUND (js "Video not found"))
  | Some _ =>
    project <- db.getProjectById projectId (uid ctx) ;;
    match project with
    | None => throw (TRPCError NOT_FOUND (js "Project not found"))
    | Some _ =>
      db.updateVideo id (uid ctx)
        (PartialVideo.mk (Some projectId) None None None None)
    end
  end.

Definition delete (ctx : Context.t) (id : nat) : M Success :=
  video <- db.getVideoById id (uid ctx) ;;
  match video with
  | None => throw (TRPCError NOT_FOUND (js "Video not found"))
  | Some _ =>
    db.deleteVideo id (uid ctx) ;;;
    ret success_true
  end.

End videos.

(* ============ DOCUMENTS ============ *)
Module documents.

Definition getByProject (ctx : Context.t) (projectId : nat)
  : M (option Document.t) :=
  db.getDocumentByProjectId projectId (uid ctx).

Definition listAll (ctx : Context.t) : M (list Document.t) :=
  db.getDocumentsByUserId (uid ctx).

Definition generate (E : Env) (ctx : Context.t) (projectId : nat)
  : M (option Document.t) :=
  project <- db.getProjectById projectId (uid ctx) ;;
  match project with
  | None => throw (TRPCError NOT_FOUND (js "Project not found"))
  | Some project =>
    videos <- db.getVideosByProjectId projectId (uid ctx) ;;
    let transcribedVideos := filter is_transcribed videos in
    if length transcribedVideos =? 0 then
      throw (TRPCError BAD_REQUEST
               (js "No transcribed videos available for this project"))
    else
      existingDoc <- db.getDocumentByProjectId projectId (uid ctx) ;;
      generated <-
        generateProjectDocument E
          (DocumentGenerationInput.mk
             (Project.name project)
             (if nonempty (Project.description project)
              then Project.description project else None)
             (option_map Document.content existingDoc)
             (map (fun v => Query.or_else (Video.transcription v) [])
                  transcribedVideos)
             (length transcribedVideos)) ;;
      match existingDoc with
      | Some existingDoc =>
        db.updateDocument (Document.id existingDoc) (uid ctx)
          (PartialDocument.mk
             (Some (GeneratedDocument.title generated))
             (Some (GeneratedDocument.content generated))
             (Some (Document.version existingDoc + 1))
             (Some (GeneratedDocument.summary generated))
             (Some (length transcribedVideos)))
      | None =>
        db.createDocument
          (InsertDocument.mk projectId (uid ctx)
             (GeneratedDocument.title generated)
             (GeneratedDocument.content generated)
             None
             (Some (GeneratedDocument.summary generated))
             (Some (length transcribedVideos)))
      end
  end.

Definition update (ctx : Context.t) (id : nat) (content : jsstring)
  : M (option Document.t) :=
  db.updateDocument id (uid ctx)
    (PartialDocument.mk None (Some content) None None None).

Definition delete (ctx : Context.t) (id : nat) : M Success :=
  db.deleteDocument id (uid ctx) ;;;
  ret success_true.

End documents.

(* ============ STATS ============ *)
Module stats.

Definition dashboard (ctx : Context.t) : M Dashboard.t :=
  projects <- db.getProjectsByUserId (uid ctx) ;;
  videos <- db.getVideosByUserId (uid ctx) ;;
  documents <- db.getDocumentsByUserId (uid ctx) ;;
  ret (Dashboard.mk
         (length (filter (fun p => negb (Project.isNewIdeas p)) projects))
         (length videos)
         (length documents)
         (length (filter (fun v => VideoStatus_eqb (Video.status v) transcribed)
                         videos))
         (length (filter (fun v => VideoStatus_eqb (Video.status v) uploaded
                                   || VideoStatus_eqb (Video.status v)
                                                      transcribing)
                         videos))
         (slice0 5 projects)
         (slice0 5 videos)).

End stats.

End appRouter.

(* ================================================================== *)
(** ** Requests and reachable worlds *)
(* ================================================================== *)

Inductive Request : Type :=
| projects_list
| projects_get (id : nat)
| projects_getNewIdeas
| projects_create (input : CreateProjectInput.t)
| projects_update (input : UpdateProjectInput.t)
| projects_delete (id : nat)
| projects_generateThumbnail (id : nat)
| videos_listByProject (projectId : nat)
| videos_listAll
| videos_get (id : nat)
| videos_upload (input : UploadInput.t)
| videos_transcribe (id : nat)
| videos_reassign (id projectId : nat)
| videos_delete (id : nat)
| documents_getByProject (projectId : nat)
| documents_listAll
| documents_generate (projectId : nat)
| documents_update (id : nat) (content : jsstring)
| documents_delete (id : nat)
| stats_dashboard.

(** The world after a request, whatever it answered. *)
Definition after (A : Type) (m : M A) (w : World) : World := snd (m w).

Definition handle (E : Env) (ctx : Context.t) (req : Request) (w : World)
  : World :=
  match req with
  | projects_list => after (appRouter.projects.list ctx) w
  | projects_get id => after (appRouter.projects.get ctx id) w
  | projects_getNewIdeas => after (appRouter.projects.getNewIdeas ctx) w
  | projects_create input => after (appRouter.projects.create E ctx input) w
  | projects_update input => after (appRouter.projects.update E ctx input) w
  | projects_delete id => after (appRouter.projects.delete ctx id) w
  | projects_generateThumbnail id =>
    after (appRouter.projects.generateThumbnail E ctx id) w
  | videos_listByProject pid => after (appRouter.videos.listByProject ctx pid) w
  | videos_listAll => after (appRouter.videos.listAll ctx) w
  | videos_get id => after (appRouter.videos.get ctx id) w
  | videos_upload input => after (appRouter.videos.upload E ctx input) w
  | videos_transcribe id => after (appRouter.videos.transcribe E ctx id) w
  | videos_reassign id pid => after (appRouter.videos.reassign ctx id pid) w
  | videos_delete id => after (appRouter.videos.delete ctx id) w
  | documents_getByProject pid =>
    after (appRouter.documents.getByProject ctx pid) w
  | documents_listAll => after (appRouter.documents.listAll ctx) w
  | documents_generate pid => after (appRouter.documents.generate E ctx pid) w
  | documents_update id content =>
    after (appRouter.documents.update ctx id content) w
  | documents_delete id => after (appRouter.documents.delete ctx id) w
  | stats_dashboard => after (appRouter.stats.dashboard ctx) w
  end.

(** The worlds the server can be in: it starts on empty tables, the clock
    moves, and requests of any caller are served one after the other by
    any collaborators. *)
Inductive reachable : World -> Prop :=
| reachable_start : forall tr n,
    reachable (mkWorld (Some empty_tables) tr n)
| reachable_clock : forall w n,
    reachable w -> reachable (mkWorld (database w) (trace w) n)
| reachable_request : forall E ctx req w,
    reachable w -> reachable (handle E ctx req w).

(** The new-ideas projects of a user. *)
Definition newIdeasOf (u : nat) (t : Tables) : list Project.t :=
  filter (fun p => (Project.userId p =? u) && Project.isNewIdeas p)
         (projects t).

(** What the tables of a running server always satisfy. *)
Record consistent (t : Tables) : Prop := mkConsistent {
  project_ids_below : forall p,
    In p (projects t) -> Project.id p < next_project_id t;
  project_ids_unique : NoDup (map Project.id (projects t));
  video_ids_below : forall v,
    In v (videos t) -> Video.id v < next_video_id t;
  video_ids_unique : NoDup (map Video.id (videos t));
  document_ids_below : forall d,
    In d (documents t) -> Document.id d < next_document_id t;
  document_ids_unique : NoDup (map Document.id (documents t));
  video_projects_below : forall v,
    In v (videos t) -> Video.projectId v < next_project_id t;
  videos_follow_projects : forall v p,
    In v (videos t) -> In p (projects t) ->
    Video.projectId v = Project.id p -> Video.userId v = Project.userId p;
  one_new_ideas : forall u, length (newIdeasOf u t) <= 1
}.

Definition world_ok (w : World) : Prop :=
  match database w with
  | Some t => consistent t
  | None => True
  end.

(** A triple for handler code: from a world in [P], the outcome and the
    world after satisfy [Q]. *)
Definition hoare (A : Type) (P : World -> Prop) (m : M A)
           (Q : exn + A -> World -> Prop) : Prop :=
  forall w, P w -> Q (fst (m w)) (snd (m w)).

(** Code that only talks to collaborators: it leaves the tables and the
    clock alone and only extends the trace. *)
Definition talks_only (A : Type) (m : M A) : Prop :=
  forall w, database (snd (m w)) = database w /\ now (snd (m w)) = now w.


(* ================================================================== *)
(** ** The specification's reading of the keyword *)
(* ================================================================== *)

(** The punctuation that ends the leading clause. *)
Definition isClauseEnd (c : N) : bool :=
  existsb (N.eqb c) (js ".,!?;:" ++ [LF]).

Definition leadingClause (text : jsstring) : jsstring :=
  takeWhile (fun c => negb (isClauseEnd c)) text.

(** The whitespace-separated words of a text: its maximal runs of
    code units that are not whitespace. *)
Fixpoint words_from (cur : jsstring) (s : jsstring) : list jsstring :=
  match s with
  | [] => match cur with [] => [] | _ => [cur] end
  | c :: t =>
    if isWhiteSpace c then
      match cur with
      | [] => words_from [] t
      | _ => cur :: words_from [] t
      end
    else words_from (cur ++ [c]) t
  end.

Definition words (s : jsstring) : list jsstring := words_from [] s.

Definition matchesNewIdeaCue (text : jsstring) : bool :=
  existsb (fun pattern => test pattern text) newIdeaPatterns.

(** The cue read as a phrase: the two words of a cue, in any case, with
    any white space between them (none included) and anything after
    them. *)
Definition cueHeads : list jsstring :=
  [js "nouvelle"; js "nouvell"; js "nouvel"; js "nouve"].
Definition cueTails : list jsstring := [js "idée"; js "idee"].

(** equal up to the case of the letters *)
Definition sameLetters (a b : jsstring) : Prop :=
  map Canonicalize a = map Canonicalize b.

Definition beginsWithCue (text : jsstring) : Prop :=
  exists head gap tail rest,
    text = head ++ gap ++ tail ++ rest
    /\ forallb isWhiteSpace gap = true
    /\ ((Exists (sameLetters head) cueHeads
         /\ Exists (sameLetters tail) cueTails)
        \/ (sameLetters head (js "new") /\ sameLetters tail (js "idea"))).

(** [goes r s t]: from text [s] the pattern [r] can stop in front of [t]. *)
Definition goes (r : regex) (s t : jsstring) : Prop :=
  forall pv cp, exists q, In (MState q t cp) (run r (MState pv s cp)).

(** The two French patterns, which differ by their stem and by the letter
    that may follow it. *)
Definition frenchCue (stem : string) (letter : N) : regex :=
  seq_of [Bos; lit_i stem; Opt (chr_i letter); Star ws; lit_i "id";
          class_i (js "ée"); chr_i 0x65].


(** The videos of a project that a synthesis reads. *)
Definition transcribedIn (projectId : nat) (t : Tables) : list Video.t :=
  filter (fun v => (Video.projectId v =? projectId) && is_transcribed v)
         (videos t).

Definition NoContentError : exn :=
  TRPCError BAD_REQUEST (js "No transcribed videos available for this project").

Definition Forbidden : exn :=
  TRPCError FORBIDDEN (js "Cannot delete the 'New Ideas' category").

(** The current document of a project, as [getDocumentByProjectId] picks
    it. *)
Definition currentDocument (projectId userId : nat) (t : Tables)
  : option Document.t :=
  hd_error
    (Query.orderBy_desc Document.version
       (filter (fun d => (Document.projectId d =? projectId)
                         && (Document.userId d =? userId))
               (documents t))).

Definition findProject (projectId userId : nat) (t : Tables)
  : option Project.t :=
  find (fun p => (Project.id p =? projectId) && (Project.userId p =? userId))
       (projects t).

Definition findVideo (videoId userId : nat) (t : Tables) : option Video.t :=
  find (fun v => (Video.id v =? videoId) && (Video.userId v =? userId))
       (videos t).

Definition findDocument (documentId : nat) (t : Tables) : option Document.t :=
  find (fun d => Document.id d =? documentId) (documents t).

(* ================================================================== *)
(** ** Notions used by the properties *)
(* ================================================================== *)

(** A text that does not end in whitespace. *)
Definition cleanEnd (s : jsstring) : Prop :=
  s = [] \/ isWhiteSpace (last s 0%N) = false.

(** The row that [createProject] answers, on tables [t] at time [n]. *)
Definition created (t : Tables) (n : Date) (project : InsertProject.t)
  : option Project.t :=
  hd_error
    (Query.orderBy_desc Project.createdAt
       (filter (fun p => (Project.userId p =? InsertProject.userId project)
                         && jseqb (Project.name p) (InsertProject.name project))
               (projects (db.insert_project project n t)))).

(** The classification that the specification derives from the keyword
    extractor: suggestedProjectName is null for a new idea and the
    keyword otherwise. *)
Definition fallbackResult (E : Env) (text : jsstring) : TranscriptionResult.t :=
  let extracted := extractFirstKeyword (toLowerCase E) text in
  TranscriptionResult.mk text (JSON.Str (keyword extracted))
    (isNewIdea extracted)
    (if isNewIdea extracted then None
     else Some (JSON.Str (keyword extracted))).

(** A project identifier that a video of user [u] may point to. *)
Definition assignable (u target : nat) (t : Tables) : Prop :=
  target < next_project_id t
  /\ forall p, In p (projects t) -> Project.id p = target ->
               Project.userId p = u.

(** The outcome of a piece of handler code on consistent tables: the
    tables stay connected and consistent, the clock is not touched, and
    [Q] relates the tables before, the answer and the tables after. *)
Definition keeps {A : Type} (m : M A)
           (Q : Tables -> exn + A -> Tables -> Prop) : Prop :=
  forall t tr n,
    consistent t ->
    exists r t' tr',
      m (mkWorld (Some t) tr n) = (r, mkWorld (Some t') tr' n)
      /\ consistent t' /\ Q t r t'.

Definition anything {A : Type} (t : Tables) (r : exn + A) (t' : Tables)
  : Prop := True.

Definition NotFound (what : jsstring) : exn := TRPCError NOT_FOUND what.

Definition tablesOf (w : World) : Tables :=
  Query.or_else (database w) empty_tables.

Definition answerOf {A : Type} (r : exn + option A) : option A :=
  match r with
  | inr o => o
  | inl _ => None
  end.

(** The rows of a world that the concrete runs talk about. *)
Definition projectOf (id u : nat) (w : World) : Project.t :=
  Query.or_else (findProject id u (tablesOf w))
    (Project.mk 0 0 [] None false None None 0 0).

Definition videoOf (id u : nat) (w : World) : Video.t :=
  Query.or_else (findVideo id u (tablesOf w))
    (Video.mk 0 0 0 [] [] [] None None None None None uploading None 0 0).

Definition documentOf (id : nat) (w : World) : Document.t :=
  Query.or_else (findDocument id (tablesOf w))
    (Document.mk 0 0 0 [] [] 0 None 0 0 0).

(* ================================================================== *)
(** ** Concrete environments and worlds *)
(* ================================================================== *)

Definition env0 : Env :=
  mkEnv true true toLowerCase_latin1
        (fun _ => js "Unexpected token in JSON")
        (js "Cannot read properties of undefined")
        (js "Invalid input")
        (fun _ => js "[object Object]")
        (fun _ => [])
        (fun h => js "V1StGXR8_Z5jdHi6B-myT")
        (fun _ _ _ _ => inr (WhisperText (js "Phoenix est un projet de refonte.")))
        (fun _ _ _ => inr (js "Je ne sais pas."))
        (fun _ _ => inr [TextBlock (js "# Phoenix" ++ [LF] ++ js "Refonte.")])
        (fun _ _ => inr (js "https://images.example/phoenix.png"))
        (fun _ _ _ _ => inr (js "https://storage.example/video.webm")).


Definition with_gemini
           (f : list Call -> jsstring -> jsstring -> exn + jsstring)
           (E : Env) : Env :=
  mkEnv (GEMINI_API_KEY E) (ANTHROPIC_API_KEY E) (toLowerCase E)
        (syntaxErrorMessage E) (typeErrorMessage E) (zodErrorMessage E)
        (driverText E) (Buffer_from_base64 E) (nanoid E) (transcribeAudio E)
        f (messages_create E) (generateImage E) (storagePut E).

Definition with_claude
           (f : list Call -> MessageRequest -> exn + list ContentBlock)
           (E : Env) : Env :=
  mkEnv (GEMINI_API_KEY E) (ANTHROPIC_API_KEY E) (toLowerCase E)
        (syntaxErrorMessage E) (typeErrorMessage E) (zodErrorMessage E)
        (driverText E) (Buffer_from_base64 E) (nanoid E) (transcribeAudio E)
        (generateContent E) f (generateImage E) (storagePut E).

Definition alice : Context.t := Context.mk (User.mk 1 (js "alice") role_user).
Definition root : Context.t := Context.mk (User.mk 2 (js "root") role_admin).

Definition world0 : World := mkWorld (Some empty_tables) [] 1000.

Definition upload0 : UploadInput.t :=
  UploadInput.mk (js "pitch.webm") (js "video/webm") 2048 (Some 12%Z) (js "AAAA").

(** One video uploaded by alice, then transcribed. *)
Definition world1 : World := handle env0 alice (videos_upload upload0) world0.
Definition world2 : World := handle env0 alice (videos_transcribe 1) world1.
(** ... then a first synthesis of the project the video went to. *)
Definition world3 : World := handle env0 alice (documents_generate 2) world2.

Definition env_malformed : Env :=
  with_gemini (fun _ _ _ => inr (js "Voici le JSON: {oops}")) env0.
Definition env_claude_down : Env :=
  with_claude (fun _ _ => inl (Error (js "Overloaded"))) env0.

(* ================================================================== *)
(** ** db.ts: the user helpers *)
(* ================================================================== *)

(** A row of the users table. *)
Module UserRow.
Record t : Type := mk {
  id : nat;
  openId : jsstring;
  name : option jsstring;
  email : option jsstring;
  loginMethod : option jsstring;
  role : Role;
  createdAt : Date;
  updatedAt : Date;
  lastSignedIn : Date
}.
End UserRow.

(** [InsertUser], with the members that [upsertUser] reads.  A member is
    absent ([None]) or given; a nullable column that is given holds null
    or a text. *)
Module InsertUser.
Record t : Type := mk {
  openId : jsstring;
  name : option (option jsstring);
  email : option (option jsstring);
  loginMethod : option (option jsstring);
  role : option Role;
  lastSignedIn : option Date
}.
End InsertUser.

(** [updateSet] *)
Module UserSet.
Record t : Type := mk {
  name : option (option jsstring);
  email : option (option jsstring);
  loginMethod : option (option jsstring);
  role : option Role;
  lastSignedIn : option Date
}.

(** [Object.keys(updateSet).length === 0] *)
Definition is_empty (d : t) : bool :=
  match name d, email d, loginMethod d, role d, lastSignedIn d with
  | None, None, None, None, None => true
  | _, _, _, _, _ => false
  end.
End UserSet.

(** The users table behind the handle, with its AUTO_INCREMENT counter. *)
Record Users : Type := mkUsers {
  users : list UserRow.t;
  next_user_id : nat
}.

Definition Role_eqb (a b : Role) : bool :=
  match a, b with
  | role_user, role_user | role_admin, role_admin => true
  | _, _ => false
  end.

Definition text_eqb (a b : option jsstring) : bool :=
  match a, b with
  | Some x, Some y => jseqb x y
  | None, None => true
  | _, _ => false
  end.

(** Two rows with the same values in the columns that [updateSet] can
    hold. *)
Definition same_values (a b : UserRow.t) : bool :=
  text_eqb (UserRow.name a) (UserRow.name b)
  && text_eqb (UserRow.email a) (UserRow.email b)
  && text_eqb (UserRow.loginMethod a) (UserRow.loginMethod b)
  && Role_eqb (UserRow.role a) (UserRow.role b)
  && (UserRow.lastSignedIn a =? UserRow.lastSignedIn b).

(** The columns that [updateSet] gives, on a row.  The column updatedAt is
    ON UPDATE CURRENT_TIMESTAMP: it moves when the statement changes a
    value of the row. *)
Definition assign_user (d : UserSet.t) (r : UserRow.t) : UserRow.t :=
  UserRow.mk (UserRow.id r) (UserRow.openId r)
    (Query.set (UserSet.name d) (UserRow.name r))
    (Query.set (UserSet.email d) (UserRow.email r))
    (Query.set (UserSet.loginMethod d) (UserRow.loginMethod r))
    (Query.set (UserSet.role d) (UserRow.role r))
    (UserRow.createdAt r) (UserRow.updatedAt r)
    (Query.set (UserSet.lastSignedIn d) (UserRow.lastSignedIn r)).

Definition set_user (d : UserSet.t) (at_ : Date) (r : UserRow.t) : UserRow.t :=
  let r' := assign_user d r in
  if same_values r r' then r
  else UserRow.mk (UserRow.id r') (UserRow.openId r') (UserRow.name r')
         (UserRow.email r') (UserRow.loginMethod r') (UserRow.role r')
         (UserRow.createdAt r') at_ (UserRow.lastSignedIn r').

Definition has_openId (openId : jsstring) (r : UserRow.t) : bool :=
  jseqb (UserRow.openId r) openId.

(** The row that [values] inserts, with the defaults of the schema. *)
Definition new_user (values : InsertUser.t) (at_ : Date) (t : Users)
  : UserRow.t :=
  UserRow.mk (next_user_id t) (InsertUser.openId values)
    (Query.or_else (InsertUser.name values) None)
    (Query.or_else (InsertUser.email values) None)
    (Query.or_else (InsertUser.loginMethod values) None)
    (Query.or_else (InsertUser.role values) role_user)
    at_ at_
    (Query.or_else (InsertUser.lastSignedIn values) at_).

(** [db.insert(users).values(values).onDuplicateKeyUpdate({ set })]:
    openId is the unique key of the table.  The counter is consumed by
    the statement whether it inserts or updates. *)
Definition insert_user (values : InsertUser.t) (updateSet : UserSet.t)
           (at_ : Date) (t : Users) : Users :=
  if existsb (has_openId (InsertUser.openId values)) (users t)
  then mkUsers (Query.update (has_openId (InsertUser.openId values))
                       (set_user updateSet at_) (users t))
               (S (next_user_id t))
  else mkUsers (users t ++ [new_user values at_ t]) (S (next_user_id t)).

(** [upsertUser(user)] at time [now], on the users table behind the
    handle of [getDb()], which is [None] without a database;
    [ownerOpenId] is [ENV.ownerOpenId]. *)
Definition upsertUser (ownerOpenId : jsstring) (user : InsertUser.t)
           (now : Date) (db : option Users) : (exn + unit) * option Users :=
  match InsertUser.openId user with
  | [] => (inl (Error (js "User openId is required for upsert")), db)
  | _ =>
    match db with
    | None => (inr tt, None)
    | Some t =>
      let role :=
        match InsertUser.role user with
        | Some r => Some r
        | None =>
          if jseqb (InsertUser.openId user) ownerOpenId
          then Some role_admin else None
        end in
      let values :=
        InsertUser.mk (InsertUser.openId user) (InsertUser.name user)
          (InsertUser.email user) (InsertUser.loginMethod user) role
          (Some (Query.or_else (InsertUser.lastSignedIn user) now)) in
      let updateSet :=
        UserSet.mk (InsertUser.name user) (InsertUser.email user)
          (InsertUser.loginMethod user) role (InsertUser.lastSignedIn user) in
      let updateSet :=
        if UserSet.is_empty updateSet
        then UserSet.mk None None None None (Some now)
        else updateSet in
      (inr tt, Some (insert_user values updateSet now t))
    end
  end.

Definition getUserByOpenId (openId : jsstring) (db : option Users)
  : option UserRow.t :=
  match db with
  | None => None
  | Some t =>
    Query.first (Query.limit 1 (Query.where_ (has_openId openId) (users t)))
  end.

(** [updateSet] would be empty: no member is given and the role of the
    owner does not apply. *)
Definition bare (user : InsertUser.t) (ownerOpenId : jsstring) : bool :=
  match InsertUser.name user, InsertUser.email user,
        InsertUser.loginMethod user, InsertUser.role user,
        InsertUser.lastSignedIn user with
  | None, None, None, None, None =>
    negb (jseqb (InsertUser.openId user) ownerOpenId)
  | _, _, _, _, _ => false
  end.

(* ================================================================== *)
(** ** Notions used by the further properties *)
(* ================================================================== *)

(** A relation on tables, on databases: both connected and related, or
    both out of reach. *)
Definition lifted (R : Tables -> Tables -> Prop) (a b : option Tables)
  : Prop :=
  match a, b with
  | Some t, Some t' => R t t'
  | None, None => True
  | _, _ => False
  end.

(** [changes R m]: whatever [m] answers, the database before and the
    database after are related by [R]. *)
Definition changes (A : Type) (R : Tables -> Tables -> Prop) (m : M A)
  : Prop :=
  forall w, lifted R (database w) (database (snd (m w))).

(** The rows of the three tables that do not belong to [u]. *)
Definition others (u : nat) (t : Tables)
  : list Project.t * list Video.t * list Document.t :=
  (filter (fun p => negb (Project.userId p =? u)) (projects t),
   filter (fun v => negb (Video.userId v =? u)) (videos t),
   filter (fun d => negb (Document.userId d =? u)) (documents t)).

(** The rows that a statement of the caller [u] on row [i] selects. *)
Definition owns_project (u i : nat) (p : Project.t) : bool :=
  (Project.id p =? i) && (Project.userId p =? u).
Definition owns_video (u i : nat) (v : Video.t) : bool :=
  (Video.id v =? i) && (Video.userId v =? u).
Definition owns_document (u i : nat) (d : Document.t) : bool :=
  (Document.id d =? i) && (Document.userId d =? u).

(** Two states of the tables in which the rows of everybody but [u] are
    the same. *)
Definition same_others (u : nat) (t t' : Tables) : Prop :=
  others u t' = others u t.

(** The tables that the procedure of a request has a statement for. *)
Definition writes_projects (req : Request) : bool :=
  match req with
  | projects_getNewIdeas | projects_create _ | projects_update _
  | projects_delete _ | projects_generateThumbnail _
  | videos_upload _ | videos_transcribe _ => true
  | _ => false
  end.

Definition writes_videos (req : Request) : bool :=
  match req with
  | videos_upload _ | videos_transcribe _ | videos_reassign _ _
  | videos_delete _ => true
  | _ => false
  end.

Definition writes_documents (req : Request) : bool :=
  match req with
  | documents_generate _ | documents_update _ _ | documents_delete _ => true
  | _ => false
  end.

(** Tables that agree wherever [kp], [kv], [kd] ask for it. *)
Definition kept (kp kv kd : bool) (t t' : Tables) : Prop :=
  (kp = true -> projects t' = projects t
                /\ next_project_id t' = next_project_id t)
  /\ (kv = true -> videos t' = videos t
                   /\ next_video_id t' = next_video_id t)
  /\ (kd = true -> documents t' = documents t
                   /\ next_document_id t' = next_document_id t).

(** The procedures that are queries, [projects.getNewIdeas] apart. *)
Definition is_query (req : Request) : bool :=
  match req with
  | projects_list | projects_get _ | videos_listByProject _ | videos_listAll
  | videos_get _ | documents_getByProject _ | documents_listAll
  | stats_dashboard => true
  | _ => false
  end.

Definition is_some (A : Type) (o : option A) : bool :=
  match o with Some _ => true | None => false end.

(** A video between two requests: uploaded, transcribed with its text and
    keyword, or failed with its message. *)
Definition settled (v : Video.t) : bool :=
  match Video.status v with
  | uploaded => true
  | transcribed =>
    is_some (Video.transcription v) && is_some (Video.firstKeyword v)
  | error => is_some (Video.errorMessage v)
  | uploading | transcribing => false
  end.

(** The values with which a transcription request ends. *)
Definition finished (d : PartialVideo.t) : bool :=
  match PartialVideo.status d with
  | Some transcribed =>
    is_some (PartialVideo.transcription d)
    && is_some (PartialVideo.firstKeyword d)
  | Some error => is_some (PartialVideo.errorMessage d)
  | _ => false
  end.

(** What identifies the document of a project, and the counts of a
    document that a synthesis has written. *)
Definition document_key (d : Document.t) : nat * nat :=
  (Document.projectId d, Document.userId d).

Definition counted (d : Document.t) : bool :=
  (1 <=? Document.version d) && (1 <=? Document.videosIncorporated d).

Record documents_in_order (t : Tables) : Prop := mkDocumentsInOrder {
  one_per_project : NoDup (map document_key (documents t));
  all_counted : forallb counted (documents t) = true
}.

(** The color of a project created without one. *)
Definition defaultColor : jsstring := js "#3B82F6".

(** The row that [projects.create] inserts on tables [t] at time [n]. *)
Definition createdProject (ctx : Context.t) (input : CreateProjectInput.t)
           (t : Tables) (n : Date) : Project.t :=
  Project.mk (next_project_id t) (uid ctx)
    (CreateProjectInput.name input)
    (CreateProjectInput.description input)
    false None
    (Some (match CreateProjectInput.color input with
           | Some (c :: s) => c :: s
           | _ => defaultColor
           end))
    n n.

Definition nameTaken (u : nat) (name : jsstring) (t : Tables) : bool :=
  existsb (fun p => jseqb (Project.name p) name && (Project.userId p =? u))
          (projects t).

(** The extension and the key under which [videos.upload] stores a
    file. *)
Definition fileExtension (filename : jsstring) : jsstring :=
  match after_last_dot [] filename with
  | [] => js "webm"
  | ext => ext
  end.

Definition uploadKey (E : Env) (ctx : Context.t) (input : UploadInput.t)
           (tr : list Call) : jsstring :=
  js "videos/" ++ string_of_number (uid ctx) ++ js "/" ++ nanoid E tr
     ++ js "." ++ fileExtension (UploadInput.filename input).

Definition uploadPut (E : Env) (ctx : Context.t) (input : UploadInput.t)
           (tr : list Call) : Call :=
  call_storagePut (uploadKey E ctx input tr)
    (Buffer_from_base64 E (UploadInput.videoBase64 input))
    (UploadInput.mimeType input).

(** The row that [videos.upload] inserts. *)
Definition uploadedVideo (E : Env) (ctx : Context.t) (input : UploadInput.t)
           (tr : list Call) (videoUrl : jsstring) (projectId : nat)
           (t : Tables) (n : Date) : Video.t :=
  Video.mk (next_video_id t) (uid ctx) projectId
    (UploadInput.filename input) videoUrl (uploadKey E ctx input tr)
    (UploadInput.duration input) (Some (UploadInput.fileSize input))
    (Some (UploadInput.mimeType input)) None None uploaded None n n.

(** The row of the new-ideas project of [u], inserted on [t] at [n]. *)
Definition newIdeasProject (u : nat) (t : Tables) (n : Date) : Project.t :=
  Project.mk (next_project_id t) u (js "Nouvelles idées")
    (Some (js "Catégorie pour les nouvelles idées non encore assignées à un projet"))
    true None (Some (js "#8B5CF6")) n n.

Definition isDot (c : N) : bool := (c =? 46)%N.

(** The project that [getOrCreateNewIdeasProject] answers to a user [u]
    who has no new-ideas project, at time [n] on tables [t].  It inserts
    that project, and [createProject] answers the most recent project of
    [u] that has its name: the inserted one when every other one is
    older, and the inserted one or a project of that name that is not
    older otherwise. *)
Definition firstAccess (u : nat) (n : Date) (t : Tables) (p : Project.t)
  : Prop :=
  (p = newIdeasProject u t n
   \/ (In p (projects t) /\ Project.userId p = u
       /\ Project.name p = js "Nouvelles idées"
       /\ Project.isNewIdeas p = false
       /\ n <= Project.createdAt p))
  /\ ((forall q,
          In q (projects t) -> Project.userId q = u ->
          Project.name q = js "Nouvelles idées" -> Project.createdAt q < n) ->
      p = newIdeasProject u t n).

(** Where a classified video goes, at time [n] on tables [t]: to the
    project that the access to the new-ideas project answers, to a project
    of the caller that has the suggested name, which is inserted if there
    is none, or nowhere else than where it is. *)
Definition placed (E : Env) (u : nat) (video : Video.t)
           (result : TranscriptionResult.t) (n : Date) (t t' : Tables)
           (target : nat) : Prop :=
  if TranscriptionResult.isNewIdea result then
    match newIdeasOf u t with
    | q :: _ => target = Project.id q /\ projects t' = projects t
    | [] =>
      projects t' = projects t ++ [newIdeasProject u t n]
      /\ exists p, firstAccess u n t p /\ target = Project.id p
    end
  else
    match TranscriptionResult.suggestedProjectName result with
    | Some s =>
      if JSON.truthy s then
        (exists p,
            In p (projects t) /\ Project.userId p = u
            /\ Project.name p = sql_text E s
            /\ target = Project.id p /\ projects t' = projects t)
        \/ ((forall p,
                In p (projects t) -> Project.userId p = u ->
                Project.name p <> sql_text E s)
            /\ target = next_project_id t
            /\ projects t'
               = projects t
                 ++ [Project.mk (next_project_id t) u (sql_text E s) None
                       false None (Some (js "#3B82F6")) n n])
      else target = Video.projectId video /\ projects t' = projects t
    | None => target = Video.projectId video /\ projects t' = projects t
    end.

(** What a helper of db.ts throws when [getDb()] yields no handle. *)
Definition Unavailable : exn := Error (js "Database not available").

(** Rows in descending order of a column. *)
Fixpoint descending (A : Type) (key : A -> nat) (l : list A) : bool :=
  match l with
  | [] => true
  | x :: r =>
    match r with
    | [] => true
    | y :: _ => (key y <=? key x) && descending key r
    end
  end.

(** The states in which [[\s\S]*] can stop, in the order in which the
    matcher tries them: the longest run first. *)
Fixpoint suffix_states (pv : option N) (s : jsstring) (cp : list jsstring)
  : list mstate :=
  match s with
  | [] => [MState pv [] cp]
  | c :: t => suffix_states (Some c) t cp ++ [MState pv (c :: t) cp]
  end.

Definition isOpen (c : N) : bool := (c =? 123)%N.
Definition isClose (c : N) : bool := (c =? 125)%N.

(** The title of a generated document: its first heading, or a title made
    of the name of the project. *)
Definition titleOf (projectName documentContent : jsstring) : jsstring :=
  match exec titleRegex documentContent with
  | Some titleMatch => nth 0 (groups titleMatch) []
  | None => js "Document de présentation - " ++ projectName
  end.

(** A word: code units, at least one, none of them white space. *)
Definition isWord (w : jsstring) : bool :=
  match w with
  | [] => false
  | _ => forallb (fun c => negb (isWhiteSpace c)) w
  end.

(** The error of an answer, if it is one, and the world after it. *)
Definition outcome (A : Type) (m : M A) (w : World) : option exn * World :=
  (match fst (m w) with inl e => Some e | inr _ => None end, snd (m w)).

(** The procedure of a request, up to the value that it answers. *)
Definition respond (E : Env) (ctx : Context.t) (req : Request) (w : World)
  : option exn * World :=
  match req with
  | projects_list => outcome (appRouter.projects.list ctx) w
  | projects_get id => outcome (appRouter.projects.get ctx id) w
  | projects_getNewIdeas => outcome (appRouter.projects.getNewIdeas ctx) w
  | projects_create input => outcome (appRouter.projects.create E ctx input) w
  | projects_update input => outcome (appRouter.projects.update E ctx input) w
  | projects_delete id => outcome (appRouter.projects.delete ctx id) w
  | projects_generateThumbnail id =>
    outcome (appRouter.projects.generateThumbnail E ctx id) w
  | videos_listByProject pid =>
    outcome (appRouter.videos.listByProject ctx pid) w
  | videos_listAll => outcome (appRouter.videos.listAll ctx) w
  | videos_get id => outcome (appRouter.videos.get ctx id) w
  | videos_upload input => outcome (appRouter.videos.upload E ctx input) w
  | videos_transcribe id => outcome (appRouter.videos.transcribe E ctx id) w
  | videos_reassign id pid => outcome (appRouter.videos.reassign ctx id pid) w
  | videos_delete id => outcome (appRouter.videos.delete ctx id) w
  | documents_getByProject pid =>
    outcome (appRouter.documents.getByProject ctx pid) w
  | documents_listAll => outcome (appRouter.documents.listAll ctx) w
  | documents_generate pid =>
    outcome (appRouter.documents.generate E ctx pid) w
  | documents_update id content =>
    outcome (appRouter.documents.update ctx id content) w
  | documents_delete id => outcome (appRouter.documents.delete ctx id) w
  | stats_dashboard => outcome (appRouter.stats.dashboard ctx) w
  end.

(** What a request answers without a database. *)
Definition offlineError (E : Env) (ctx : Context.t) (req : Request)
           (w : World) : exn :=
  match req with
  | projects_create input =>
    if negb (valid_name (CreateProjectInput.name input))
    then TRPCError BAD_REQUEST (zodErrorMessage E) else Unavailable
  | projects_update input =>
    match UpdateProjectInput.name input with
    | Some s =>
      if negb (valid_name s) then TRPCError BAD_REQUEST (zodErrorMessage E)
      else Unavailable
    | None => Unavailable
    end
  | videos_upload input =>
    match storagePut E (trace w) (uploadKey E ctx input (trace w))
                     (Buffer_from_base64 E (UploadInput.videoBase64 input))
                     (UploadInput.mimeType input) with
    | inl e => e
    | inr _ => Unavailable
    end
  | _ => Unavailable
  end.

(** A world whose database cannot be reached. *)
Definition offline : World := mkWorld None [] 1000.

(** Requests of the concrete runs. *)
Definition atlas : CreateProjectInput.t :=
  CreateProjectInput.mk (js "Atlas") None None.

Definition rename2 : UpdateProjectInput.t :=
  UpdateProjectInput.mk 2 (Some (js "Phoenix")) None (Some (js "#000000")).

(** A user who has no new-ideas project yet gives its name to a project
    of theirs. *)
Definition namesake : CreateProjectInput.t :=
  CreateProjectInput.mk (js "Nouvelles idées") None None.

Definition world4 : World := handle env0 root (projects_create namesake) world3.

(** Sign-ins of the concrete runs: the owner signs in twice. *)
Definition signin1 : InsertUser.t :=
  InsertUser.mk (js "root") (Some (Some (js "Root"))) None None None None.

Definition signin2 : InsertUser.t :=
  InsertUser.mk (js "root") None (Some (Some (js "root@example.org"))) None
                None None.

Definition users1 : Users :=
  Query.or_else
    (snd (upsertUser (js "root") signin1 1000 (Some (mkUsers [] 1))))
    (mkUsers [] 1).

(* ================================================================== *)
(* ================================================================== *)
(** * Properties *)
(* ================================================================== *)
(* ================================================================== *)

Unset Implicit Arguments.

(* ================================================================== *)
(** ** Lists *)
(* ================================================================== *)

Section ListFacts.
Variable A : Type.
Variable p : A -> bool.

Lemma takeWhile_dropWhile (l : list A) :
  takeWhile p l ++ dropWhile p l = l.
Proof.
  induction l as [|x l IH]; simpl; [reflexivity|].
  destruct (p x); simpl; [now rewrite IH | reflexivity].
Qed.

Lemma takeWhile_all (l : list A) : forallb p (takeWhile p l) = true.
Proof.
  induction l as [|x l IH]; simpl; [reflexivity|].
  destruct (p x) eqn:Hx; simpl; [now rewrite Hx | reflexivity].
Qed.

Lemma dropWhile_head (l : list A) x r :
  dropWhile p l = x :: r -> p x = false.
Proof.
  induction l as [|y l IH]; simpl; [discriminate|].
  destruct (p y) eqn:Hy; [exact IH|].
  intros H; injection H as -> _; exact Hy.
Qed.

Lemma dropWhile_idem (l : list A) :
  dropWhile p (dropWhile p l) = dropWhile p l.
Proof.
  destruct (dropWhile p l) as [|x r] eqn:E; [reflexivity|].
  simpl. erewrite dropWhile_head by eassumption; reflexivity.
Qed.

Lemma dropWhile_length (l : list A) : length (dropWhile p l) <= length l.
Proof.
  induction l as [|x l IH]; simpl; [lia|].
  destruct (p x); simpl; lia.
Qed.

Lemma dropWhile_nil_all (l : list A) :
  dropWhile p l = [] -> forallb p l = true.
Proof.
  induction l as [|x l IH]; simpl; [reflexivity|].
  destruct (p x); [exact IH | discriminate].
Qed.

Lemma hd_error_firstn_1 (l : list A) : hd_error (firstn 1 l) = hd_error l.
Proof. destruct l; reflexivity. Qed.

Lemma hd_error_filter (l : list A) : hd_error (filter p l) = find p l.
Proof.
  induction l as [|x l IH]; simpl; [reflexivity|].
  destruct (p x); simpl; [reflexivity | exact IH].
Qed.

Lemma filter_none (l : list A) :
  (forall x, In x l -> p x = false) -> filter p l = [].
Proof.
  induction l as [|x l IH]; simpl; intros H; [reflexivity|].
  rewrite (H x (or_introl eq_refl)). apply IH. intros y Hy. apply H. now right.
Qed.

Lemma filter_all (l : list A) :
  (forall x, In x l -> p x = true) -> filter p l = l.
Proof.
  induction l as [|x l IH]; simpl; intros H; [reflexivity|].
  rewrite (H x (or_introl eq_refl)). f_equal. apply IH.
  intros y Hy. apply H. now right.
Qed.

End ListFacts.

Lemma last_forallb (A : Type) (p : A -> bool) (l : list A) (d : A) :
  l <> [] -> forallb p l = true -> p (last l d) = true.
Proof.
  induction l as [|x l IH]; [congruence|].
  intros _ H. simpl in H. apply andb_prop in H as [Hx Hl].
  destruct l as [|y l]; [exact Hx|].
  change (p (last (y :: l) d) = true). apply IH; [discriminate | exact Hl].
Qed.

(* ================================================================== *)
(** ** trim *)
(* ================================================================== *)

Lemma trimEnd_split (s : jsstring) :
  exists w, s = trimEnd s ++ w /\ forallb isWhiteSpace w = true.
Proof.
  exists (rev (takeWhile isWhiteSpace (rev s))). split.
  - unfold trimEnd. rewrite <- rev_app_distr, takeWhile_dropWhile.
    now rewrite rev_involutive.
  - rewrite forallb_forall. intros x Hx. apply in_rev in Hx.
    pose proof (takeWhile_all _ isWhiteSpace (rev s)) as H.
    rewrite forallb_forall in H. now apply H.
Qed.

Lemma trimEnd_clean (s : jsstring) : cleanEnd (trimEnd s).
Proof.
  unfold cleanEnd, trimEnd.
  destruct (dropWhile isWhiteSpace (rev s)) as [|x r] eqn:E; [now left|].
  right. simpl. rewrite last_last. eapply dropWhile_head; eassumption.
Qed.

Lemma trim_clean (s : jsstring) : cleanEnd (trim s).
Proof. apply trimEnd_clean. Qed.

Lemma trim_head (s : jsstring) c r :
  trim s = c :: r -> isWhiteSpace c = false.
Proof.
  unfold trim. intros H.
  destruct (trimEnd_split (trimStart s)) as [w [Hw _]].
  rewrite H in Hw. simpl in Hw. unfold trimStart in Hw.
  eapply dropWhile_head; eassumption.
Qed.

Lemma cleanEnd_tail c t : t <> [] -> cleanEnd (c :: t) -> cleanEnd t.
Proof.
  intros Ht [H|H]; [discriminate|]. right.
  destruct t; [congruence | exact H].
Qed.

Lemma cleanEnd_dropWhile (s : jsstring) :
  s <> [] -> cleanEnd s -> dropWhile isWhiteSpace s <> [].
Proof.
  intros Hs [H|H] Hd; [congruence|].
  apply dropWhile_nil_all in Hd.
  rewrite (last_forallb _ isWhiteSpace s 0%N Hs Hd) in H. discriminate.
Qed.

Lemma cleanEnd_suffix (a b : jsstring) :
  b <> [] -> cleanEnd (a ++ b) -> cleanEnd b.
Proof.
  induction a as [|x a IH]; simpl; intros Hb H; [exact H|].
  apply IH; [exact Hb|]. apply (cleanEnd_tail x); [|exact H].
  destruct a; simpl; [exact Hb | discriminate].
Qed.

(* ================================================================== *)
(** ** words *)
(* ================================================================== *)

Lemma words_from_trailing cur w :
  forallb isWhiteSpace w = true ->
  words_from cur w = match cur with [] => [] | _ => [cur] end.
Proof.
  revert cur. induction w as [|c w IH]; intros cur H; simpl; [reflexivity|].
  simpl in H. apply andb_prop in H as [Hc Hw]. rewrite Hc.
  destruct cur; rewrite (IH [] Hw); reflexivity.
Qed.

Lemma words_from_app_ws cur a w :
  forallb isWhiteSpace w = true ->
  words_from cur (a ++ w) = words_from cur a.
Proof.
  intros Hw. revert cur. induction a as [|c a IH]; intros cur; simpl.
  - rewrite (words_from_trailing _ _ Hw). reflexivity.
  - destruct (isWhiteSpace c); [destruct cur|]; now rewrite IH.
Qed.

Lemma words_dropWhile s :
  words_from [] (dropWhile isWhiteSpace s) = words_from [] s.
Proof.
  induction s as [|c s IH]; simpl; [reflexivity|].
  destruct (isWhiteSpace c) eqn:Hc; [exact IH|]. simpl. now rewrite Hc.
Qed.

Lemma words_trim s : words (trim s) = words s.
Proof.
  unfold words, trim.
  destruct (trimEnd_split (trimStart s)) as [w [Hs Hw]].
  rewrite <- (words_dropWhile s). fold (trimStart s).
  rewrite Hs at 2. now rewrite words_from_app_ws.
Qed.

(* ================================================================== *)
(** ** What the cue patterns accept *)
(* ================================================================== *)

Lemma in_run_seq a b st st2 :
  In st2 (run (Seq a b) st)
  <-> exists st1, In st1 (run a st) /\ In st2 (run b st1).
Proof. cbn [run]. apply in_flat_map. Qed.

Lemma in_run_chr p st st' :
  In st' (run (Chr p) st)
  <-> exists c, rest st = c :: rest st' /\ p c = true
                /\ st' = MState (Some c) (rest st') (caps st).
Proof.
  cbn [run]. destruct (rest st) as [|c t] eqn:R.
  - split; [intros [] | intros (c & H & _); discriminate].
  - destruct (p c) eqn:P.
    + split.
      * intros [H|[]]. subst st'. exists c. cbn. auto.
      * intros (c' & H & P' & E). inversion H; subst c' t.
        left. symmetry. exact E.
    + split; [intros [] |].
      intros (c' & H & P' & _). inversion H; subst. congruence.
Qed.

Lemma in_run_opt a st st' :
  In st' (run (Opt a) st) <-> In st' (run a st) \/ st' = st.
Proof.
  cbn [run]. rewrite in_app_iff. cbn. intuition.
Qed.

Lemma in_star_loop p fuel st st' :
  In st' (star_loop (run (Chr p)) fuel st) ->
  exists gap, rest st = gap ++ rest st' /\ forallb p gap = true
              /\ caps st' = caps st.
Proof.
  revert st. induction fuel as [|n IH]; intros st; cbn [star_loop].
  - intros [H|[]]. subst. exists []. auto.
  - rewrite in_app_iff. intros [H|[H|[]]].
    + apply in_flat_map in H. destruct H as (st1 & H1 & H2).
      apply in_run_chr in H1. destruct H1 as (c & R & P & E).
      destruct (length (rest st1) <? length (rest st)); [|destruct H2].
      destruct (IH _ H2) as (gap & R' & G & C).
      exists (c :: gap). rewrite R, R'. cbn. rewrite P, G.
      rewrite C, E. cbn. auto.
    + subst. exists []. auto.
Qed.

Lemma star_loop_in p gap : forall fuel pv t cp,
  forallb p gap = true ->
  length (gap ++ t) < fuel ->
  exists q, In (MState q t cp)
               (star_loop (run (Chr p)) fuel (MState pv (gap ++ t) cp)).
Proof.
  induction gap as [|c g IH]; intros fuel pv t cp G L.
  - exists pv. destruct fuel; cbn [star_loop app]; [now left|].
    apply in_or_app. right. now left.
  - destruct fuel as [|n]; [lia|].
    cbn in G. apply andb_prop in G. destruct G as [Pc G].
    destruct (IH n (Some c) t cp G) as [q Hq]; [cbn in L; lia|].
    exists q. cbn [star_loop]. apply in_or_app. left.
    apply in_flat_map. exists (MState (Some c) (g ++ t) cp). split.
    + cbn. rewrite Pc. now left.
    + cbn [rest].
      replace (length (g ++ t) <? length ((c :: g) ++ t)) with true
        by (symmetry; apply Nat.ltb_lt; cbn; lia).
      exact Hq.
Qed.

Lemma in_run_seq_of a l st st2 :
  In st2 (run (seq_of (a :: l)) st)
  <-> exists st1, In st1 (run a st) /\ In st2 (run (seq_of l) st1).
Proof.
  destruct l as [|b l].
  - cbn [seq_of run]. split.
    + intros H. exists st2. split; [exact H | now left].
    + intros (st1 & H & [E|[]]). now subst.
  - change (seq_of (a :: b :: l)) with (Seq a (seq_of (b :: l))).
    apply in_run_seq.
Qed.

Lemma in_run_literal cs : forall st st',
  In st' (run (seq_of (map chr_i cs)) st) ->
  exists cs', rest st = cs' ++ rest st' /\ sameLetters cs' cs
              /\ caps st' = caps st.
Proof.
  induction cs as [|c cs IH]; intros st st' H.
  - destruct H as [H|[]]. subst. exists []. repeat split.
  - cbn [map] in H. apply in_run_seq_of in H.
    destruct H as (st1 & H1 & H2).
    apply in_run_chr in H1. destruct H1 as (x & R & P & E).
    destruct (IH _ _ H2) as (cs' & R' & S & C).
    exists (x :: cs'). rewrite R, R'. repeat split.
    + unfold sameLetters in *. cbn. apply N.eqb_eq in P. now rewrite P, S.
    + rewrite C, E. reflexivity.
Qed.

Lemma run_literal_in cs : forall cs' pv t cp,
  sameLetters cs' cs ->
  exists q, In (MState q t cp)
               (run (seq_of (map chr_i cs)) (MState pv (cs' ++ t) cp)).
Proof.
  induction cs as [|c cs IH]; intros cs' pv t cp S.
  - destruct cs'; [|discriminate]. exists pv. now left.
  - destruct cs' as [|x cs']; [discriminate|].
    unfold sameLetters in S. cbn in S. inversion S as [[S1 S2]].
    destruct (IH cs' (Some x) t cp S2) as [q Hq].
    exists q. cbn [map]. apply in_run_seq_of.
    exists (MState (Some x) (cs' ++ t) cp). split; [|exact Hq].
    cbn. rewrite S1, N.eqb_refl. now left.
Qed.

(** An anchored pattern matches at the start of the text or nowhere. *)
Lemma exec_from_anchored l : forall s i c,
  exec_from (seq_of (Bos :: l)) i (Some c) s = None.
Proof.
  assert (N : forall s c, match_at (seq_of (Bos :: l)) (Some c) s = None).
  { intros s c. unfold match_at.
    destruct (run (seq_of (Bos :: l)) (MState (Some c) s [])) as [|st' r] eqn:R;
      [reflexivity|].
    assert (H : In st' (run (seq_of (Bos :: l)) (MState (Some c) s [])))
      by (rewrite R; now left).
    apply in_run_seq_of in H. destruct H as (st1 & [] & _). }
  induction s as [|x s IH]; intros i c; cbn [exec_from]; rewrite N;
    [reflexivity | apply IH].
Qed.

Lemma test_anchored l text :
  test (seq_of (Bos :: l)) text = true
  <-> exists st', In st' (run (seq_of l) (MState None text [])).
Proof.
  unfold test, exec.
  assert (A : forall st', In st' (run (seq_of (Bos :: l)) (MState None text []))
                          <-> In st' (run (seq_of l) (MState None text []))).
  { intros st'. rewrite in_run_seq_of. cbn [run prev]. split.
    - intros (st1 & [E|[]] & H). now subst.
    - intros H. eexists. split; [now left | exact H]. }
  destruct text as [|c t]; cbn [exec_from]; unfold match_at;
    destruct (run (seq_of (Bos :: l)) (MState None _ [])) as [|st r] eqn:R;
    cbn [hd_error].
  - split; [discriminate|]. intros (st' & H). apply A in H. destruct H.
  - split; [|reflexivity]. intros _. exists st. apply A. now left.
  - rewrite exec_from_anchored. split; [discriminate|].
    intros (st' & H). apply A in H. destruct H.
  - split; [|reflexivity]. intros _. exists st. apply A. now left.
Qed.

Lemma goes_cons a l s t u :
  goes a s t -> goes (seq_of l) t u -> goes (seq_of (a :: l)) s u.
Proof.
  intros Ha Hl pv cp. destruct (Ha pv cp) as [q Hq].
  destruct (Hl q cp) as [q' Hq']. exists q'.
  apply in_run_seq_of. eauto.
Qed.

Lemma goes_nil s : goes (seq_of []) s s.
Proof. intros pv cp. exists pv. now left. Qed.

Lemma goes_literal phrase cs t :
  sameLetters cs (js phrase) -> goes (lit_i phrase) (cs ++ t) t.
Proof. intros S pv cp. now apply run_literal_in. Qed.

Lemma goes_chr (p : N -> bool) c t :
  p c = true -> goes (Chr p) (c :: t) t.
Proof. intros P pv cp. exists (Some c). cbn. rewrite P. now left. Qed.

Lemma goes_skip a s : goes (Opt a) s s.
Proof. intros pv cp. exists pv. apply in_run_opt. now right. Qed.

Lemma goes_take a s t : goes a s t -> goes (Opt a) s t.
Proof.
  intros H pv cp. destruct (H pv cp) as [q Hq]. exists q.
  apply in_run_opt. now left.
Qed.

Lemma goes_star p gap t :
  forallb p gap = true -> goes (Star (Chr p)) (gap ++ t) t.
Proof.
  intros G pv cp. cbn [run rest]. apply star_loop_in; [exact G | lia].
Qed.

Lemma goes_test l text t :
  goes (seq_of l) text t -> test (seq_of (Bos :: l)) text = true.
Proof.
  intros H. apply test_anchored. destruct (H None []) as [q Hq]. eauto.
Qed.

Lemma sameLetters_app a b c d :
  sameLetters a c -> sameLetters b d -> sameLetters (a ++ b) (c ++ d).
Proof. unfold sameLetters. intros H1 H2. now rewrite !map_app, H1, H2. Qed.

Lemma sameLetters_split s a b :
  sameLetters s (a ++ b) ->
  exists s1 s2, s = s1 ++ s2 /\ sameLetters s1 a /\ sameLetters s2 b.
Proof.
  unfold sameLetters. rewrite map_app. intros H.
  apply map_eq_app in H. destruct H as (s1 & s2 & E & H1 & H2). eauto.
Qed.

Lemma sameLetters_one s c :
  sameLetters s [c] <-> exists x, s = [x] /\ Canonicalize x = Canonicalize c.
Proof.
  unfold sameLetters. split.
  - destruct s as [|x [|y s]]; try discriminate. cbn. intros H.
    inversion H. eauto.
  - intros (x & -> & H). cbn. now rewrite H.
Qed.

Lemma tail_letters tail :
  Exists (sameLetters tail) cueTails
  <-> exists b x y,
      tail = b ++ [x; y] /\ sameLetters b (js "id")
      /\ existsb (fun c => (Canonicalize x =? Canonicalize c)%N) (js "ée")
         = true
      /\ (Canonicalize y =? Canonicalize 0x65)%N = true.
Proof.
  assert (E1 : js "idée" = js "id" ++ [0xE9; 0x65]%N) by (vm_compute; reflexivity).
  assert (E2 : js "idee" = js "id" ++ [0x65; 0x65]%N) by (vm_compute; reflexivity).
  assert (E3 : js "ée" = [0xE9; 0x65]%N) by (vm_compute; reflexivity).
  unfold cueTails. rewrite E1, E2, E3. cbn [existsb]. split.
  - intros H. apply Exists_cons in H. destruct H as [H|H];
      [|apply Exists_cons in H; destruct H as [H|H]; [|inversion H]];
      apply sameLetters_split in H; destruct H as (b & r & -> & Hb & Hr);
      change [?u; ?v] with ([u] ++ [v]) in Hr;
      apply sameLetters_split in Hr; destruct Hr as (r1 & r2 & -> & H1 & H2);
      apply sameLetters_one in H1, H2;
      destruct H1 as (x & -> & Hx); destruct H2 as (y & -> & Hy);
      exists b, x, y; rewrite Hx, Hy; repeat split; try exact Hb;
      vm_compute; reflexivity.
  - intros (b & x & y & -> & Hb & Hx & Hy).
    apply N.eqb_eq in Hy. rewrite orb_false_r in Hx.
    apply orb_prop in Hx. destruct Hx as [Hx|Hx]; apply N.eqb_eq in Hx.
    + apply Exists_cons_hd. apply sameLetters_app; [exact Hb|].
      unfold sameLetters. cbn. now rewrite Hx, Hy.
    + apply Exists_cons_tl, Exists_cons_hd.
      apply sameLetters_app; [exact Hb|].
      unfold sameLetters. cbn. now rewrite Hx, Hy.
Qed.

Lemma frenchCue_accepts stem letter text :
  test (frenchCue stem letter) text = true
  <-> exists head gap tail rest,
      text = head ++ gap ++ tail ++ rest
      /\ forallb isWhiteSpace gap = true
      /\ (sameLetters head (js stem ++ [letter])
          \/ sameLetters head (js stem))
      /\ Exists (sameLetters tail) cueTails.
Proof.
  unfold frenchCue. split.
  - intros H. apply test_anchored in H. destruct H as (st6 & H).
    apply in_run_seq_of in H. destruct H as (st1 & H1 & H).
    apply in_run_seq_of in H. destruct H as (st2 & H2 & H).
    apply in_run_seq_of in H. destruct H as (st3 & H3 & H).
    apply in_run_seq_of in H. destruct H as (st4 & H4 & H).
    apply in_run_seq_of in H. destruct H as (st5 & H5 & H6).
    cbn [seq_of] in H6.
    apply in_run_literal in H1. destruct H1 as (a & R1 & Sa & _).
    apply in_run_opt in H2.
    cbn [run] in H3. apply in_star_loop in H3.
    destruct H3 as (gap & R3 & G & _).
    apply in_run_literal in H4. destruct H4 as (b & R4 & Sb & _).
    apply in_run_chr in H5. destruct H5 as (x & R5 & Px & _).
    apply in_run_chr in H6. destruct H6 as (y & R6 & Py & _).
    cbn [rest] in R1.
    assert (T : Exists (sameLetters (b ++ [x; y])) cueTails).
    { apply tail_letters. exists b, x, y. repeat split; assumption. }
    destruct H2 as [H2| ->].
    + apply in_run_chr in H2. destruct H2 as (o & R2 & Po & _).
      exists (a ++ [o]), gap, (b ++ [x; y]), (rest st6).
      split; [|split; [exact G|split; [|exact T]]].
      * rewrite R1, R2, R3, R4, R5, R6. rewrite <- !app_assoc. reflexivity.
      * left. apply sameLetters_app; [exact Sa|].
        apply sameLetters_one. exists o. split; [reflexivity|].
        now apply N.eqb_eq.
    + exists a, gap, (b ++ [x; y]), (rest st6).
      split; [|split; [exact G|split; [|exact T]]].
      * rewrite R1, R3, R4, R5, R6. rewrite <- !app_assoc. reflexivity.
      * right. exact Sa.
  - intros (head & gap & tail & rest & -> & G & Hh & Ht).
    apply tail_letters in Ht. destruct Ht as (b & x & y & -> & Sb & Px & Py).
    apply goes_test with (t := rest).
    destruct Hh as [Hh|Hh].
    + apply sameLetters_split in Hh. destruct Hh as (a & o & -> & Sa & So).
      apply sameLetters_one in So. destruct So as (c & -> & Hc).
      rewrite <- !app_assoc.
      apply goes_cons with (t := [c] ++ gap ++ b ++ [x; y] ++ rest);
        [now apply goes_literal|].
      apply goes_cons with (t := gap ++ b ++ [x; y] ++ rest);
        [apply goes_take, goes_chr; now apply N.eqb_eq|].
      apply goes_cons with (t := b ++ [x; y] ++ rest);
        [now apply goes_star|].
      apply goes_cons with (t := [x; y] ++ rest); [now apply goes_literal|].
      apply goes_cons with (t := [y] ++ rest); [now apply goes_chr|].
      apply goes_cons with (t := rest); [now apply goes_chr|].
      apply goes_nil.
    + rewrite <- !app_assoc.
      apply goes_cons with (t := gap ++ b ++ [x; y] ++ rest);
        [now apply goes_literal|].
      apply goes_cons with (t := gap ++ b ++ [x; y] ++ rest);
        [apply goes_skip|].
      apply goes_cons with (t := b ++ [x; y] ++ rest);
        [now apply goes_star|].
      apply goes_cons with (t := [x; y] ++ rest); [now apply goes_literal|].
      apply goes_cons with (t := [y] ++ rest); [now apply goes_chr|].
      apply goes_cons with (t := rest); [now apply goes_chr|].
      apply goes_nil.
Qed.

Lemma englishCue_accepts text :
  test (seq_of [Bos; lit_i "new"; Star ws; lit_i "idea"]) text = true
  <-> exists head gap tail rest,
      text = head ++ gap ++ tail ++ rest
      /\ forallb isWhiteSpace gap = true
      /\ sameLetters head (js "new") /\ sameLetters tail (js "idea").
Proof.
  split.
  - intros H. apply test_anchored in H. destruct H as (st3 & H).
    apply in_run_seq_of in H. destruct H as (st1 & H1 & H).
    apply in_run_seq_of in H. destruct H as (st2 & H2 & H3).
    cbn [seq_of] in H3.
    apply in_run_literal in H1. destruct H1 as (a & R1 & Sa & _).
    cbn [run] in H2. apply in_star_loop in H2.
    destruct H2 as (gap & R2 & G & _).
    apply in_run_literal in H3. destruct H3 as (b & R3 & Sb & _).
    cbn [rest] in R1.
    exists a, gap, b, (rest st3). repeat split; try assumption.
    rewrite R1, R2, R3. reflexivity.
  - intros (head & gap & tail & rest & -> & G & Sh & St).
    apply goes_test with (t := rest).
    apply goes_cons with (t := gap ++ tail ++ rest);
      [now apply goes_literal|].
    apply goes_cons with (t := tail ++ rest); [now apply goes_star|].
    apply goes_cons with (t := rest); [now apply goes_literal|].
    apply goes_nil.
Qed.

(** The three patterns together accept the texts that begin with one of
    the phrases. *)
Lemma cue_patterns_accept text :
  matchesNewIdeaCue text = true <-> beginsWithCue text.
Proof.
  unfold matchesNewIdeaCue, newIdeaPatterns. cbn [existsb].
  change (seq_of [Bos; lit_i "nouvell"; Opt (chr_i 101); Star ws; lit_i "id";
                  class_i (js "ée"); chr_i 101])
    with (frenchCue "nouvell" 0x65).
  change (seq_of [Bos; lit_i "nouve"; Opt (chr_i 108); Star ws; lit_i "id";
                  class_i (js "ée"); chr_i 101])
    with (frenchCue "nouve" 0x6C).
  rewrite orb_false_r, !orb_true_iff.
  rewrite !frenchCue_accepts, englishCue_accepts.
  assert (E1 : js "nouvell" ++ [0x65]%N = js "nouvelle") by (vm_compute; reflexivity).
  assert (E2 : js "nouve" ++ [0x6C]%N = js "nouvel") by (vm_compute; reflexivity).
  rewrite E1, E2. unfold beginsWithCue, cueHeads. split.
  - intros [(h & g & t & r & E & G & Hh & Ht)
           |[(h & g & t & r & E & G & Hh & Ht)
            |(h & g & t & r & E & G & Hh & Ht)]];
      exists h, g, t, r; (split; [exact E|split; [exact G|]]).
    + left. split; [|exact Ht]. destruct Hh as [Hh|Hh].
      * now apply Exists_cons_hd.
      * now apply Exists_cons_tl, Exists_cons_hd.
    + right. split; assumption.
    + left. split; [|exact Ht]. destruct Hh as [Hh|Hh].
      * now apply Exists_cons_tl, Exists_cons_tl, Exists_cons_hd.
      * now apply Exists_cons_tl, Exists_cons_tl, Exists_cons_tl,
                  Exists_cons_hd.
  - intros (h & g & t & r & E & G & [[Hh Ht]|[Hh Ht]]).
    + apply Exists_cons in Hh. destruct Hh as [Hh|Hh];
        [left; exists h, g, t, r; auto 6|].
      apply Exists_cons in Hh. destruct Hh as [Hh|Hh];
        [left; exists h, g, t, r; auto 6|].
      apply Exists_cons in Hh. destruct Hh as [Hh|Hh];
        [right; right; exists h, g, t, r; auto 6|].
      apply Exists_cons in Hh. destruct Hh as [Hh|Hh];
        [right; right; exists h, g, t, r; auto 6|].
      inversion Hh.
    + right. left. exists h, g, t, r. auto.
Qed.

(* ================================================================== *)
(** ** The matcher on the two separators *)
(* ================================================================== *)

Lemma star_loop_head (p : N -> bool) (step : mstate -> list mstate) :
  (forall st, step st = run (Chr p) st) ->
  forall fuel s pv cp,
    length s < fuel ->
    exists q, hd_error (star_loop step fuel (MState pv s cp))
              = Some (MState q (dropWhile p s) cp).
Proof.
  intros Hstep.
  induction fuel as [|n IH]; intros s pv cp Hlen; [lia|].
  cbn [star_loop]. rewrite Hstep.
  destruct s as [|c t]; cbn [run rest caps dropWhile].
  - now exists pv.
  - destruct (p c) eqn:Hc.
    + cbn [flat_map rest]. rewrite app_nil_r.
      replace (length t <? length (c :: t)) with true
        by (symmetry; apply Nat.ltb_lt; simpl; lia).
      destruct (IH t (Some c) cp) as [q Hq]; [simpl in Hlen; lia|].
      exists q.
      destruct (star_loop step n (MState (Some c) t cp));
        [discriminate | exact Hq].
    + now exists pv.
Qed.

Lemma match_at_wordSeparator pv s :
  match s with
  | c :: t =>
    if isWhiteSpace c
    then exists q, match_at wordSeparator pv s
                   = Some (MState q (dropWhile isWhiteSpace t) [])
    else match_at wordSeparator pv s = None
  | [] => match_at wordSeparator pv s = None
  end.
Proof.
  destruct s as [|c t]; [reflexivity|].
  unfold match_at, wordSeparator, Plus, ws.
  cbn [run rest caps].
  destruct (isWhiteSpace c) eqn:Hc; [|reflexivity].
  cbn [flat_map]. rewrite app_nil_r. cbn [run rest].
  destruct (@star_loop_head isWhiteSpace (run (Chr isWhiteSpace))
              (fun _ => eq_refl) (S (length t)) t (Some c) [])
    as [q Hq]; [lia|].
  exists q. exact Hq.
Qed.

Lemma match_at_clauseSeparator pv s :
  match_at clauseSeparator pv s =
  match s with
  | c :: t => if isClauseEnd c then Some (MState (Some c) t []) else None
  | [] => None
  end.
Proof.
  destruct s as [|c t]; [reflexivity|].
  unfold match_at, clauseSeparator, class, isClauseEnd.
  cbn [run rest caps].
  destruct (existsb (N.eqb c) (js ".,!?;:" ++ [LF])); reflexivity.
Qed.

(* ================================================================== *)
(** ** split on the two separators *)
(* ================================================================== *)

Lemma split_loop_clause :
  forall tail fuel pv chunk,
    length tail < fuel ->
    hd [] (split_loop fuel clauseSeparator pv chunk tail)
    = chunk ++ leadingClause tail.
Proof.
  induction tail as [|c t IH]; intros fuel pv chunk Hf;
    (destruct fuel as [|n]; [simpl in Hf; lia|]).
  - simpl. now rewrite app_nil_r.
  - cbn [split_loop]. rewrite match_at_clauseSeparator.
    unfold leadingClause. cbn [takeWhile].
    destruct (isClauseEnd c) eqn:Hc; cbn [negb].
    + cbn [rest]. replace (length t =? length (c :: t)) with false.
      * simpl. now rewrite app_nil_r.
      * symmetry. apply Nat.eqb_neq. simpl. lia.
    + rewrite IH by (simpl in Hf; lia).
      unfold leadingClause. now rewrite <- app_assoc.
Qed.

Lemma split_clause_head text :
  hd [] (split clauseSeparator text) = leadingClause text.
Proof.
  unfold split. destruct text as [|c t]; [reflexivity|].
  rewrite split_loop_clause; [reflexivity | simpl; lia].
Qed.

Lemma split_loop_words :
  forall n tail fuel pv chunk,
    length tail <= n ->
    length tail < fuel ->
    cleanEnd tail ->
    (chunk <> [] \/ exists c t, tail = c :: t /\ isWhiteSpace c = false) ->
    split_loop fuel wordSeparator pv chunk tail = words_from chunk tail.
Proof.
  induction n as [|n IH]; intros tail fuel pv chunk Hn Hf Hclean Hstart.
  - destruct tail; [|simpl in Hn; lia].
    destruct fuel; [simpl in Hf; lia|]. simpl.
    destruct Hstart as [H|(c & t & H & _)]; [|discriminate].
    destruct chunk; [congruence | reflexivity].
  - destruct fuel as [|f]; [lia|].
    destruct tail as [|c t].
    + simpl. destruct Hstart as [H|(c & t & H & _)]; [|discriminate].
      destruct chunk; [congruence | reflexivity].
    + cbn [split_loop words_from].
      pose proof (match_at_wordSeparator pv (c :: t)) as Hm. cbn beta iota in Hm.
      destruct (isWhiteSpace c) eqn:Hc.
      * destruct Hm as [q Hq]. rewrite Hq. cbn [rest prev].
        assert (Hchunk : chunk <> []).
        { destruct Hstart as [H|(c' & t' & H & Hw)]; [exact H|].
          injection H as <- <-. congruence. }
        assert (Ht : t <> []).
        { intros ->. destruct Hclean as [H|H]; [discriminate|].
          simpl in H. congruence. }
        pose proof (cleanEnd_tail c t Ht Hclean) as Hct.
        pose proof (cleanEnd_dropWhile t Ht Hct) as Hd.
        pose proof (dropWhile_length _ isWhiteSpace t) as Hlen.
        replace (length (dropWhile isWhiteSpace t) =? length (c :: t))
          with false by (symmetry; apply Nat.eqb_neq; simpl; lia).
        cbn [andb].
        destruct chunk as [|c0 chunk0]; [congruence|].
        f_equal. rewrite <- words_dropWhile.
        apply IH.
        -- simpl in Hn. lia.
        -- simpl in Hf. lia.
        -- apply (cleanEnd_suffix (takeWhile isWhiteSpace t)); [exact Hd|].
           now rewrite takeWhile_dropWhile.
        -- right. destruct (dropWhile isWhiteSpace t) as [|x r] eqn:E;
             [congruence|].
           exists x, r. split; [reflexivity|]. eapply dropWhile_head; eassumption.
      * rewrite Hm.
        destruct t as [|c1 t1].
        -- destruct f; simpl; [simpl in Hf; lia|].
           destruct (chunk ++ [c]) eqn:E; [|reflexivity].
           destruct chunk; discriminate.
        -- apply IH.
           ++ simpl in *. lia.
           ++ simpl in *. lia.
           ++ apply (cleanEnd_tail c); [discriminate | exact Hclean].
           ++ left. destruct chunk; discriminate.
Qed.

Lemma split_words_trimmed (s : jsstring) :
  join (js " ") (firstn 3 (split wordSeparator (trim s)))
  = join (js " ") (firstn 3 (words s)).
Proof.
  rewrite <- (words_trim s).
  destruct (trim s) as [|c t] eqn:E; [reflexivity|].
  unfold split, words. rewrite <- E at 1 2.
  rewrite E.
  rewrite (split_loop_words (length (c :: t))); try reflexivity.
  - lia.
  - rewrite <- E. apply trim_clean.
  - right. exists c, t. split; [reflexivity|]. eapply trim_head; eassumption.
Qed.

(* ================================================================== *)
(** ** KeywordExtractor *)
(* ================================================================== *)



(** C6, as the code has it.  When the normalized transcript matches one
    of the new-idea cue patterns, the result has isNewIdea true and the
    sentinel keyword "nouvelle idée". *)
Theorem C6_cue_gives_sentinel :
  forall (toLowerCase : jsstring -> jsstring) (transcript : jsstring),
    matchesNewIdeaCue (toLowerCase (trim transcript)) = true ->
    extractFirstKeyword toLowerCase transcript
    = mkKeyword (js "nouvelle idée") true.
Proof.
  intros lc transcript Hcue. unfold extractFirstKeyword.
  fold (matchesNewIdeaCue (lc (trim transcript))). now rewrite Hcue.
Qed.

Lemma C6_witness :
  matchesNewIdeaCue
    (toLowerCase_latin1 (trim (js "Nouvelle idée, je voudrais...")))
  = true
  /\ extractFirstKeyword toLowerCase_latin1
       (js "Nouvelle idée, je voudrais...")
     = mkKeyword (js "nouvelle idée") true.
Proof.
  split; [vm_compute; reflexivity|].
  apply C6_cue_gives_sentinel. vm_compute. reflexivity.
Defined.

(** The transcript "new idea" matches a cue pattern and its keyword is
    not "new idea". *)
Lemma C6_counterexample :
  matchesNewIdeaCue (toLowerCase_latin1 (trim (js "new idea"))) = true
  /\ extractFirstKeyword toLowerCase_latin1 (js "new idea")
     <> mkKeyword (js "new idea") true.
Proof.
  split; [vm_compute; reflexivity|].
  vm_compute. discriminate.
Qed.

(* ================================================================== *)
(** ** JSON.parse has fuel enough *)
(* ================================================================== *)

Module JSONFacts.
Import JSON.

Lemma skip_ws_length s : length (skip_ws s) <= length s.
Proof. apply dropWhile_length. Qed.

Lemma cons_fst_some c r x t :
  cons_fst c r = Some (x, t) -> exists y, r = Some (y, t).
Proof.
  destruct r as [[y t']|]; simpl; [|discriminate].
  intros H. injection H as _ <-. now exists y.
Qed.

Lemma parse_chars_length s : forall x r,
  parse_chars s = Some (x, r) -> length r < length s.
Proof.
  induction s as [s IH] using (well_founded_induction
                                (Wf_nat.well_founded_ltof _ (@length N))).
  unfold Wf_nat.ltof in IH.
  intros x r. destruct s as [|c t]; [discriminate|].
  cbn [parse_chars].
  destruct (c =? 34)%N.
  { intros H. injection H as _ <-. simpl. lia. }
  destruct (c =? 92)%N.
  - destruct t as [|e t1]; [discriminate|].
    destruct (simple_escape e).
    + intros H. apply cons_fst_some in H as [y H].
      apply IH in H; simpl in *; lia.
    + destruct (e =? 117)%N; [|discriminate].
      destruct t1 as [|h1 [|h2 [|h3 [|h4 t2]]]]; try discriminate.
      destruct (hex_digit h1), (hex_digit h2), (hex_digit h3), (hex_digit h4);
        try discriminate.
      intros H. apply cons_fst_some in H as [y H].
      apply IH in H; simpl in *; lia.
  - destruct (c <? 32)%N; [discriminate|].
    intros H. apply cons_fst_some in H as [y H].
    apply IH in H; simpl in *; lia.
Qed.

Lemma starts_with_length p : forall s r,
  starts_with p s = Some r -> length r + length p = length s.
Proof.
  induction p as [|a p IH]; intros s r; simpl.
  - intros H. injection H as <-. lia.
  - destruct s as [|b s]; [discriminate|].
    destruct (a =? b)%N; [|discriminate].
    intros H. apply IH in H. simpl. lia.
Qed.

Lemma parse_number_length s x r :
  parse_number s = Some (x, r) -> length r < length s.
Proof.
  unfold parse_number.
  set (sgn := match s with 45%N :: t => (true, t) | _ => (false, s) end).
  assert (Hs : length (snd sgn) <= length s).
  { subst sgn. destruct s as [|c t]; [simpl; lia|].
    destruct c as [|p]; [simpl; lia|].
    do 6 (destruct p; try (simpl; lia)). }
  destruct sgn as [neg s1]. cbn [snd] in Hs.
  destruct s1 as [|c t]; [discriminate|].
  destruct (is_digit c) eqn:Hd; cbn [negb]; [|discriminate].
  set (ip := if (c =? 48)%N then ([0%N], t)
             else (digits_of (c :: t), dropWhile is_digit (c :: t))).
  assert (H2 : length (snd ip) <= length t).
  { subst ip. destruct (c =? 48)%N; cbn [snd]; [lia|].
    cbn [dropWhile]. rewrite Hd. apply dropWhile_length. }
  destruct ip as [ipd s2]. cbn [snd] in H2.
  set (frac := match s2 with
               | 46%N :: t2 =>
                 match digits_of t2 with
                 | [] => None
                 | ds => Some (ds, dropWhile is_digit t2)
                 end
               | _ => Some ([], s2)
               end).
  assert (H3 : forall fp s3, frac = Some (fp, s3) -> length s3 <= length s2).
  { subst frac. intros fp s3.
    assert (Hdef : Some (@nil N, s2) = Some (fp, s3)
                   -> length s3 <= length s2)
      by (intros H; injection H as _ <-; lia).
    destruct s2 as [|d t2]; [exact Hdef|].
    destruct d as [|p]; [exact Hdef|].
    do 6 (destruct p; try exact Hdef).
    destruct (digits_of t2); [discriminate|].
    intros H. injection H as _ <-.
    pose proof (dropWhile_length _ is_digit t2). simpl. lia. }
  destruct frac as [[fp s3]|]; [|discriminate].
  specialize (H3 fp s3 eq_refl).
  destruct (match s3 with
            | x0 :: _ => ((x0 =? 101) || (x0 =? 69))%N
            | [] => false
            end).
  - set (e := match tl s3 with
              | 45%N :: t4 => (true, t4)
              | 43%N :: t4 => (false, t4)
              | t4 => (false, t4)
              end).
    assert (H4 : length (snd e) <= length s3).
    { subst e. destruct s3 as [|y t3]; [simpl; lia|]. cbn [tl].
      destruct t3 as [|z t4]; [simpl; lia|].
      destruct z as [|p]; [simpl; lia|].
      do 6 (destruct p; try (simpl; lia)). }
    destruct e as [eneg s4]. cbn [snd] in H4.
    destruct (digits_of s4); [discriminate|].
    intros H. injection H as _ <-.
    pose proof (dropWhile_length _ is_digit s4). simpl in *. lia.
  - intros H. injection H as _ <-. simpl in *. lia.
Qed.

Lemma expect_length c s r : expect c s = Some r -> length r < length s.
Proof.
  unfold expect. pose proof (skip_ws_length s) as H.
  destruct (skip_ws s) as [|d t]; [discriminate|].
  destruct (d =? c)%N; [|discriminate].
  intros E. injection E as <-. simpl in H. lia.
Qed.

(** Every parser consumes at least one code unit. *)
Lemma parse_consumes n :
  (forall s v r, parse_value n s = Some (v, r) -> length r < length s)
  /\ (forall s vs r, parse_elements n s = Some (vs, r) -> length r < length s)
  /\ (forall s ms r, parse_members n s = Some (ms, r) -> length r < length s).
Proof.
  induction n as [|n (IHv & IHe & IHm)];
    [repeat split; intros; discriminate|].
  repeat split.
  - intros s v r. cbn [parse_value].
    pose proof (skip_ws_length s) as Hs.
    destruct (skip_ws s) as [|c t]; [discriminate|]. simpl in Hs.
    destruct (c =? 123)%N.
    { destruct (expect 125 t) as [t1|] eqn:E.
      - intros H. injection H as _ <-. apply expect_length in E. lia.
      - destruct (parse_members n t) as [[ms t1]|] eqn:P; [|discriminate].
        intros H. injection H as _ <-. apply IHm in P. lia. }
    destruct (c =? 91)%N.
    { destruct (expect 93 t) as [t1|] eqn:E.
      - intros H. injection H as _ <-. apply expect_length in E. lia.
      - destruct (parse_elements n t) as [[vs t1]|] eqn:P; [|discriminate].
        intros H. injection H as _ <-. apply IHe in P. lia. }
    destruct (c =? 34)%N.
    { destruct (parse_chars t) as [[str t1]|] eqn:P; [|discriminate].
      intros H. injection H as _ <-. apply parse_chars_length in P. lia. }
    destruct (c =? 116)%N.
    { destruct (starts_with (js "true") (c :: t)) as [r0|] eqn:P;
        [|discriminate].
      cbn [option_map]. intros H. injection H as _ <-.
      apply starts_with_length in P. unfold js in P. simpl in P. lia. }
    destruct (c =? 102)%N.
    { destruct (starts_with (js "false") (c :: t)) as [r0|] eqn:P;
        [|discriminate].
      cbn [option_map]. intros H. injection H as _ <-.
      apply starts_with_length in P. unfold js in P. simpl in P. lia. }
    destruct (c =? 110)%N.
    { destruct (starts_with (js "null") (c :: t)) as [r0|] eqn:P;
        [|discriminate].
      cbn [option_map]. intros H. injection H as _ <-.
      apply starts_with_length in P. unfold js in P. simpl in P. lia. }
    destruct (parse_number (c :: t)) as [[x t1]|] eqn:P; [|discriminate].
    intros H. injection H as _ <-. apply parse_number_length in P.
    simpl in P. lia.
  - intros s vs r. cbn [parse_elements].
    destruct (parse_value n s) as [[v s1]|] eqn:P; [|discriminate].
    apply IHv in P.
    destruct (expect 44 s1) as [s2|] eqn:E.
    + apply expect_length in E.
      destruct (parse_elements n s2) as [[vs' s3]|] eqn:Q; [|discriminate].
      intros H. injection H as _ <-. apply IHe in Q. lia.
    + destruct (expect 93 s1) as [s2|] eqn:E'; [|discriminate].
      intros H. injection H as _ <-. apply expect_length in E'. lia.
  - intros s ms r. cbn [parse_members].
    destruct (expect 34 s) as [s0|] eqn:E0; [|discriminate].
    apply expect_length in E0.
    destruct (parse_chars s0) as [[k s1]|] eqn:P; [|discriminate].
    apply parse_chars_length in P.
    destruct (expect 58 s1) as [s2|] eqn:E1; [|discriminate].
    apply expect_length in E1.
    destruct (parse_value n s2) as [[v s3]|] eqn:Q; [|discriminate].
    apply IHv in Q.
    destruct (expect 44 s3) as [s4|] eqn:E2.
    + apply expect_length in E2.
      destruct (parse_members n s4) as [[ms' s5]|] eqn:R; [|discriminate].
      intros H. injection H as _ <-. apply IHm in R. lia.
    + destruct (expect 125 s3) as [s4|] eqn:E3; [|discriminate].
      intros H. injection H as _ <-. apply expect_length in E3. lia.
Qed.

(** From a fuel of twice the length of the text on, more fuel changes
    nothing. *)
Lemma parse_stable n :
  (forall s m, 2 * length s + 1 <= n -> n <= m ->
               parse_value m s = parse_value n s)
  /\ (forall s m, 2 * length s + 2 <= n -> n <= m ->
                  parse_elements m s = parse_elements n s)
  /\ (forall s m, 2 * length s + 2 <= n -> n <= m ->
                  parse_members m s = parse_members n s).
Proof.
  induction n as [|n (IHv & IHe & IHm)];
    [repeat split; intros; lia|].
  destruct (parse_consumes n) as (Cv & Ce & Cm).
  repeat split.
  - intros s [|m] Hn Hm; [lia|]. cbn [parse_value].
    pose proof (skip_ws_length s) as Hs.
    destruct (skip_ws s) as [|c t]; [reflexivity|]. simpl in Hs.
    destruct (c =? 123)%N.
    { destruct (expect 125 t); [reflexivity|].
      rewrite (IHm t m) by lia. reflexivity. }
    destruct (c =? 91)%N.
    { destruct (expect 93 t); [reflexivity|].
      rewrite (IHe t m) by lia. reflexivity. }
    reflexivity.
  - intros s [|m] Hn Hm; [lia|]. cbn [parse_elements].
    rewrite (IHv s m) by lia.
    destruct (parse_value n s) as [[v s1]|] eqn:P; [|reflexivity].
    apply Cv in P.
    destruct (expect 44 s1) as [s2|] eqn:E; [|reflexivity].
    apply expect_length in E.
    rewrite (IHe s2 m) by lia. reflexivity.
  - intros s [|m] Hn Hm; [lia|]. cbn [parse_members].
    destruct (expect 34 s) as [s0|] eqn:E0; [|reflexivity].
    apply expect_length in E0.
    destruct (parse_chars s0) as [[k s1]|] eqn:P; [|reflexivity].
    apply parse_chars_length in P.
    destruct (expect 58 s1) as [s2|] eqn:E1; [|reflexivity].
    apply expect_length in E1.
    rewrite (IHv s2 m) by lia.
    destruct (parse_value n s2) as [[v s3]|] eqn:Q; [|reflexivity].
    apply Cv in Q.
    destruct (expect 44 s3) as [s4|] eqn:E2; [|reflexivity].
    apply expect_length in E2.
    rewrite (IHm s4 m) by lia. reflexivity.
Qed.

(** The fuel of [JSON.parse] is enough: with any larger fuel the answer
    is the same. *)
Lemma parse_fuel_enough text fuel :
  2 * length text + 3 <= fuel -> parse_with fuel text = parse text.
Proof.
  intros H. unfold parse, parse_with.
  destruct (parse_stable (2 * length text + 3)) as (Hv & _).
  rewrite (Hv text fuel) by lia. reflexivity.
Qed.

End JSONFacts.

(* ================================================================== *)
(** ** The query builder *)
(* ================================================================== *)

Section QueryFacts.
Variable A : Type.
Variable key : A -> nat.

Lemma insert_desc_perm x (l : list A) :
  Permutation (Query.insert_desc key x l) (x :: l).
Proof.
  induction l as [|y l IH]; simpl; [reflexivity|].
  destruct (key x <? key y); [|reflexivity].
  rewrite IH. apply perm_swap.
Qed.

Lemma orderBy_desc_perm (l : list A) :
  Permutation (Query.orderBy_desc key l) l.
Proof.
  induction l as [|x l IH]; simpl; [reflexivity|].
  rewrite insert_desc_perm. now constructor.
Qed.

Lemma orderBy_desc_in (l : list A) x :
  In x (Query.orderBy_desc key l) <-> In x l.
Proof.
  split; apply Permutation_in;
    [apply orderBy_desc_perm | symmetry; apply orderBy_desc_perm].
Qed.

Lemma orderBy_desc_nil (l : list A) :
  Query.orderBy_desc key l = [] -> l = [].
Proof.
  intros H. apply Permutation_nil. rewrite <- H.
  apply orderBy_desc_perm.
Qed.

Lemma filter_perm_length (p : A -> bool) (l l' : list A) :
  Permutation l l' -> length (filter p l) = length (filter p l').
Proof.
  induction 1; simpl; try congruence.
  - destruct (p x); simpl; congruence.
  - destruct (p x), (p y); reflexivity.
Qed.

Lemma filter_filter (p q : A -> bool) (l : list A) :
  filter p (filter q l) = filter (fun x => q x && p x) l.
Proof.
  induction l as [|x l IH]; simpl; [reflexivity|].
  destruct (q x); simpl; [destruct (p x)|]; now rewrite IH.
Qed.

Lemma first_limit_where (p : A -> bool) (l : list A) :
  Query.first (Query.limit 1 (Query.where_ p l)) = find p l.
Proof.
  unfold Query.first, Query.limit, Query.where_.
  now rewrite hd_error_firstn_1, hd_error_filter.
Qed.

Lemma first_limit (l : list A) :
  Query.first (Query.limit 1 l) = hd_error l.
Proof. apply hd_error_firstn_1. Qed.

Lemma delete_none (p : A -> bool) (l : list A) :
  find p l = None -> Query.delete p l = l.
Proof.
  intros H. unfold Query.delete. apply filter_all. intros x Hx.
  destruct (p x) eqn:E; [|reflexivity].
  now rewrite (find_none _ _ H x Hx) in E.
Qed.

End QueryFacts.

(** Looking a row up by its identifier after an UPDATE. *)
Lemma find_update (A : Type) (id : A -> nat) (c : A -> bool) (f : A -> A)
      (i : nat) (l : list A) :
  (forall r, id (f r) = id r) ->
  find (fun r => id r =? i) (Query.update c f l)
  = option_map (fun r => if c r then f r else r)
               (find (fun r => id r =? i) l).
Proof.
  intros Hid. unfold Query.update.
  induction l as [|x l IH]; simpl; [reflexivity|].
  assert (E : id (if c x then f x else x) = id x)
    by (destruct (c x); [apply Hid | reflexivity]).
  rewrite E. destruct (id x =? i); [reflexivity | exact IH].
Qed.

Lemma find_unique (A : Type) (id : A -> nat) (l : list A) (x : A) :
  NoDup (map id l) -> In x l -> find (fun r => id r =? id x) l = Some x.
Proof.
  induction l as [|y l IH]; simpl; intros Hnd Hin; [contradiction|].
  inversion Hnd as [|? ? Hy Hl]; subst.
  destruct Hin as [->|Hin]; [now rewrite Nat.eqb_refl|].
  destruct (id y =? id x) eqn:E; [|now apply IH].
  apply Nat.eqb_eq in E. exfalso. apply Hy. rewrite E. now apply in_map.
Qed.

(* ================================================================== *)
(** ** db.ts on a connected database *)
(* ================================================================== *)

Section Connected.
Variables (t : Tables) (tr : list Call) (n : Date).
Let w := mkWorld (Some t) tr n.

Lemma getProjectById_run projectId userId :
  db.getProjectById projectId userId w
  = (inr (findProject projectId userId t), w).
Proof.
  unfold db.getProjectById, bind, db.getDb, db.query, ret; subst w; cbn [database trace now option_map].
  now rewrite first_limit_where.
Qed.

Lemma getVideoById_run videoId userId :
  db.getVideoById videoId userId w = (inr (findVideo videoId userId t), w).
Proof.
  unfold db.getVideoById, bind, db.getDb, db.query, ret; subst w; cbn [database trace now option_map].
  now rewrite first_limit_where.
Qed.

Lemma getVideosByProjectId_run projectId userId :
  db.getVideosByProjectId projectId userId w
  = (inr (Query.orderBy_desc Video.createdAt
            (filter (fun v => (Video.projectId v =? projectId)
                              && (Video.userId v =? userId))
                    (videos t))), w).
Proof. reflexivity. Qed.

Lemma getDocumentByProjectId_run projectId userId :
  db.getDocumentByProjectId projectId userId w
  = (inr (currentDocument projectId userId t), w).
Proof.
  unfold db.getDocumentByProjectId, bind, db.getDb, db.query, ret; subst w; cbn [database trace now option_map].
  now rewrite first_limit.
Qed.

Lemma updateDocument_run documentId userId data :
  db.updateDocument documentId userId data w
  = (inr (findDocument documentId
            (db.with_documents
               (Query.update (fun d => (Document.id d =? documentId)
                                       && (Document.userId d =? userId))
                             (db.set_document data n)) t)),
     mkWorld (Some (db.with_documents
               (Query.update (fun d => (Document.id d =? documentId)
                                       && (Document.userId d =? userId))
                             (db.set_document data n)) t)) tr n).
Proof.
  unfold db.updateDocument, bind, db.getDb, db.query, db.execute, new_Date,
    ret; subst w; cbn [database trace now option_map].
  now rewrite first_limit_where.
Qed.

Lemma createDocument_run doc :
  db.createDocument doc w
  = (inr (hd_error
            (Query.orderBy_desc Document.createdAt
               (filter (fun d => (Document.projectId d
                                  =? InsertDocument.projectId doc)
                                 && (Document.userId d
                                     =? InsertDocument.userId doc))
                       (documents (db.insert_document doc n t))))),
     mkWorld (Some (db.insert_document doc n t)) tr n).
Proof.
  unfold db.createDocument, bind, db.getDb, db.query, db.execute, new_Date,
    ret; subst w; cbn [database trace now option_map].
  now rewrite first_limit.
Qed.

Lemma deleteDocument_run documentId userId :
  db.deleteDocument documentId userId w
  = (inr true,
     mkWorld (Some (db.with_documents
               (Query.delete (fun d => (Document.id d =? documentId)
                                       && (Document.userId d =? userId))) t))
             tr n).
Proof. reflexivity. Qed.

End Connected.

Lemma connected (w : World) (t : Tables) :
  database w = Some t -> w = mkWorld (Some t) (trace w) (now w).
Proof. destruct w; simpl; now intros ->. Qed.

Lemma with_documents_id (t : Tables) :
  db.with_documents (fun l => l) t = t.
Proof. now destruct t. Qed.

(* ================================================================== *)
(** ** Document synthesis *)
(* ================================================================== *)

Lemma currentDocument_in projectId userId t d :
  currentDocument projectId userId t = Some d ->
  In d (documents t)
  /\ Document.projectId d = projectId /\ Document.userId d = userId.
Proof.
  unfold currentDocument. intros H.
  assert (Hin : In d (Query.orderBy_desc Document.version
                        (filter (fun d0 => (Document.projectId d0 =? projectId)
                                           && (Document.userId d0 =? userId))
                                (documents t)))).
  { destruct (Query.orderBy_desc _ _); [discriminate|].
    injection H as ->. now left. }
  apply orderBy_desc_in, filter_In in Hin as [Hin Hc].
  apply andb_prop in Hc as [H1 H2].
  apply Nat.eqb_eq in H1, H2. auto.
Qed.

Lemma currentDocument_none projectId userId t :
  currentDocument projectId userId t = None ->
  filter (fun d => (Document.projectId d =? projectId)
                   && (Document.userId d =? userId)) (documents t) = [].
Proof.
  unfold currentDocument. intros H. apply (orderBy_desc_nil _ Document.version).
  now destruct (Query.orderBy_desc _ _).
Qed.

Lemma findProject_in projectId userId t p :
  findProject projectId userId t = Some p ->
  In p (projects t) /\ Project.id p = projectId /\ Project.userId p = userId.
Proof.
  unfold findProject. intros H. apply find_some in H as [Hin Hc].
  apply andb_prop in Hc as [H1 H2]. apply Nat.eqb_eq in H1, H2. auto.
Qed.

(** The videos that a synthesis gathers are the transcribed videos of the
    project. *)
Lemma gathered_count t projectId userId p :
  consistent t ->
  findProject projectId userId t = Some p ->
  length (filter is_transcribed
            (Query.orderBy_desc Video.createdAt
               (filter (fun v => (Video.projectId v =? projectId)
                                 && (Video.userId v =? userId))
                       (videos t))))
  = length (transcribedIn projectId t).
Proof.
  intros Hc Hp. apply findProject_in in Hp as (Hin & Hid & Hu).
  rewrite (filter_perm_length _ _ _ _ (orderBy_desc_perm _ Video.createdAt _)).
  rewrite filter_filter. unfold transcribedIn. f_equal.
  apply filter_ext_in. intros v Hv.
  destruct (Video.projectId v =? projectId) eqn:E; [|reflexivity].
  apply Nat.eqb_eq in E.
  assert (Hvu : Video.userId v = userId).
  { rewrite <- Hu. apply (videos_follow_projects Hc v p Hv Hin). congruence. }
  rewrite Hvu, Nat.eqb_refl. reflexivity.
Qed.

Lemma gathered_none t projectId userId :
  transcribedIn projectId t = [] ->
  filter is_transcribed
    (Query.orderBy_desc Video.createdAt
       (filter (fun v => (Video.projectId v =? projectId)
                         && (Video.userId v =? userId))
               (videos t))) = [].
Proof.
  intros H. apply filter_none. intros v Hv.
  apply orderBy_desc_in, filter_In in Hv as [Hv Hc].
  apply andb_prop in Hc as [H1 _].
  destruct (is_transcribed v) eqn:E; [|reflexivity].
  assert (Hin : In v (transcribedIn projectId t)).
  { unfold transcribedIn. apply filter_In. split; [exact Hv|].
    now rewrite H1, E. }
  rewrite H in Hin. contradiction.
Qed.

(** C1.  A synthesis request for a project none of whose videos is
    transcribed with a non-empty transcript fails with the no-content
    error and leaves the world as it was: no call to a collaborator is
    made, in particular none to the generation collaborator. *)
Theorem C1_no_transcribed_video_no_content :
  forall E ctx projectId w t project,
    database w = Some t ->
    findProject projectId (uid ctx) t = Some project ->
    transcribedIn projectId t = [] ->
    fst (appRouter.documents.generate E ctx projectId w) = inl NoContentError
    /\ snd (appRouter.documents.generate E ctx projectId w) = w
    /\ filter is_generation_call
         (trace (snd (appRouter.documents.generate E ctx projectId w)))
       = filter is_generation_call (trace w).
Proof.
  intros E ctx projectId w t project Hdb Hp Hnone.
  assert (H : appRouter.documents.generate E ctx projectId w
              = (inl NoContentError, w)).
  { rewrite (connected w t Hdb) at 1.
    unfold appRouter.documents.generate.
    unfold bind at 1. rewrite getProjectById_run, Hp.
    unfold bind at 1. rewrite getVideosByProjectId_run.
    rewrite (gathered_none t projectId (uid ctx) Hnone). cbn [length Nat.eqb throw].
    now rewrite <- (connected w t Hdb). }
  rewrite H. auto.
Qed.

(* ================================================================== *)
(** ** Code that only talks to collaborators *)
(* ================================================================== *)

Lemma talks_only_ret (A : Type) (a : A) : talks_only (ret a).
Proof. intros w. now split. Qed.

Lemma talks_only_throw (A : Type) (e : exn) : talks_only (@throw A e).
Proof. intros w. now split. Qed.

Lemma talks_only_call (A : Type) (c : Call) (f : list Call -> exn + A) :
  talks_only (call c f).
Proof. intros w. now split. Qed.

Lemma talks_only_bind (A B : Type) (m : M A) (k : A -> M B) :
  talks_only m -> (forall a, talks_only (k a)) -> talks_only (bind m k).
Proof.
  intros Hm Hk w. unfold bind. specialize (Hm w).
  destruct (m w) as [[e|a] w1]; simpl in *; [exact Hm|].
  destruct (Hk a w1) as [H1 H2]. destruct Hm as [H3 H4].
  split; congruence.
Qed.

Lemma talks_only_try_catch (A : Type) (m : M A) (h : exn -> M A) :
  talks_only m -> (forall e, talks_only (h e)) -> talks_only (try_catch m h).
Proof.
  intros Hm Hh w. unfold try_catch. specialize (Hm w).
  destruct (m w) as [[e|a] w1]; simpl in *; [|exact Hm].
  destruct (Hh e w1) as [H1 H2]. destruct Hm as [H3 H4].
  split; congruence.
Qed.

Lemma talks_only_if (A : Type) (b : bool) (m1 m2 : M A) :
  talks_only m1 -> talks_only m2 -> talks_only (if b then m1 else m2).
Proof. now destruct b. Qed.

Ltac talks :=
  repeat first
    [ apply talks_only_ret
    | apply talks_only_throw
    | apply talks_only_call
    | apply talks_only_if
    | apply talks_only_try_catch; [|intros ?]
    | apply talks_only_bind; [|intros ?]
    | match goal with
      | |- talks_only (match ?x with _ => _ end) => destruct x
      end ].

Lemma generateProjectDocument_talks_only E input :
  talks_only (generateProjectDocument E input).
Proof. unfold generateProjectDocument, messages. talks. Qed.

Lemma generateThumbnailPrompt_talks_only E name content :
  talks_only (generateThumbnailPrompt E name content).
Proof. unfold generateThumbnailPrompt, messages. talks. Qed.

Lemma transcribeWithGemini_talks_only E url :
  talks_only (transcribeWithGemini E url).
Proof. unfold transcribeWithGemini. talks. Qed.

Lemma talks_only_world (A : Type) (m : M A) (t : Tables) tr n :
  talks_only m ->
  snd (m (mkWorld (Some t) tr n))
  = mkWorld (Some t) (trace (snd (m (mkWorld (Some t) tr n)))) n.
Proof.
  intros H. destruct (H (mkWorld (Some t) tr n)) as [H1 H2].
  destruct (snd (m (mkWorld (Some t) tr n))); simpl in *. congruence.
Qed.

(* ================================================================== *)
(** ** Versions *)
(* ================================================================== *)

Lemma findDocument_after_update t d documentId userId data at_ :
  consistent t ->
  In d (documents t) ->
  Document.id d = documentId ->
  Document.userId d = userId ->
  findDocument documentId
    (db.with_documents
       (Query.update (fun x => (Document.id x =? documentId)
                               && (Document.userId x =? userId))
                     (db.set_document data at_)) t)
  = Some (db.set_document data at_ d).
Proof.
  intros Hc Hin Hid Hu. unfold findDocument. cbn [db.with_documents documents].
  rewrite (find_update _ Document.id); [|reflexivity].
  subst documentId.
  rewrite (find_unique _ Document.id _ _ (document_ids_unique Hc) Hin).
  cbn [option_map]. now rewrite Nat.eqb_refl, Hu, Nat.eqb_refl.
Qed.

(** C2.  A successful synthesis request returns the project's document
    with videosIncorporated equal to the number of videos of the project
    that are transcribed with a non-empty transcript at the time of the
    call; when the project already had a document this is that document
    with its version incremented by exactly 1, otherwise it is a new
    document of version 1. *)
Theorem C2_synthesis_bumps_version :
  forall E ctx projectId w t project result,
    database w = Some t ->
    consistent t ->
    findProject projectId (uid ctx) t = Some project ->
    fst (appRouter.documents.generate E ctx projectId w) = inr result ->
    exists d' t',
      result = Some d'
      /\ database (snd (appRouter.documents.generate E ctx projectId w))
         = Some t'
      /\ In d' (documents t')
      /\ Document.projectId d' = projectId
      /\ Document.videosIncorporated d' = length (transcribedIn projectId t)
      /\ 1 <= length (transcribedIn projectId t)
      /\ match currentDocument projectId (uid ctx) t with
         | Some d =>
           Document.id d' = Document.id d
           /\ Document.version d' = Document.version d + 1
         | None => Document.version d' = 1
         end.
Proof.
  intros E ctx projectId w t project result Hdb Hc Hp.
  destruct (appRouter.documents.generate E ctx projectId w) as [r w'] eqn:G.
  cbn [fst snd]. intros ->.
  rewrite (connected w t Hdb) in G. revert G.
  generalize (trace w) (now w). clear w Hdb. intros tr n.
  unfold appRouter.documents.generate.
  unfold bind at 1. rewrite getProjectById_run, Hp.
  unfold bind at 1. rewrite getVideosByProjectId_run.
  pose proof (gathered_count _ _ _ _ Hc Hp) as Hcount.
  set (tv := filter is_transcribed _) in *.
  destruct (length tv =? 0) eqn:Hz; [discriminate|].
  apply Nat.eqb_neq in Hz.
  unfold bind at 1. rewrite getDocumentByProjectId_run.
  unfold bind at 1.
  set (input := DocumentGenerationInput.mk _ _ _ _ _).
  pose proof (talks_only_world _ _ t tr n
                (generateProjectDocument_talks_only E input)) as Hw.
  destruct (generateProjectDocument E input (mkWorld (Some t) tr n))
    as [[e|generated] w1]; [discriminate|].
  cbn [snd] in Hw. rewrite Hw.
  destruct (currentDocument projectId (uid ctx) t) as [d|] eqn:Hcur.
  - apply currentDocument_in in Hcur as (Hin & Hpid & Hu).
    rewrite updateDocument_run.
    rewrite (findDocument_after_update _ _ _ _ _ _ Hc Hin eq_refl Hu).
    intros G. injection G as <- <-.
    eexists. eexists. split; [reflexivity|]. split; [reflexivity|].
    split.
    { cbn [db.with_documents documents]. unfold Query.update.
      apply in_map_iff. exists d. split; [|exact Hin].
      now rewrite Nat.eqb_refl, Hu, Nat.eqb_refl. }
    cbn. rewrite <- Hcount. repeat split; try assumption; lia.
  - apply currentDocument_none in Hcur.
    rewrite createDocument_run.
    cbn [db.insert_document documents InsertDocument.projectId
           InsertDocument.userId].
    rewrite filter_app, Hcur. cbn [app filter Document.projectId
                                     Document.userId].
    rewrite !Nat.eqb_refl. cbn [andb Query.orderBy_desc fold_right
                                  Query.insert_desc hd_error].
    intros G. injection G as <- <-.
    eexists. eexists. split; [reflexivity|]. split; [reflexivity|].
    split; [apply in_or_app; right; now left|].
    cbn. rewrite <- Hcount. repeat split; lia.
Qed.

(** C7, as the code has it.  A manual content edit of an existing
    document replaces its content and leaves its version as it was. *)
Theorem C7_manual_edit_keeps_version :
  forall ctx id content w t d,
    database w = Some t ->
    consistent t ->
    In d (documents t) ->
    Document.id d = id ->
    Document.userId d = uid ctx ->
    exists d',
      fst (appRouter.documents.update ctx id content w) = inr (Some d')
      /\ Document.id d' = id
      /\ Document.content d' = content
      /\ Document.version d' = Document.version d.
Proof.
  intros ctx id content w t d Hdb Hc Hin Hid Hu.
  rewrite (connected w t Hdb).
  unfold appRouter.documents.update. rewrite updateDocument_run.
  cbn [fst]. rewrite (findDocument_after_update _ _ _ _ _ _ Hc Hin Hid Hu).
  eexists. split; [reflexivity|]. cbn. auto.
Qed.

(** C10.  A document delete request answers success whatever the
    identifier; when the caller owns no document of that identifier the
    world is left as it was.  Deleting a project or a video that the
    caller does not own fails with NOT_FOUND instead. *)
Theorem C10_document_delete_never_fails :
  forall ctx id w t,
    database w = Some t ->
    fst (appRouter.documents.delete ctx id w) = inr success_true
    /\ (find (fun d => (Document.id d =? id)
                       && (Document.userId d =? uid ctx)) (documents t) = None
        -> snd (appRouter.documents.delete ctx id w) = w)
    /\ (findProject id (uid ctx) t = None ->
        appRouter.projects.delete ctx id w
        = (inl (TRPCError NOT_FOUND (js "Project not found")), w))
    /\ (findVideo id (uid ctx) t = None ->
        appRouter.videos.delete ctx id w
        = (inl (TRPCError NOT_FOUND (js "Video not found")), w)).
Proof.
  intros ctx id w t Hdb.
  rewrite (connected w t Hdb). generalize (trace w) (now w). clear w Hdb.
  intros tr n. repeat split.
  - intros Hnone. unfold appRouter.documents.delete, bind.
    rewrite deleteDocument_run. cbn [snd ret].
    unfold db.with_documents. rewrite (delete_none _ _ _ Hnone).
    now destruct t.
  - intros Hnone. unfold appRouter.projects.delete, bind.
    now rewrite getProjectById_run, Hnone.
  - intros Hnone. unfold appRouter.videos.delete, bind.
    now rewrite getVideoById_run, Hnone.
Qed.

(* ================================================================== *)
(** ** db.ts on a connected database, continued *)
(* ================================================================== *)

Lemma find_update_same (A : Type) (c : A -> bool) (f : A -> A) (l : list A) :
  (forall r, c (f r) = c r) ->
  find c (Query.update c f l) = option_map f (find c l).
Proof.
  intros Hc. unfold Query.update.
  induction l as [|x l IH]; simpl; [reflexivity|].
  destruct (c x) eqn:E.
  - now rewrite Hc, E.
  - rewrite E. exact IH.
Qed.

Lemma match_limit_1 (A B : Type) (l : list A) (a : A -> B) (b : B) :
  match Query.limit 1 l with x :: _ => a x | [] => b end
  = match hd_error l with Some x => a x | None => b end.
Proof. destruct l; reflexivity. Qed.

Section Connected.
Variables (t : Tables) (tr : list Call) (n : Date).
Let w := mkWorld (Some t) tr n.

Lemma createProject_run project :
  db.createProject project w
  = (inr (created t n project),
     mkWorld (Some (db.insert_project project n t)) tr n).
Proof.
  unfold db.createProject, bind, db.getDb, db.query, db.execute, new_Date,
    ret; subst w; cbn [database trace now option_map].
  now rewrite first_limit.
Qed.

Lemma getProjectByName_run name userId :
  db.getProjectByName name userId w
  = (inr (find (fun p => jseqb (Project.name p) name
                         && (Project.userId p =? userId)) (projects t)), w).
Proof.
  unfold db.getProjectByName, bind, db.getDb, db.query, ret; subst w;
    cbn [database trace now option_map].
  now rewrite first_limit_where.
Qed.

Lemma getOrCreateNewIdeasProject_run userId :
  db.getOrCreateNewIdeasProject userId w
  = match find (fun p => (Project.userId p =? userId)
                         && Bool.eqb (Project.isNewIdeas p) true)
               (projects t) with
    | Some p => (inr (Some p), w)
    | None => db.createProject (db.newIdeasValues userId) w
    end.
Proof.
  unfold db.getOrCreateNewIdeasProject, bind at 1 2.
  unfold db.getDb, db.query; subst w; cbn [database trace now].
  unfold Query.where_. rewrite match_limit_1, hd_error_filter.
  now destruct (find _ _).
Qed.

Lemma updateProject_run projectId userId data :
  db.updateProject projectId userId data w
  = (inr (findProject projectId userId
            (db.with_projects
               (Query.update (fun p => (Project.id p =? projectId)
                                       && (Project.userId p =? userId))
                             (db.set_project data n)) t)),
     mkWorld (Some (db.with_projects
               (Query.update (fun p => (Project.id p =? projectId)
                                       && (Project.userId p =? userId))
                             (db.set_project data n)) t)) tr n).
Proof.
  unfold db.updateProject, db.getProjectById, bind, db.getDb, db.query,
    db.execute, new_Date, ret; subst w; cbn [database trace now option_map].
  now rewrite first_limit_where.
Qed.

Lemma deleteProject_run projectId userId :
  db.deleteProject projectId userId w
  = (inr true,
     mkWorld (Some (db.with_projects
               (Query.delete (fun p => (Project.id p =? projectId)
                                       && (Project.userId p =? userId))) t))
             tr n).
Proof. reflexivity. Qed.

Lemma getProjectsByUserId_run userId :
  db.getProjectsByUserId userId w
  = (inr (Query.orderBy_desc Project.updatedAt
            (filter (fun p => Project.userId p =? userId) (projects t))), w).
Proof. reflexivity. Qed.

Lemma createVideo_run video :
  db.createVideo video w
  = (inr (find (fun v => jseqb (Video.videoKey v) (InsertVideo.videoKey video))
               (videos (db.insert_video video n t))),
     mkWorld (Some (db.insert_video video n t)) tr n).
Proof.
  unfold db.createVideo, bind, db.getDb, db.query, db.execute, new_Date,
    ret; subst w; cbn [database trace now option_map].
  now rewrite first_limit_where.
Qed.

Lemma updateVideo_run videoId userId data :
  db.updateVideo videoId userId data w
  = (inr (findVideo videoId userId
            (db.with_videos
               (Query.update (fun v => (Video.id v =? videoId)
                                       && (Video.userId v =? userId))
                             (db.set_video data n)) t)),
     mkWorld (Some (db.with_videos
               (Query.update (fun v => (Video.id v =? videoId)
                                       && (Video.userId v =? userId))
                             (db.set_video data n)) t)) tr n).
Proof.
  unfold db.updateVideo, db.getVideoById, bind, db.getDb, db.query,
    db.execute, new_Date, ret; subst w; cbn [database trace now option_map].
  now rewrite first_limit_where.
Qed.

Lemma deleteVideo_run videoId userId :
  db.deleteVideo videoId userId w
  = (inr true,
     mkWorld (Some (db.with_videos
               (Query.delete (fun v => (Video.id v =? videoId)
                                       && (Video.userId v =? userId))) t))
             tr n).
Proof. reflexivity. Qed.

Lemma getVideosByUserId_run userId :
  db.getVideosByUserId userId w
  = (inr (Query.orderBy_desc Video.createdAt
            (filter (fun v => Video.userId v =? userId) (videos t))), w).
Proof. reflexivity. Qed.

Lemma getDocumentsByUserId_run userId :
  db.getDocumentsByUserId userId w
  = (inr (Query.orderBy_desc Document.updatedAt
            (filter (fun d => Document.userId d =? userId) (documents t))), w).
Proof. reflexivity. Qed.

End Connected.

(* ================================================================== *)
(** ** Failures of a transcription request *)
(* ================================================================== *)



(** Determining the target project writes to the projects table only and
    can only fail on an absent row. *)
Lemma targetProject_run E ctx video result t tr n :
  exists r t',
    appRouter.videos.targetProject E ctx video result (mkWorld (Some t) tr n)
    = (r, mkWorld (Some t') tr n)
    /\ videos t' = videos t
    /\ forall e, r = inl e -> e = TypeError (typeErrorMessage E).
Proof.
  unfold appRouter.videos.targetProject.
  destruct (TranscriptionResult.isNewIdea result).
  - unfold bind. rewrite getOrCreateNewIdeasProject_run.
    destruct (find _ (projects t)) as [p|].
    + eexists. eexists. split; [reflexivity|]. split; [reflexivity|].
      discriminate.
    + rewrite createProject_run.
      destruct (created t n (db.newIdeasValues (uid ctx))) as [p|];
        eexists; eexists; (split; [reflexivity|]);
        (split; [reflexivity|]); intros e H; [discriminate|].
      now injection H as <-.
  - destruct (TranscriptionResult.suggestedProjectName result) as [s|].
    + destruct (JSON.truthy s).
      * unfold bind at 1. rewrite getProjectByName_run.
        destruct (find _ (projects t)) as [p|].
        -- eexists. eexists. split; [reflexivity|]. split; [reflexivity|].
           discriminate.
        -- unfold bind. rewrite createProject_run.
           destruct (created t n _) as [p|];
             eexists; eexists; (split; [reflexivity|]);
             (split; [reflexivity|]); intros e H; [discriminate|].
           now injection H as <-.
      * eexists. eexists. split; [reflexivity|]. split; [reflexivity|].
        discriminate.
    + eexists. eexists. split; [reflexivity|]. split; [reflexivity|].
      discriminate.
Qed.



(* ================================================================== *)
(** ** Failures and fallbacks of the services *)
(* ================================================================== *)

Section Classifier.
Variables (E : Env) (url : jsstring) (w : World).
Hypothesis configured : GEMINI_API_KEY E = true.

Lemma classifier_malformed_json text response jsonMatch :
  transcribeAudio E (trace w) url (js "fr") whisperPrompt
  = inr (WhisperText text) ->
  generateContent E (trace w ++ [whisperCall url]) geminiModel
                  (analysisPrompt text) = inr response ->
  exec jsonRegex response = Some jsonMatch ->
  JSON.parse (matched jsonMatch) = None ->
  fst (transcribeWithGemini E url w)
  = inl (SyntaxError (syntaxErrorMessage E (matched jsonMatch))).
Proof.
  intros H1 H2 H3 H4. unfold transcribeWithGemini. rewrite configured.
  cbn [negb].
  unfold try_catch, bind, call. rewrite H1. cbn [trace fst snd].
  now rewrite H2, H3, H4.
Qed.

End Classifier.

(** C5, as the code has it.  When the answer of the text-understanding
    collaborator holds a brace-delimited substring that is not well-formed
    JSON, the classifier does not fall back on the keyword extractor: it
    throws the SyntaxError of the parse. *)
Theorem C5_malformed_json_is_thrown :
  forall E url w text response jsonMatch,
    GEMINI_API_KEY E = true ->
    transcribeAudio E (trace w) url (js "fr") whisperPrompt
    = inr (WhisperText text) ->
    generateContent E (trace w ++ [whisperCall url]) geminiModel
                    (analysisPrompt text) = inr response ->
    exec jsonRegex response = Some jsonMatch ->
    JSON.parse (matched jsonMatch) = None ->
    fst (transcribeWithGemini E url w)
    = inl (SyntaxError (syntaxErrorMessage E (matched jsonMatch)))
    /\ fst (transcribeWithGemini E url w) <> inr (fallbackResult E text).
Proof.
  intros E url w text response jsonMatch Hk H1 H2 H3 H4.
  rewrite (classifier_malformed_json E url w Hk text response jsonMatch
             H1 H2 H3 H4).
  split; [reflexivity | discriminate].
Qed.

Section Outcomes.
Variables (E : Env) (w : World).




End Outcomes.


(* ================================================================== *)
(** ** Statements that keep the tables consistent *)
(* ================================================================== *)

Section Rows.
Variables (A : Type) (id : A -> nat).

Lemma NoDup_map_update (c : A -> bool) (f : A -> A) (l : list A) :
  (forall r, id (f r) = id r) ->
  map id (Query.update c f l) = map id l.
Proof.
  intros Hf. unfold Query.update. rewrite map_map. apply map_ext.
  intros r. destruct (c r); [apply Hf | reflexivity].
Qed.

Lemma NoDup_map_filter (c : A -> bool) (l : list A) :
  NoDup (map id l) -> NoDup (map id (filter c l)).
Proof.
  induction l as [|x l IH]; simpl; intros H; [constructor|].
  inversion H as [|? ? Hx Hl]; subst.
  destruct (c x); simpl; [|now apply IH].
  constructor; [|now apply IH].
  intros Hin. apply Hx. apply in_map_iff in Hin as (y & Hy & Hyin).
  apply filter_In in Hyin as [Hyin _]. rewrite <- Hy. now apply in_map.
Qed.

Lemma NoDup_map_snoc (l : list A) (x : A) :
  NoDup (map id l) -> (forall r, In r l -> id r < id x) ->
  NoDup (map id (l ++ [x])).
Proof.
  intros Hnd Hlt. rewrite map_app. simpl.
  apply NoDup_app; [exact Hnd | repeat constructor; intros [] |].
  intros a Ha [Hx|[]]. apply in_map_iff in Ha as (r & Hr & Hin).
  specialize (Hlt r Hin). lia.
Qed.

Lemma in_update (c : A -> bool) (f : A -> A) (l : list A) (y : A) :
  In y (Query.update c f l) ->
  exists r, In r l /\ y = if c r then f r else r.
Proof.
  unfold Query.update. intros H. apply in_map_iff in H as (r & Hr & Hin).
  now exists r.
Qed.

End Rows.

Lemma newIdeasOf_none u t :
  find (fun p => (Project.userId p =? u)
                 && Bool.eqb (Project.isNewIdeas p) true) (projects t) = None ->
  newIdeasOf u t = [].
Proof.
  intros H. unfold newIdeasOf. apply filter_none. intros p Hp.
  pose proof (find_none _ _ H p Hp) as E. cbn beta in E.
  destruct (Project.isNewIdeas p); [exact E | now rewrite andb_false_r].
Qed.

Lemma consistent_insert_project p at_ t :
  consistent t ->
  (InsertProject.isNewIdeas p = Some true ->
   newIdeasOf (InsertProject.userId p) t = []) ->
  consistent (db.insert_project p at_ t).
Proof.
  intros Hc Hnew. destruct Hc as [C1 C2 C3 C4 C5 C6 C7 C8 C9].
  constructor; cbn [db.insert_project projects videos documents
                      next_project_id next_video_id next_document_id];
    try assumption.
  - intros q Hq. apply in_app_or in Hq as [Hq|[<-|[]]].
    + specialize (C1 q Hq). lia.
    + cbn. lia.
  - apply NoDup_map_snoc; [exact C2|]. intros r Hr. cbn. now apply C1.
  - intros v Hv. specialize (C7 v Hv). lia.
  - intros v q Hv Hq Hid. apply in_app_or in Hq as [Hq|[<-|[]]].
    + now apply C8.
    + cbn in Hid. specialize (C7 v Hv). lia.
  - intros u. unfold newIdeasOf. cbn [db.insert_project projects].
    rewrite filter_app, length_app.
    cbn [filter Project.userId Project.isNewIdeas].
    fold (newIdeasOf u t).
    destruct (InsertProject.isNewIdeas p) as [[|]|]; cbn [Query.or_else].
    + destruct (InsertProject.userId p =? u) eqn:E; cbn [andb length].
      * apply Nat.eqb_eq in E. subst u. rewrite (Hnew eq_refl). cbn. lia.
      * specialize (C9 u). lia.
    + rewrite andb_false_r. cbn. specialize (C9 u). lia.
    + rewrite andb_false_r. cbn. specialize (C9 u). lia.
Qed.

Lemma consistent_update_projects c d at_ t :
  consistent t ->
  PartialProject.userId d = None ->
  PartialProject.isNewIdeas d = None ->
  consistent (db.with_projects (Query.update c (db.set_project d at_)) t).
Proof.
  intros Hc Hu Hn. destruct Hc as [C1 C2 C3 C4 C5 C6 C7 C8 C9].
  assert (Hkeep : forall r : Project.t,
             let r' := if c r then db.set_project d at_ r else r in
             Project.id r' = Project.id r
             /\ Project.userId r' = Project.userId r
             /\ Project.isNewIdeas r' = Project.isNewIdeas r).
  { intros r. destruct (c r); cbn; [|auto]. now rewrite Hu, Hn. }
  constructor; cbn [db.with_projects projects videos documents
                      next_project_id next_video_id next_document_id];
    try assumption.
  - intros q Hq. apply in_update in Hq as (r & Hr & ->).
    destruct (Hkeep r) as (-> & _). now apply C1.
  - rewrite NoDup_map_update; [exact C2 | reflexivity].
  - intros v q Hv Hq Hid. apply in_update in Hq as (r & Hr & ->).
    destruct (Hkeep r) as (E1 & E2 & _). rewrite E1 in Hid. rewrite E2.
    now apply C8.
  - intros u. unfold newIdeasOf. cbn [db.with_projects projects].
    unfold Query.update.
    specialize (C9 u). unfold newIdeasOf in C9.
    replace (length (filter _ (map _ (projects t))))
      with (length (filter (fun p => (Project.userId p =? u)
                                     && Project.isNewIdeas p) (projects t)));
      [exact C9|].
    revert Hkeep. generalize (projects t). clear. intros l Hkeep.
    induction l as [|x l IH]; [reflexivity|].
    cbn [map filter]. destruct (Hkeep x) as (_ & -> & ->).
    destruct (_ && _); cbn [length]; now rewrite IH.
Qed.

Lemma consistent_delete_projects c t :
  consistent t -> consistent (db.with_projects (Query.delete c) t).
Proof.
  intros Hc. destruct Hc as [C1 C2 C3 C4 C5 C6 C7 C8 C9].
  constructor; cbn [db.with_projects projects videos documents
                      next_project_id next_video_id next_document_id];
    try assumption; unfold Query.delete.
  - intros q Hq. apply filter_In in Hq as [Hq _]. now apply C1.
  - now apply NoDup_map_filter.
  - intros v q Hv Hq. apply filter_In in Hq as [Hq _]. now apply C8.
  - intros u. unfold newIdeasOf. cbn [db.with_projects projects].
    specialize (C9 u).
    unfold newIdeasOf in C9. rewrite filter_filter.
    eapply Nat.le_trans; [|exact C9].
    clear. induction (projects t) as [|x l IH]; [cbn; lia|].
    cbn [filter]. destruct (negb (c x)); cbn [andb].
    + destruct (_ && _); cbn [length]; lia.
    + destruct (_ && _); cbn [length]; lia.
Qed.

Lemma consistent_insert_video v at_ t :
  consistent t ->
  assignable (InsertVideo.userId v) (InsertVideo.projectId v) t ->
  consistent (db.insert_video v at_ t).
Proof.
  intros Hc [Ha1 Ha2]. destruct Hc as [C1 C2 C3 C4 C5 C6 C7 C8 C9].
  constructor; cbn [db.insert_video projects videos documents
                      next_project_id next_video_id next_document_id];
    try assumption.
  - intros x Hx. apply in_app_or in Hx as [Hx|[<-|[]]].
    + specialize (C3 x Hx). lia.
    + cbn. lia.
  - apply NoDup_map_snoc; [exact C4|]. intros r Hr. cbn. now apply C3.
  - intros x Hx. apply in_app_or in Hx as [Hx|[<-|[]]];
      [now apply C7 | exact Ha1].
  - intros x q Hx Hq Hid. apply in_app_or in Hx as [Hx|[<-|[]]].
    + now apply C8.
    + cbn in *. symmetry. now apply Ha2.
Qed.

Lemma consistent_update_videos i u d at_ t :
  consistent t ->
  (forall target, PartialVideo.projectId d = Some target ->
                  assignable u target t) ->
  consistent
    (db.with_videos
       (Query.update (fun v => (Video.id v =? i) && (Video.userId v =? u))
                     (db.set_video d at_)) t).
Proof.
  intros Hc Ha. destruct Hc as [C1 C2 C3 C4 C5 C6 C7 C8 C9].
  constructor; cbn [db.with_videos projects videos documents
                      next_project_id next_video_id next_document_id];
    try assumption.
  - intros x Hx. apply in_update in Hx as (r & Hr & ->).
    destruct (_ && _); [cbn|]; now apply C3.
  - rewrite NoDup_map_update; [exact C4 | reflexivity].
  - intros x Hx. apply in_update in Hx as (r & Hr & ->).
    destruct (_ && _); [|now apply C7]. cbn.
    destruct (PartialVideo.projectId d) as [target|]; cbn.
    + now destruct (Ha target eq_refl).
    + now apply C7.
  - intros x q Hx Hq Hid. apply in_update in Hx as (r & Hr & ->).
    destruct ((Video.id r =? i) && (Video.userId r =? u)) eqn:E;
      [|now apply C8].
    apply andb_prop in E as [_ E]. apply Nat.eqb_eq in E.
    cbn in *. destruct (PartialVideo.projectId d) as [target|]; cbn in *.
    + destruct (Ha target eq_refl) as [_ H]. symmetry. rewrite E. now apply H.
    + now apply C8.
Qed.

Lemma consistent_delete_videos c t :
  consistent t -> consistent (db.with_videos (Query.delete c) t).
Proof.
  intros Hc. destruct Hc as [C1 C2 C3 C4 C5 C6 C7 C8 C9].
  constructor; cbn [db.with_videos projects videos documents
                      next_project_id next_video_id next_document_id];
    try assumption; unfold Query.delete.
  - intros x Hx. apply filter_In in Hx as [Hx _]. now apply C3.
  - now apply NoDup_map_filter.
  - intros x Hx. apply filter_In in Hx as [Hx _]. now apply C7.
  - intros x q Hx. apply filter_In in Hx as [Hx _]. now apply C8.
Qed.

Lemma consistent_insert_document d at_ t :
  consistent t -> consistent (db.insert_document d at_ t).
Proof.
  intros Hc. destruct Hc as [C1 C2 C3 C4 C5 C6 C7 C8 C9].
  constructor; cbn [db.insert_document projects videos documents
                      next_project_id next_video_id next_document_id];
    try assumption.
  - intros x Hx. apply in_app_or in Hx as [Hx|[<-|[]]].
    + specialize (C5 x Hx). lia.
    + cbn. lia.
  - apply NoDup_map_snoc; [exact C6|]. intros r Hr. cbn. now apply C5.
Qed.

Lemma consistent_update_documents c d at_ t :
  consistent t ->
  consistent (db.with_documents (Query.update c (db.set_document d at_)) t).
Proof.
  intros Hc. destruct Hc as [C1 C2 C3 C4 C5 C6 C7 C8 C9].
  constructor; cbn [db.with_documents projects videos documents
                      next_project_id next_video_id next_document_id];
    try assumption.
  - intros x Hx. apply in_update in Hx as (r & Hr & ->).
    destruct (c r); [cbn|]; now apply C5.
  - rewrite NoDup_map_update; [exact C6 | reflexivity].
Qed.

Lemma consistent_delete_documents c t :
  consistent t -> consistent (db.with_documents (Query.delete c) t).
Proof.
  intros Hc. destruct Hc as [C1 C2 C3 C4 C5 C6 C7 C8 C9].
  constructor; cbn [db.with_documents projects videos documents
                      next_project_id next_video_id next_document_id];
    try assumption; unfold Query.delete.
  - intros x Hx. apply filter_In in Hx as [Hx _]. now apply C5.
  - now apply NoDup_map_filter.
Qed.

Lemma consistent_empty : consistent empty_tables.
Proof.
  constructor; cbn; intros; try contradiction; try constructor; lia.
Qed.

(* ================================================================== *)
(** ** Requests keep the tables consistent *)
(* ================================================================== *)

Lemma assignable_ext u target t t' :
  projects t' = projects t -> next_project_id t' = next_project_id t ->
  assignable u target t -> assignable u target t'.
Proof. unfold assignable. intros -> ->. auto. Qed.

Lemma assignable_insert_project u target p at_ t :
  assignable u target t -> assignable u target (db.insert_project p at_ t).
Proof.
  intros [H1 H2]. split; cbn [db.insert_project next_project_id projects].
  - lia.
  - intros q Hq Hid. apply in_app_or in Hq as [Hq|[<-|[]]]; [now apply H2|].
    cbn in Hid. lia.
Qed.

Lemma assignable_of_project t p :
  consistent t -> In p (projects t) ->
  assignable (Project.userId p) (Project.id p) t.
Proof.
  intros Hc Hp. split; [now apply (project_ids_below Hc)|].
  intros q Hq Hid.
  pose proof (find_unique _ Project.id _ _ (project_ids_unique Hc) Hp) as F1.
  pose proof (find_unique _ Project.id _ _ (project_ids_unique Hc) Hq) as F2.
  rewrite Hid in F2. congruence.
Qed.

Lemma assignable_of_video t v :
  consistent t -> In v (videos t) ->
  assignable (Video.userId v) (Video.projectId v) t.
Proof.
  intros Hc Hv. split; [now apply (video_projects_below Hc)|].
  intros q Hq Hid. symmetry. now apply (videos_follow_projects Hc).
Qed.

Lemma findVideo_in id u t v :
  findVideo id u t = Some v ->
  In v (videos t) /\ Video.id v = id /\ Video.userId v = u.
Proof.
  unfold findVideo. intros H. apply find_some in H as [Hin Hc].
  apply andb_prop in Hc as [H1 H2]. apply Nat.eqb_eq in H1, H2. auto.
Qed.

Lemma created_in t n project p :
  created t n project = Some p ->
  In p (projects (db.insert_project project n t))
  /\ Project.userId p = InsertProject.userId project.
Proof.
  unfold created. intros H.
  assert (Hin : In p (Query.orderBy_desc Project.createdAt
            (filter (fun q => (Project.userId q =? InsertProject.userId project)
                              && jseqb (Project.name q)
                                       (InsertProject.name project))
                    (projects (db.insert_project project n t))))).
  { destruct (Query.orderBy_desc _ _); [discriminate|].
    injection H as ->. now left. }
  apply orderBy_desc_in, filter_In in Hin as [Hin Hc].
  apply andb_prop in Hc as [H1 _]. apply Nat.eqb_eq in H1. auto.
Qed.

Lemma keeps_weaken (A : Type) (m : M A) Q :
  keeps m Q -> keeps m anything.
Proof.
  intros H t tr n Hc. destruct (H t tr n Hc) as (r & t' & tr' & E & Hc' & _).
  exists r, t', tr'. split; [exact E|]. split; [exact Hc'|]. exact I.
Qed.

Lemma keeps_talks_only (A : Type) (m : M A) :
  talks_only m -> keeps m (fun t _ t' => t' = t).
Proof.
  intros H t tr n Hc.
  pose proof (talks_only_world _ m t tr n H) as E.
  destruct (m (mkWorld (Some t) tr n)) as [r w'] eqn:R. cbn [snd] in E.
  exists r, t, (trace w').
  split; [f_equal; exact E|]. split; [exact Hc | reflexivity].
Qed.

Lemma getOrCreateNewIdeasProject_keeps u :
  keeps (db.getOrCreateNewIdeasProject u)
        (fun t r t' =>
           videos t' = videos t
           /\ (forall u0 x, assignable u0 x t -> assignable u0 x t')
           /\ exists o, r = inr o
                        /\ forall p, o = Some p ->
                                     In p (projects t')
                                     /\ Project.userId p = u).
Proof.
  intros t tr n Hc. rewrite getOrCreateNewIdeasProject_run.
  destruct (find _ (projects t)) as [p|] eqn:F.
  - exists (inr (Some p)), t, tr.
    split; [reflexivity|]. split; [exact Hc|]. split; [reflexivity|].
    split; [auto|].
    exists (Some p). split; [reflexivity|]. intros q H. injection H as <-.
    apply find_some in F as [Hin Hcnd]. split; [exact Hin|].
    apply andb_prop in Hcnd as [H1 _]. now apply Nat.eqb_eq in H1.
  - rewrite createProject_run.
    eexists. eexists. eexists. split; [reflexivity|]. split.
    { apply consistent_insert_project; [exact Hc|]. intros _.
      now apply newIdeasOf_none. }
    split; [reflexivity|]. split.
    { intros u0 x. apply assignable_insert_project. }
    eexists. split; [reflexivity|]. intros p Hp.
    now apply created_in in Hp.
Qed.

Lemma targetProject_keeps E ctx video result :
  keeps (appRouter.videos.targetProject E ctx video result)
        (fun t r t' =>
           videos t' = videos t
           /\ forall target,
               assignable (uid ctx) (Video.projectId video) t ->
               r = inr target -> assignable (uid ctx) target t').
Proof.
  intros t tr n Hc. unfold appRouter.videos.targetProject.
  destruct (TranscriptionResult.isNewIdea result).
  - unfold bind.
    destruct (getOrCreateNewIdeasProject_keeps (uid ctx) t tr n Hc)
      as (r & t' & tr' & Hrun & Hc' & Hv & Ha & o & -> & Ho).
    rewrite Hrun. destruct o as [p|].
    + eexists. eexists. eexists. split; [reflexivity|].
      split; [exact Hc'|]. split; [exact Hv|].
      intros target _ H. injection H as <-.
      destruct (Ho p eq_refl) as [Hin <-]. now apply assignable_of_project.
    + eexists. eexists. eexists. split; [reflexivity|].
      split; [exact Hc'|]. split; [exact Hv|]. discriminate.
  - destruct (TranscriptionResult.suggestedProjectName result) as [s|].
    + destruct (JSON.truthy s).
      * unfold bind at 1. rewrite getProjectByName_run.
        destruct (find _ (projects t)) as [p|] eqn:F.
        -- eexists. eexists. eexists. split; [reflexivity|].
           split; [exact Hc|]. split; [reflexivity|].
           intros target _ H. injection H as <-.
           apply find_some in F as [Hin Hcnd].
           apply andb_prop in Hcnd as [_ H2]. apply Nat.eqb_eq in H2.
           rewrite <- H2. now apply assignable_of_project.
        -- unfold bind. rewrite createProject_run.
           set (ins := InsertProject.mk _ _ _ _ _ _).
           assert (Hc' : consistent (db.insert_project ins n t)).
           { apply consistent_insert_project; [exact Hc|]. discriminate. }
           destruct (created t n ins) as [p|] eqn:Cr.
           ++ eexists. eexists. eexists. split; [reflexivity|].
              split; [exact Hc'|]. split; [reflexivity|].
              intros target _ H. injection H as <-.
              apply created_in in Cr as [Hin Hu]. cbn in Hu.
              rewrite <- Hu. now apply assignable_of_project.
           ++ eexists. eexists. eexists. split; [reflexivity|].
              split; [exact Hc'|]. split; [reflexivity|]. discriminate.
      * eexists. eexists. eexists. split; [reflexivity|].
        split; [exact Hc|]. split; [reflexivity|].
        intros target Ha H. now injection H as <-.
    + eexists. eexists. eexists. split; [reflexivity|].
      split; [exact Hc|]. split; [reflexivity|].
      intros target Ha H. now injection H as <-.
Qed.

Ltac done_with Hc :=
  eexists; eexists; eexists; split; [reflexivity|]; split; [exact Hc|];
  exact I.

Lemma projects_list_keeps ctx : keeps (appRouter.projects.list ctx) anything.
Proof. intros t tr n Hc. done_with Hc. Qed.

Lemma projects_get_keeps ctx id :
  keeps (appRouter.projects.get ctx id) anything.
Proof.
  intros t tr n Hc. unfold appRouter.projects.get, bind.
  rewrite getProjectById_run. destruct (findProject _ _ _); done_with Hc.
Qed.

Lemma projects_getNewIdeas_keeps ctx :
  keeps (appRouter.projects.getNewIdeas ctx) anything.
Proof.
  eapply keeps_weaken. apply getOrCreateNewIdeasProject_keeps.
Qed.

Lemma projects_create_keeps E ctx input :
  keeps (appRouter.projects.create E ctx input) anything.
Proof.
  intros t tr n Hc. unfold appRouter.projects.create.
  destruct (negb _); [done_with Hc|].
  unfold bind. rewrite getProjectByName_run.
  destruct (find _ _); [done_with Hc|].
  rewrite createProject_run.
  eexists. eexists. eexists. split; [reflexivity|]. split; [|exact I].
  apply consistent_insert_project; [exact Hc | discriminate].
Qed.

Lemma projects_update_keeps E ctx input :
  keeps (appRouter.projects.update E ctx input) anything.
Proof.
  intros t tr n Hc. unfold appRouter.projects.update.
  destruct (match UpdateProjectInput.name input with
            | Some n0 => negb (valid_name n0) | None => false end);
    [done_with Hc|].
  unfold bind. rewrite updateProject_run.
  assert (Hc' : consistent
            (db.with_projects
               (Query.update
                  (fun p => (Project.id p =? UpdateProjectInput.id input)
                            && (Project.userId p =? uid ctx))
                  (db.set_project
                     (PartialProject.mk None (UpdateProjectInput.name input)
                        (UpdateProjectInput.description input) None None
                        (UpdateProjectInput.color input)) n)) t))
    by (now apply consistent_update_projects).
  destruct (findProject _ _ _); done_with Hc'.
Qed.

Lemma projects_delete_keeps ctx id :
  keeps (appRouter.projects.delete ctx id) anything.
Proof.
  intros t tr n Hc. unfold appRouter.projects.delete.
  unfold bind at 1. rewrite getProjectById_run.
  destruct (findProject _ _ _) as [p|]; [|done_with Hc].
  destruct (Project.isNewIdeas p); [done_with Hc|].
  unfold bind. rewrite deleteProject_run.
  eexists. eexists. eexists. split; [reflexivity|]. split; [|exact I].
  now apply consistent_delete_projects.
Qed.

Lemma projects_generateThumbnail_keeps E ctx id :
  keeps (appRouter.projects.generateThumbnail E ctx id) anything.
Proof.
  intros t tr n Hc. unfold appRouter.projects.generateThumbnail.
  unfold bind at 1. rewrite getProjectById_run.
  destruct (findProject _ _ _) as [p|]; [|done_with Hc].
  unfold bind at 1. rewrite getDocumentByProjectId_run.
  unfold bind at 1.
  destruct (keeps_talks_only _ _
              (generateThumbnailPrompt_talks_only E (Project.name p)
                 (thumbnailContext p (currentDocument id (uid ctx) t)))
              t tr n Hc) as (r & t' & tr' & -> & _ & ->).
  destruct r as [e|prompt]; [done_with Hc|].
  unfold bind at 1. unfold call at 1. cbn [trace database now].
  destruct (generateImage E tr' prompt) as [e|imageUrl]; [done_with Hc|].
  unfold bind. rewrite updateProject_run.
  eexists. eexists. eexists. split; [reflexivity|]. split; [|exact I].
  now apply consistent_update_projects.
Qed.

Lemma videos_listByProject_keeps ctx pid :
  keeps (appRouter.videos.listByProject ctx pid) anything.
Proof. intros t tr n Hc. done_with Hc. Qed.

Lemma videos_listAll_keeps ctx : keeps (appRouter.videos.listAll ctx) anything.
Proof. intros t tr n Hc. done_with Hc. Qed.

Lemma videos_get_keeps ctx id : keeps (appRouter.videos.get ctx id) anything.
Proof.
  intros t tr n Hc. unfold appRouter.videos.get, bind.
  rewrite getVideoById_run. destruct (findVideo _ _ _); done_with Hc.
Qed.

Lemma videos_upload_keeps E ctx input :
  keeps (appRouter.videos.upload E ctx input) anything.
Proof.
  intros t tr n Hc. unfold appRouter.videos.upload.
  unfold bind at 1. cbn beta iota. cbn [trace].
  unfold bind at 1. unfold call at 1. cbn [trace database now].
  destruct (storagePut E tr _ _ _) as [e|videoUrl]; [done_with Hc|].
  unfold bind at 1.
  match goal with
  | |- context [db.getOrCreateNewIdeasProject ?u (mkWorld (Some ?t0) ?tr0 ?n0)] =>
    destruct (getOrCreateNewIdeasProject_keeps u t0 tr0 n0 Hc)
      as (r & t' & tr' & Hrun & Hc' & Hv & Ha & o & -> & Ho)
  end.
  rewrite Hrun. destruct o as [p|]; [|done_with Hc'].
  rewrite createVideo_run.
  eexists. eexists. eexists. split; [reflexivity|]. split; [|exact I].
  apply consistent_insert_video; [exact Hc'|]. cbn.
  destruct (Ho p eq_refl) as [Hin <-]. now apply assignable_of_project.
Qed.

Lemma videos_transcribe_keeps E ctx id :
  keeps (appRouter.videos.transcribe E ctx id) anything.
Proof.
  intros t tr n Hc. unfold appRouter.videos.transcribe, appRouter.videos.transcribe_try,
    appRouter.videos.transcribe_catch.
  unfold bind at 1. rewrite getVideoById_run.
  destruct (findVideo id (uid ctx) t) as [video|] eqn:Hv; [|done_with Hc].
  apply findVideo_in in Hv as (Hin & Hid & Hu).
  unfold bind at 1. rewrite updateVideo_run.
  set (t1 := db.with_videos _ t).
  assert (Hc1 : consistent t1)
    by (apply consistent_update_videos; [exact Hc | discriminate]).
  assert (Ha1 : assignable (uid ctx) (Video.projectId video) t1).
  { apply (assignable_ext _ _ t); try reflexivity.
    rewrite <- Hu. now apply assignable_of_video. }
  assert (Hcatch : forall t2 tr2 (e : exn),
             consistent t2 ->
             exists r t' tr',
               (db.updateVideo id (uid ctx)
                  (PartialVideo.mk None None None (Some error)
                     (Some (message_or (js "Transcription failed") e))) ;;;
                @throw (option Video.t)
                  (TRPCError INTERNAL_SERVER_ERROR
                     (message_or (js "Transcription failed") e)))
                 (mkWorld (Some t2) tr2 n)
               = (r, mkWorld (Some t') tr' n)
               /\ consistent t' /\ True).
  { intros t2 tr2 e Hc2. unfold bind. rewrite updateVideo_run.
    eexists. eexists. eexists. split; [reflexivity|]. split; [|exact I].
    apply consistent_update_videos; [exact Hc2 | discriminate]. }
  unfold try_catch. unfold bind at 1.
  destruct (keeps_talks_only _ _
              (transcribeWithGemini_talks_only E (Video.videoUrl video))
              t1 tr n Hc1) as (r & t' & tr' & -> & _ & ->).
  destruct r as [e|result]; [now apply Hcatch|].
  unfold bind at 1.
  destruct (targetProject_keeps E ctx video result t1 tr' n Hc1)
    as (r & t2 & tr2 & -> & Hc2 & Hvid & Ha2).
  destruct r as [e|target]; [now apply Hcatch|].
  rewrite updateVideo_run.
  eexists. eexists. eexists. split; [reflexivity|]. split; [|exact I].
  apply consistent_update_videos; [exact Hc2|].
  intros x Hx. injection Hx as <-. now apply Ha2.
Qed.

Lemma videos_reassign_keeps ctx id pid :
  keeps (appRouter.videos.reassign ctx id pid) anything.
Proof.
  intros t tr n Hc. unfold appRouter.videos.reassign.
  unfold bind at 1. rewrite getVideoById_run.
  destruct (findVideo _ _ _); [|done_with Hc].
  unfold bind at 1. rewrite getProjectById_run.
  destruct (findProject pid (uid ctx) t) as [p|] eqn:Hp; [|done_with Hc].
  apply findProject_in in Hp as (Hin & Hid & Hu).
  rewrite updateVideo_run.
  eexists. eexists. eexists. split; [reflexivity|]. split; [|exact I].
  apply consistent_update_videos; [exact Hc|].
  intros x Hx. injection Hx as <-. rewrite <- Hid, <- Hu.
  now apply assignable_of_project.
Qed.

Lemma videos_delete_keeps ctx id :
  keeps (appRouter.videos.delete ctx id) anything.
Proof.
  intros t tr n Hc. unfold appRouter.videos.delete.
  unfold bind at 1. rewrite getVideoById_run.
  destruct (findVideo _ _ _); [|done_with Hc].
  unfold bind. rewrite deleteVideo_run.
  eexists. eexists. eexists. split; [reflexivity|]. split; [|exact I].
  now apply consistent_delete_videos.
Qed.

Lemma documents_getByProject_keeps ctx pid :
  keeps (appRouter.documents.getByProject ctx pid) anything.
Proof. intros t tr n Hc. done_with Hc. Qed.

Lemma documents_listAll_keeps ctx :
  keeps (appRouter.documents.listAll ctx) anything.
Proof. intros t tr n Hc. done_with Hc. Qed.

Lemma documents_generate_keeps E ctx pid :
  keeps (appRouter.documents.generate E ctx pid) anything.
Proof.
  intros t tr n Hc. unfold appRouter.documents.generate.
  unfold bind at 1. rewrite getProjectById_run.
  destruct (findProject _ _ _) as [p|]; [|done_with Hc].
  unfold bind at 1. rewrite getVideosByProjectId_run.
  destruct (_ =? 0); [done_with Hc|].
  unfold bind at 1. rewrite getDocumentByProjectId_run.
  unfold bind at 1.
  set (input := DocumentGenerationInput.mk _ _ _ _ _).
  destruct (keeps_talks_only _ _
              (generateProjectDocument_talks_only E input) t tr n Hc)
    as (r & t' & tr' & -> & _ & ->).
  destruct r as [e|generated]; [done_with Hc|].
  destruct (currentDocument pid (uid ctx) t) as [d|].
  - rewrite updateDocument_run.
    eexists. eexists. eexists. split; [reflexivity|]. split; [|exact I].
    now apply consistent_update_documents.
  - rewrite createDocument_run.
    eexists. eexists. eexists. split; [reflexivity|]. split; [|exact I].
    now apply consistent_insert_document.
Qed.

Lemma documents_update_keeps ctx id content :
  keeps (appRouter.documents.update ctx id content) anything.
Proof.
  intros t tr n Hc. unfold appRouter.documents.update.
  rewrite updateDocument_run.
  eexists. eexists. eexists. split; [reflexivity|]. split; [|exact I].
  now apply consistent_update_documents.
Qed.

Lemma documents_delete_keeps ctx id :
  keeps (appRouter.documents.delete ctx id) anything.
Proof.
  intros t tr n Hc. unfold appRouter.documents.delete, bind.
  rewrite deleteDocument_run.
  eexists. eexists. eexists. split; [reflexivity|]. split; [|exact I].
  now apply consistent_delete_documents.
Qed.

Lemma stats_dashboard_keeps ctx :
  keeps (appRouter.stats.dashboard ctx) anything.
Proof. intros t tr n Hc. done_with Hc. Qed.

(** Every request keeps the tables connected and consistent. *)
Lemma handle_keeps E ctx req t tr n :
  consistent t ->
  exists t' tr',
    handle E ctx req (mkWorld (Some t) tr n) = mkWorld (Some t') tr' n
    /\ consistent t'.
Proof.
  intros Hc.
  assert (H : forall (A : Type) (m : M A),
             keeps m anything ->
             exists t' tr',
               after m (mkWorld (Some t) tr n) = mkWorld (Some t') tr' n
               /\ consistent t').
  { intros A m Hm. destruct (Hm t tr n Hc) as (r & t' & tr' & E' & Hc' & _).
    exists t', tr'. unfold after. now rewrite E'. }
  destruct req; cbn [handle]; apply H.
  - apply projects_list_keeps.
  - apply projects_get_keeps.
  - apply projects_getNewIdeas_keeps.
  - apply projects_create_keeps.
  - apply projects_update_keeps.
  - apply projects_delete_keeps.
  - apply projects_generateThumbnail_keeps.
  - apply videos_listByProject_keeps.
  - apply videos_listAll_keeps.
  - apply videos_get_keeps.
  - apply videos_upload_keeps.
  - apply videos_transcribe_keeps.
  - apply videos_reassign_keeps.
  - apply videos_delete_keeps.
  - apply documents_getByProject_keeps.
  - apply documents_listAll_keeps.
  - apply documents_generate_keeps.
  - apply documents_update_keeps.
  - apply documents_delete_keeps.
  - apply stats_dashboard_keeps.
Qed.

Lemma reachable_consistent w :
  reachable w -> exists t, database w = Some t /\ consistent t.
Proof.
  induction 1 as [tr n | w n _ IH | E ctx req w _ IH].
  - exists empty_tables. split; [reflexivity | apply consistent_empty].
  - exact IH.
  - destruct IH as (t & Hdb & Hc).
    rewrite (connected w t Hdb).
    destruct (handle_keeps E ctx req t (trace w) (now w) Hc)
      as (t' & tr' & -> & Hc').
    now exists t'.
Qed.

(* ================================================================== *)
(** ** The new-ideas project *)
(* ================================================================== *)

Lemma find_none_all (A : Type) (f : A -> bool) (l : list A) :
  (forall r, In r l -> f r = false) -> find f l = None.
Proof.
  induction l as [|y l IH]; simpl; intros H; [reflexivity|].
  rewrite (H y (or_introl eq_refl)). apply IH. intros r Hr. apply H. now right.
Qed.

Lemma find_pointwise (A : Type) (f g : A -> bool) (l : list A) :
  (forall r, f r = g r) -> find f l = find g l.
Proof.
  intros H. induction l as [|y l IH]; simpl; [reflexivity|].
  rewrite H. destruct (g y); [reflexivity | exact IH].
Qed.

Lemma find_by_id_and (A : Type) (id : A -> nat) (c : A -> bool)
      (l : list A) (x : A) :
  NoDup (map id l) -> In x l ->
  find (fun r => (id r =? id x) && c r) l = if c x then Some x else None.
Proof.
  induction l as [|y l IH]; simpl; intros Hnd Hin; [contradiction|].
  inversion Hnd as [|? ? Hy Hl]; subst.
  destruct Hin as [->|Hin].
  - rewrite Nat.eqb_refl. cbn [andb]. destruct (c x) eqn:E; [reflexivity|].
    apply find_none_all. intros r Hr.
    destruct (id r =? id x) eqn:E'; [|reflexivity].
    apply Nat.eqb_eq in E'. exfalso. apply Hy. rewrite <- E'.
    now apply in_map.
  - destruct (id y =? id x) eqn:E; [|now apply IH].
    apply Nat.eqb_eq in E. exfalso. apply Hy. rewrite E. now apply in_map.
Qed.

Lemma findProject_owner t p u :
  consistent t -> In p (projects t) ->
  findProject (Project.id p) u t
  = if Project.userId p =? u then Some p else None.
Proof.
  intros Hc Hin. unfold findProject.
  apply (find_by_id_and _ Project.id (fun q => Project.userId q =? u));
    [apply (project_ids_unique Hc) | exact Hin].
Qed.

Lemma newIdeasOf_find u t :
  find (fun p => (Project.userId p =? u)
                 && Bool.eqb (Project.isNewIdeas p) true) (projects t)
  = hd_error (newIdeasOf u t).
Proof.
  unfold newIdeasOf. rewrite hd_error_filter. apply find_pointwise.
  intros p. now destruct (Project.isNewIdeas p).
Qed.

(** C4, as the code has it.  In every world the server can reach, a user
    has at most one new-ideas project.  The first access of a user who
    has none inserts it with the fixed name, description and color, and a
    later access finds it and writes nothing.  Deleting it fails for
    every caller, whatever the caller's role, and leaves the world as it
    was: with FORBIDDEN for its owner, with NOT_FOUND for anybody else,
    administrators included. *)
Theorem C4_one_protected_new_ideas_project :
  forall w,
    reachable w ->
    exists t,
      database w = Some t
      /\ (forall u, length (newIdeasOf u t) <= 1)
      /\ (forall u,
             match newIdeasOf u t with
             | [] =>
               exists p t',
                 database (snd (db.getOrCreateNewIdeasProject u w)) = Some t'
                 /\ projects t' = projects t ++ [p]
                 /\ newIdeasOf u t' = [p]
                 /\ Project.userId p = u
                 /\ Project.isNewIdeas p = true
                 /\ Project.name p = js "Nouvelles idées"
                 /\ Project.description p
                    = Some (js "Catégorie pour les nouvelles idées non encore assignées à un projet")
                 /\ Project.color p = Some (js "#8B5CF6")
             | p :: _ =>
               db.getOrCreateNewIdeasProject u w = (inr (Some p), w)
             end)
      /\ (forall ctx p,
             In p (projects t) ->
             Project.isNewIdeas p = true ->
             appRouter.projects.delete ctx (Project.id p) w
             = (inl (if Project.userId p =? uid ctx
                     then Forbidden
                     else NotFound (js "Project not found")), w)).
Proof.
  intros w Hw. destruct (reachable_consistent w Hw) as (t & Hdb & Hc).
  exists t. split; [exact Hdb|]. split; [apply (one_new_ideas Hc)|].
  rewrite (connected w t Hdb). split.
  - intros u. rewrite getOrCreateNewIdeasProject_run, newIdeasOf_find.
    destruct (newIdeasOf u t) as [|p l] eqn:Hn; [|reflexivity].
    rewrite createProject_run. cbn [snd database hd_error].
    eexists. eexists. split; [reflexivity|].
    split; [reflexivity|]. split.
    + unfold newIdeasOf. cbn [db.insert_project projects].
      rewrite filter_app. fold (newIdeasOf u t). rewrite Hn.
      cbn. now rewrite Nat.eqb_refl.
    + cbn. repeat split.
  - intros ctx p Hin Hnew. unfold appRouter.projects.delete.
    unfold bind at 1. rewrite getProjectById_run.
    rewrite (findProject_owner t p (uid ctx) Hc Hin).
    destruct (Project.userId p =? uid ctx); [|reflexivity].
    now rewrite Hnew.
Qed.

(* ================================================================== *)
(** ** Concrete runs *)
(* ================================================================== *)

Lemma some_eq (A : Type) (a b : A) : Some a = Some b -> a = b.
Proof. intros H. now injection H. Qed.

Lemma reachable_world3 : reachable world3.
Proof.
  unfold world3, world2, world1, world0.
  repeat apply reachable_request. apply reachable_start.
Qed.

Lemma consistent_world3 : consistent (tablesOf world3).
Proof.
  destruct (reachable_consistent world3 reachable_world3) as (t & Hdb & Hc).
  unfold tablesOf. now rewrite Hdb.
Qed.

Lemma consistent_world1 : consistent (tablesOf world1).
Proof.
  assert (Hw : reachable world1).
  { unfold world1, world0. apply reachable_request. apply reachable_start. }
  destruct (reachable_consistent world1 Hw) as (t & Hdb & Hc).
  unfold tablesOf. now rewrite Hdb.
Qed.

Lemma C1_witness :
  fst (appRouter.documents.generate env0 alice 1 world3) = inl NoContentError
  /\ snd (appRouter.documents.generate env0 alice 1 world3) = world3
  /\ filter is_generation_call
       (trace (snd (appRouter.documents.generate env0 alice 1 world3)))
     = filter is_generation_call (trace world3).
Proof.
  apply (C1_no_transcribed_video_no_content env0 alice 1 world3
           (tablesOf world3) (projectOf 1 1 world3));
    vm_compute; reflexivity.
Defined.

Lemma C2_witness :
  exists d t',
    fst (appRouter.documents.generate env0 alice 2 world3) = inr (Some d)
    /\ database (snd (appRouter.documents.generate env0 alice 2 world3))
       = Some t'
    /\ In d (documents t')
    /\ Document.version d = 2
    /\ Document.videosIncorporated d = 1.
Proof.
  assert (H1 : database world3 = Some (tablesOf world3))
    by (vm_compute; reflexivity).
  assert (H2 : findProject 2 (uid alice) (tablesOf world3)
               = Some (projectOf 2 1 world3)) by (vm_compute; reflexivity).
  assert (H3 : fst (appRouter.documents.generate env0 alice 2 world3)
               = inr (answerOf
                        (fst (appRouter.documents.generate env0 alice 2
                                world3)))) by (vm_compute; reflexivity).
  pose proof (C2_synthesis_bumps_version env0 alice 2 world3
                (tablesOf world3) (projectOf 2 1 world3) _
                H1 consistent_world3 H2 H3) as H.
  destruct H as (d & t' & Hr & Hdb & Hin & Hp & Hv & Hn & Hver).
  exists d, t'. rewrite H3, Hr.
  split; [reflexivity|]. split; [exact Hdb|]. split; [exact Hin|].
  assert (E1 : currentDocument 2 (uid alice) (tablesOf world3)
               = Some (documentOf 1 world3)) by (vm_compute; reflexivity).
  assert (E2 : length (transcribedIn 2 (tablesOf world3)) = 1)
    by (vm_compute; reflexivity).
  assert (E3 : Document.version (documentOf 1 world3) + 1 = 2)
    by (vm_compute; reflexivity).
  rewrite E1 in Hver. rewrite E2 in Hv. destruct Hver as [_ Hver].
  rewrite E3 in Hver. split; [exact Hver | exact Hv].
Defined.



Lemma C4_witness :
  reachable world3
  /\ In (projectOf 1 1 world3) (projects (tablesOf world3))
  /\ Project.isNewIdeas (projectOf 1 1 world3) = true
  /\ Project.userId (projectOf 1 1 world3) = uid alice
  /\ length (newIdeasOf (uid alice) (tablesOf world3)) <= 1
  /\ appRouter.projects.delete alice (Project.id (projectOf 1 1 world3))
        world3
     = (inl (if Project.userId (projectOf 1 1 world3) =? uid alice
             then Forbidden
             else NotFound (js "Project not found")), world3)
  /\ appRouter.projects.delete root (Project.id (projectOf 1 1 world3))
        world3
     = (inl (if Project.userId (projectOf 1 1 world3) =? uid root
             then Forbidden
             else NotFound (js "Project not found")), world3).
Proof.
  assert (Hin : In (projectOf 1 1 world3) (projects (tablesOf world3)))
    by (vm_compute; left; reflexivity).
  assert (Hnew : Project.isNewIdeas (projectOf 1 1 world3) = true)
    by (vm_compute; reflexivity).
  assert (Hu : Project.userId (projectOf 1 1 world3) = uid alice)
    by (vm_compute; reflexivity).
  assert (H1 : database world3 = Some (tablesOf world3))
    by (vm_compute; reflexivity).
  destruct (C4_one_protected_new_ideas_project world3 reachable_world3)
    as (t & Hdb & Hone & _ & Hdel).
  pose proof (some_eq _ _ _ (eq_trans (eq_sym Hdb) H1)) as Et. subst t.
  split; [exact reachable_world3|]. split; [exact Hin|].
  split; [exact Hnew|]. split; [exact Hu|].
  split; [exact (Hone (uid alice))|].
  split; [exact (Hdel alice (projectOf 1 1 world3) Hin Hnew)|].
  exact (Hdel root (projectOf 1 1 world3) Hin Hnew).
Defined.

(** An administrator asks for the deletion of the new-ideas project of
    another user: the answer is NOT_FOUND, not FORBIDDEN. *)
Lemma C4_counterexample :
  In (projectOf 1 1 world3) (projects (tablesOf world3))
  /\ Project.isNewIdeas (projectOf 1 1 world3) = true
  /\ User.role (Context.user root) = role_admin
  /\ appRouter.projects.delete root (Project.id (projectOf 1 1 world3))
        world3
     = (inl (NotFound (js "Project not found")), world3)
  /\ fst (appRouter.projects.delete root (Project.id (projectOf 1 1 world3))
            world3)
     <> inl Forbidden.
Proof.
  split; [vm_compute; left; reflexivity|].
  split; [vm_compute; reflexivity|]. split; [reflexivity|].
  split; [vm_compute; reflexivity|].
  vm_compute. discriminate.
Qed.

Lemma C5_witness :
  fst (transcribeWithGemini env_malformed
         (js "https://storage.example/video.webm") world1)
  = inl (SyntaxError (js "Unexpected token in JSON"))
  /\ fst (transcribeWithGemini env_malformed
            (js "https://storage.example/video.webm") world1)
     <> inr (fallbackResult env_malformed
               (js "Phoenix est un projet de refonte.")).
Proof.
  apply (C5_malformed_json_is_thrown env_malformed
           (js "https://storage.example/video.webm") world1
           (js "Phoenix est un projet de refonte.")
           (js "Voici le JSON: {oops}")
           (MatchResult 15 (js "{oops}") []));
    vm_compute; reflexivity.
Defined.

Lemma C7_witness :
  Document.version (documentOf 1 world3) = 1
  /\ exists d',
      fst (appRouter.documents.update alice 1 (js "# Phoenix, revu") world3)
      = inr (Some d')
      /\ Document.id d' = 1
      /\ Document.content d' = js "# Phoenix, revu"
      /\ Document.version d' = Document.version (documentOf 1 world3).
Proof.
  split; [vm_compute; reflexivity|].
  apply (C7_manual_edit_keeps_version alice 1 (js "# Phoenix, revu")
           world3 (tablesOf world3) (documentOf 1 world3)).
  - vm_compute. reflexivity.
  - exact consistent_world3.
  - vm_compute. left. reflexivity.
  - vm_compute. reflexivity.
  - vm_compute. reflexivity.
Defined.



Lemma C10_witness :
  fst (appRouter.documents.delete alice 99 world3) = inr success_true
  /\ snd (appRouter.documents.delete alice 99 world3) = world3
  /\ appRouter.projects.delete alice 99 world3
     = (inl (TRPCError NOT_FOUND (js "Project not found")), world3)
  /\ appRouter.videos.delete alice 99 world3
     = (inl (TRPCError NOT_FOUND (js "Video not found")), world3).
Proof.
  assert (H0 : database world3 = Some (tablesOf world3))
    by (vm_compute; reflexivity).
  destruct (C10_document_delete_never_fails alice 99 world3 (tablesOf world3)
              H0) as (H1 & H2 & H3 & H4).
  split; [exact H1|].
  split; [apply H2; vm_compute; reflexivity|].
  split; [apply H3 | apply H4]; vm_compute; reflexivity.
Defined.

(* ================================================================== *)
(* ================================================================== *)
(** * Further properties *)
(* ================================================================== *)
(* ================================================================== *)

Import Query.

Lemma database_world3 : database world3 = Some (tablesOf world3).
Proof. vm_compute. reflexivity. Qed.

Lemma database_world1 : database world1 = Some (tablesOf world1).
Proof. vm_compute. reflexivity. Qed.

(* ================================================================== *)
(** ** What a request can change *)
(* ================================================================== *)

Section Changes.

Context {R : Tables -> Tables -> Prop} `{PreOrder Tables R}.

Lemma lifted_refl (o : option Tables) : lifted R o o.
Proof. destruct o; cbn; [reflexivity | exact I]. Qed.

Lemma lifted_trans (a b c : option Tables) :
  lifted R a b -> lifted R b c -> lifted R a c.
Proof.
  destruct a, b, c; cbn; try tauto. intros; now transitivity t0.
Qed.

Lemma changes_ret (A : Type) (a : A) : changes R (ret a).
Proof. intros w. apply lifted_refl. Qed.

Lemma changes_throw (A : Type) (e : exn) : changes R (@throw A e).
Proof. intros w. apply lifted_refl. Qed.

Lemma changes_call (A : Type) (c : Call) (f : list Call -> exn + A) :
  changes R (call c f).
Proof. intros w. apply lifted_refl. Qed.

Lemma changes_read (A : Type) (f : World -> A) :
  changes R (fun w => (inr (f w), w)).
Proof. intros w. apply lifted_refl. Qed.

Lemma changes_bind (A B : Type) (m : M A) (k : A -> M B) :
  changes R m -> (forall a, changes R (k a)) -> changes R (bind m k).
Proof.
  intros Hm Hk w. unfold bind. specialize (Hm w).
  destruct (m w) as [[e|a] w1]; cbn [snd] in *; [exact Hm|].
  apply lifted_trans with (b := database w1); [exact Hm | apply Hk].
Qed.

Lemma changes_try_catch (A : Type) (m : M A) (h : exn -> M A) :
  changes R m -> (forall e, changes R (h e)) -> changes R (try_catch m h).
Proof.
  intros Hm Hh w. unfold try_catch. specialize (Hm w).
  destruct (m w) as [[e|a] w1]; cbn [snd] in *; [|exact Hm].
  apply lifted_trans with (b := database w1); [exact Hm | apply Hh].
Qed.

Lemma changes_talks_only (A : Type) (m : M A) :
  talks_only m -> changes R m.
Proof.
  intros Hm w. destruct (Hm w) as [-> _]. apply lifted_refl.
Qed.

Lemma changes_getDb : changes R db.getDb.
Proof.
  intros w. unfold db.getDb. destruct (database w) eqn:Hw; cbn [snd];
    rewrite Hw; apply lifted_refl.
Qed.

Lemma changes_new_Date : changes R new_Date.
Proof. intros w. apply lifted_refl. Qed.

Lemma changes_query (A : Type) (f : Tables -> A) : changes R (db.query f).
Proof.
  intros w. unfold db.query. destruct (database w) eqn:Hw; cbn [snd];
    rewrite Hw; apply lifted_refl.
Qed.

Lemma changes_execute (f : Tables -> Tables) :
  (forall t, R t (f t)) -> changes R (db.execute f).
Proof.
  intros Hf w. unfold db.execute. cbn.
  destruct (database w); cbn; [apply Hf | exact I].
Qed.

(** Handler code is taken apart into the statements it runs. *)
Ltac changes_step :=
  lazymatch goal with
  | |- changes _ (ret _) => apply changes_ret
  | |- changes _ (throw _) => apply changes_throw
  | |- changes _ (call _ _) => apply changes_call
  | |- changes _ db.getDb => apply changes_getDb
  | |- changes _ new_Date => apply changes_new_Date
  | |- changes _ (db.query _) => apply changes_query
  | |- changes _ (bind _ _) => apply changes_bind; [|intros ?]
  | |- changes _ (try_catch _ _) => apply changes_try_catch; [|intros ?]
  | |- changes _ (match ?x with _ => _ end) => destruct x
  | |- changes _ (transcribeWithGemini _ _) =>
    apply changes_talks_only, transcribeWithGemini_talks_only
  | |- changes _ (generateProjectDocument _ _) =>
    apply changes_talks_only, generateProjectDocument_talks_only
  | |- changes _ (generateThumbnailPrompt _ _ _) =>
    apply changes_talks_only, generateThumbnailPrompt_talks_only
  | |- changes _ (fun w => (inr _, w)) => apply changes_read
  end.

(** *** The helpers that read *)

Lemma changes_getProjectsByUserId u : changes R (db.getProjectsByUserId u).
Proof. unfold db.getProjectsByUserId. repeat changes_step. Qed.

Lemma changes_getProjectById i u : changes R (db.getProjectById i u).
Proof. unfold db.getProjectById. repeat changes_step. Qed.

Lemma changes_getProjectByName s u : changes R (db.getProjectByName s u).
Proof. unfold db.getProjectByName. repeat changes_step. Qed.

Lemma changes_getVideosByProjectId i u :
  changes R (db.getVideosByProjectId i u).
Proof. unfold db.getVideosByProjectId. repeat changes_step. Qed.

Lemma changes_getVideoById i u : changes R (db.getVideoById i u).
Proof. unfold db.getVideoById. repeat changes_step. Qed.

Lemma changes_getVideosByUserId u : changes R (db.getVideosByUserId u).
Proof. unfold db.getVideosByUserId. repeat changes_step. Qed.

Lemma changes_countVideosByProjectId i :
  changes R (db.countVideosByProjectId i).
Proof. unfold db.countVideosByProjectId. repeat changes_step. Qed.

Lemma changes_getDocumentByProjectId i u :
  changes R (db.getDocumentByProjectId i u).
Proof. unfold db.getDocumentByProjectId. repeat changes_step. Qed.

Lemma changes_getDocumentsByUserId u : changes R (db.getDocumentsByUserId u).
Proof. unfold db.getDocumentsByUserId. repeat changes_step. Qed.

(** *** The helpers that write, for a caller [u] *)

Variable ctx : Context.t.
Let u := uid ctx.

Hypothesis R_insert_project : forall p at_ t,
  InsertProject.userId p = u -> R t (db.insert_project p at_ t).
Hypothesis R_update_project : forall i d at_ t,
  PartialProject.userId d = None ->
  R t (db.with_projects (update (owns_project u i) (db.set_project d at_)) t).
Hypothesis R_delete_project : forall i t,
  R t (db.with_projects (delete (owns_project u i)) t).
Hypothesis R_insert_video : forall v at_ t,
  InsertVideo.userId v = u -> R t (db.insert_video v at_ t).
Hypothesis R_update_video : forall i d at_ t,
  R t (db.with_videos (update (owns_video u i) (db.set_video d at_)) t).
Hypothesis R_delete_video : forall i t,
  R t (db.with_videos (delete (owns_video u i)) t).
Hypothesis R_insert_document : forall d at_ t,
  InsertDocument.userId d = u -> R t (db.insert_document d at_ t).
Hypothesis R_update_document : forall i d at_ t,
  R t (db.with_documents (update (owns_document u i) (db.set_document d at_)) t).
Hypothesis R_delete_document : forall i t,
  R t (db.with_documents (delete (owns_document u i)) t).

Lemma changes_createProject p :
  InsertProject.userId p = u -> changes R (db.createProject p).
Proof.
  intros Hp. unfold db.createProject. repeat changes_step.
  apply changes_execute. intros t. now apply R_insert_project.
Qed.

Lemma changes_getOrCreateNewIdeasProject :
  changes R (db.getOrCreateNewIdeasProject u).
Proof.
  unfold db.getOrCreateNewIdeasProject. repeat changes_step.
  now apply changes_createProject.
Qed.

Lemma changes_updateProject i d :
  PartialProject.userId d = None -> changes R (db.updateProject i u d).
Proof.
  intros Hd. unfold db.updateProject. repeat changes_step.
  - apply changes_execute. intros t. now apply (R_update_project i).
  - apply changes_getProjectById.
Qed.

Lemma changes_deleteProject i : changes R (db.deleteProject i u).
Proof.
  unfold db.deleteProject. repeat changes_step.
  apply changes_execute. intros t. apply (R_delete_project i).
Qed.

Lemma changes_createVideo v :
  InsertVideo.userId v = u -> changes R (db.createVideo v).
Proof.
  intros Hv. unfold db.createVideo. repeat changes_step.
  apply changes_execute. intros t. now apply R_insert_video.
Qed.

Lemma changes_updateVideo i d : changes R (db.updateVideo i u d).
Proof.
  unfold db.updateVideo. repeat changes_step.
  - apply changes_execute. intros t. apply (R_update_video i).
  - apply changes_getVideoById.
Qed.

Lemma changes_deleteVideo i : changes R (db.deleteVideo i u).
Proof.
  unfold db.deleteVideo. repeat changes_step.
  apply changes_execute. intros t. apply (R_delete_video i).
Qed.

Lemma changes_createDocument d :
  InsertDocument.userId d = u -> changes R (db.createDocument d).
Proof.
  intros Hd. unfold db.createDocument. repeat changes_step.
  apply changes_execute. intros t. now apply R_insert_document.
Qed.

Lemma changes_updateDocument i d : changes R (db.updateDocument i u d).
Proof.
  unfold db.updateDocument. repeat changes_step.
  apply changes_execute. intros t. apply (R_update_document i).
Qed.

Lemma changes_deleteDocument i : changes R (db.deleteDocument i u).
Proof.
  unfold db.deleteDocument. repeat changes_step.
  apply changes_execute. intros t. apply (R_delete_document i).
Qed.


(** *** The procedures *)

Ltac handler_step :=
  lazymatch goal with
  | |- changes _ (db.getProjectsByUserId _) => apply changes_getProjectsByUserId
  | |- changes _ (db.getProjectById _ _) => apply changes_getProjectById
  | |- changes _ (db.getProjectByName _ _) => apply changes_getProjectByName
  | |- changes _ (db.getVideosByProjectId _ _) =>
    apply changes_getVideosByProjectId
  | |- changes _ (db.getVideoById _ _) => apply changes_getVideoById
  | |- changes _ (db.getVideosByUserId _) => apply changes_getVideosByUserId
  | |- changes _ (db.getDocumentByProjectId _ _) =>
    apply changes_getDocumentByProjectId
  | |- changes _ (db.getDocumentsByUserId _) =>
    apply changes_getDocumentsByUserId
  | |- changes _ (db.createProject _) =>
    apply changes_createProject; reflexivity
  | |- changes _ (db.getOrCreateNewIdeasProject _) =>
    apply changes_getOrCreateNewIdeasProject
  | |- changes _ (db.updateProject _ _ _) =>
    apply changes_updateProject; reflexivity
  | |- changes _ (db.deleteProject _ _) => apply changes_deleteProject
  | |- changes _ (db.createVideo _) => apply changes_createVideo; reflexivity
  | |- changes _ (db.updateVideo _ _ _) => apply changes_updateVideo
  | |- changes _ (db.deleteVideo _ _) => apply changes_deleteVideo
  | |- changes _ (db.createDocument _) =>
    apply changes_createDocument; reflexivity
  | |- changes _ (db.updateDocument _ _ _) => apply changes_updateDocument
  | |- changes _ (db.deleteDocument _ _) => apply changes_deleteDocument
  | |- _ => changes_step
  end.

Lemma changes_projects_list : changes R (appRouter.projects.list ctx).
Proof. unfold appRouter.projects.list. repeat handler_step. Qed.

Lemma changes_projects_get id : changes R (appRouter.projects.get ctx id).
Proof. unfold appRouter.projects.get. repeat handler_step. Qed.

Lemma changes_projects_getNewIdeas :
  changes R (appRouter.projects.getNewIdeas ctx).
Proof. unfold appRouter.projects.getNewIdeas. repeat handler_step. Qed.

Lemma changes_projects_create E input :
  changes R (appRouter.projects.create E ctx input).
Proof. unfold appRouter.projects.create. repeat handler_step. Qed.

Lemma changes_projects_update E input :
  changes R (appRouter.projects.update E ctx input).
Proof. unfold appRouter.projects.update. repeat handler_step. Qed.

Lemma changes_projects_delete id :
  changes R (appRouter.projects.delete ctx id).
Proof. unfold appRouter.projects.delete. repeat handler_step. Qed.

Lemma changes_projects_generateThumbnail E id :
  changes R (appRouter.projects.generateThumbnail E ctx id).
Proof. unfold appRouter.projects.generateThumbnail. repeat handler_step. Qed.

Lemma changes_videos_listByProject pid :
  changes R (appRouter.videos.listByProject ctx pid).
Proof. unfold appRouter.videos.listByProject. repeat handler_step. Qed.

Lemma changes_videos_listAll : changes R (appRouter.videos.listAll ctx).
Proof. unfold appRouter.videos.listAll. repeat handler_step. Qed.

Lemma changes_videos_get id : changes R (appRouter.videos.get ctx id).
Proof. unfold appRouter.videos.get. repeat handler_step. Qed.

Lemma changes_videos_upload E input :
  changes R (appRouter.videos.upload E ctx input).
Proof. unfold appRouter.videos.upload. cbv zeta. repeat handler_step. Qed.

Lemma changes_targetProject E video result :
  changes R (appRouter.videos.targetProject E ctx video result).
Proof. unfold appRouter.videos.targetProject. repeat handler_step. Qed.

Lemma changes_videos_transcribe E id :
  changes R (appRouter.videos.transcribe E ctx id).
Proof.
  unfold appRouter.videos.transcribe, appRouter.videos.transcribe_try,
    appRouter.videos.transcribe_catch.
  repeat first [ apply changes_targetProject | handler_step ].
Qed.

Lemma changes_videos_reassign id pid :
  changes R (appRouter.videos.reassign ctx id pid).
Proof. unfold appRouter.videos.reassign. repeat handler_step. Qed.

Lemma changes_videos_delete id : changes R (appRouter.videos.delete ctx id).
Proof. unfold appRouter.videos.delete. repeat handler_step. Qed.

Lemma changes_documents_getByProject pid :
  changes R (appRouter.documents.getByProject ctx pid).
Proof. unfold appRouter.documents.getByProject. repeat handler_step. Qed.

Lemma changes_documents_listAll : changes R (appRouter.documents.listAll ctx).
Proof. unfold appRouter.documents.listAll. repeat handler_step. Qed.

Lemma changes_documents_generate E pid :
  changes R (appRouter.documents.generate E ctx pid).
Proof. unfold appRouter.documents.generate. repeat handler_step. Qed.

Lemma changes_documents_update id content :
  changes R (appRouter.documents.update ctx id content).
Proof. unfold appRouter.documents.update. repeat handler_step. Qed.

Lemma changes_documents_delete id :
  changes R (appRouter.documents.delete ctx id).
Proof. unfold appRouter.documents.delete. repeat handler_step. Qed.

Lemma changes_stats_dashboard : changes R (appRouter.stats.dashboard ctx).
Proof. unfold appRouter.stats.dashboard. repeat handler_step. Qed.

Lemma changes_handle E req w :
  lifted R (database w) (database (handle E ctx req w)).
Proof.
  destruct req; cbn [handle]; unfold after.
  - apply changes_projects_list.
  - apply changes_projects_get.
  - apply changes_projects_getNewIdeas.
  - apply changes_projects_create.
  - apply changes_projects_update.
  - apply changes_projects_delete.
  - apply changes_projects_generateThumbnail.
  - apply changes_videos_listByProject.
  - apply changes_videos_listAll.
  - apply changes_videos_get.
  - apply changes_videos_upload.
  - apply changes_videos_transcribe.
  - apply changes_videos_reassign.
  - apply changes_videos_delete.
  - apply changes_documents_getByProject.
  - apply changes_documents_listAll.
  - apply changes_documents_generate.
  - apply changes_documents_update.
  - apply changes_documents_delete.
  - apply changes_stats_dashboard.
Qed.

End Changes.

(* ================================================================== *)
(** ** The rows of the other users *)
(* ================================================================== *)

Section RowFilters.
Variable A : Type.
Variables (q c : A -> bool) (f : A -> A).

Lemma filter_update_others (l : list A) :
  (forall r, c r = true -> q r = false /\ q (f r) = false) ->
  filter q (update c f l) = filter q l.
Proof.
  intros Hc. unfold update. induction l as [|r l IH]; [reflexivity|].
  cbn [map filter]. rewrite IH. destruct (c r) eqn:Cr; [|reflexivity].
  destruct (Hc r Cr) as [-> ->]. reflexivity.
Qed.

Lemma filter_delete_others (l : list A) :
  (forall r, c r = true -> q r = false) ->
  filter q (delete c l) = filter q l.
Proof.
  intros Hc. unfold delete. induction l as [|r l IH]; [reflexivity|].
  cbn [filter]. destruct (c r) eqn:Cr; cbn [negb filter].
  - rewrite (Hc r Cr). exact IH.
  - now rewrite IH.
Qed.

Lemma filter_insert_others (l : list A) (x : A) :
  q x = false -> filter q (l ++ [x]) = filter q l.
Proof.
  intros Hx. rewrite filter_app. cbn. rewrite Hx. apply app_nil_r.
Qed.

End RowFilters.

#[local] Instance same_others_preorder (u : nat) : PreOrder (same_others u).
Proof.
  split.
  - intros t. reflexivity.
  - intros a b c Hab Hbc. unfold same_others in *. congruence.
Qed.

Lemma negb_eqb_same (u : nat) : negb (u =? u) = false.
Proof. now rewrite Nat.eqb_refl. Qed.

(** X1.  a request changes, adds or removes no row of another user. *)
Theorem request_leaves_the_rows_of_others :
  forall E ctx req w,
    option_map (others (uid ctx)) (database (handle E ctx req w))
    = option_map (others (uid ctx)) (database w).
Proof.
  intros E ctx req w.
  assert (L : lifted (same_others (uid ctx)) (database w)
                (database (handle E ctx req w))).
  { apply (changes_handle ctx); unfold same_others, others.
    - intros p at_ t Hp. cbn. rewrite filter_insert_others; [reflexivity|].
      cbn. rewrite Hp. apply negb_eqb_same.
    - intros i d at_ t Hd. cbn. rewrite filter_update_others; [reflexivity|].
      intros r Hr. apply andb_prop in Hr as [_ Hr]. cbn. rewrite Hd. cbn.
      now rewrite Hr.
    - intros i t. cbn. rewrite filter_delete_others; [reflexivity|].
      intros r Hr. apply andb_prop in Hr as [_ Hr]. now rewrite Hr.
    - intros v at_ t Hv. cbn. rewrite filter_insert_others; [reflexivity|].
      cbn. rewrite Hv. apply negb_eqb_same.
    - intros i d at_ t. cbn. rewrite filter_update_others; [reflexivity|].
      intros r Hr. apply andb_prop in Hr as [_ Hr]. cbn. now rewrite Hr.
    - intros i t. cbn. rewrite filter_delete_others; [reflexivity|].
      intros r Hr. apply andb_prop in Hr as [_ Hr]. now rewrite Hr.
    - intros d at_ t Hd. cbn. rewrite filter_insert_others; [reflexivity|].
      cbn. rewrite Hd. apply negb_eqb_same.
    - intros i d at_ t. cbn. rewrite filter_update_others; [reflexivity|].
      intros r Hr. apply andb_prop in Hr as [_ Hr]. cbn. now rewrite Hr.
    - intros i t. cbn. rewrite filter_delete_others; [reflexivity|].
      intros r Hr. apply andb_prop in Hr as [_ Hr]. now rewrite Hr. }
  destruct (database w), (database (handle E ctx req w)); cbn in *;
    try tauto.
  now f_equal.
Qed.

(* ================================================================== *)
(** ** The tables that a request writes *)
(* ================================================================== *)

#[local] Instance kept_preorder kp kv kd : PreOrder (kept kp kv kd).
Proof.
  split.
  - intros t. unfold kept. tauto.
  - intros a b c (P1 & V1 & D1) (P2 & V2 & D2). unfold kept.
    split; [|split]; intros K;
      [ destruct (P1 K), (P2 K) | destruct (V1 K), (V2 K)
      | destruct (D1 K), (D2 K) ]; split; congruence.
Qed.

Ltac kept_statement :=
  intros; unfold kept; cbn; repeat split; (reflexivity || discriminate).

Lemma handle_kept E ctx req w :
  lifted (kept (negb (writes_projects req)) (negb (writes_videos req))
               (negb (writes_documents req)))
         (database w) (database (handle E ctx req w)).
Proof.
  destruct req; cbn [handle writes_projects writes_videos writes_documents negb];
    unfold after.
  - apply changes_projects_list.
  - apply changes_projects_get.
  - apply changes_projects_getNewIdeas; kept_statement.
  - apply changes_projects_create; kept_statement.
  - apply changes_projects_update; kept_statement.
  - apply changes_projects_delete; kept_statement.
  - apply changes_projects_generateThumbnail; kept_statement.
  - apply changes_videos_listByProject.
  - apply changes_videos_listAll.
  - apply changes_videos_get.
  - apply changes_videos_upload; kept_statement.
  - apply changes_videos_transcribe; kept_statement.
  - apply changes_videos_reassign; kept_statement.
  - apply changes_videos_delete; kept_statement.
  - apply changes_documents_getByProject.
  - apply changes_documents_listAll.
  - apply changes_documents_generate; kept_statement.
  - apply changes_documents_update; kept_statement.
  - apply changes_documents_delete; kept_statement.
  - apply changes_stats_dashboard.
Qed.

(** X2.  a request leaves alone every table that its procedure has no
    statement for, rows and counter, and it neither connects nor
    disconnects the database. *)
Theorem request_footprint :
  forall E ctx req w,
    match database w, database (handle E ctx req w) with
    | Some t, Some t' =>
      (writes_projects req = false ->
       projects t' = projects t /\ next_project_id t' = next_project_id t)
      /\ (writes_videos req = false ->
          videos t' = videos t /\ next_video_id t' = next_video_id t)
      /\ (writes_documents req = false ->
          documents t' = documents t
          /\ next_document_id t' = next_document_id t)
    | None, None => True
    | _, _ => False
    end.
Proof.
  intros E ctx req w. pose proof (handle_kept E ctx req w) as K.
  destruct (database w), (database (handle E ctx req w)); cbn in K;
    try exact K.
  destruct K as (P & V & D).
  split; [|split]; intros Hf; [apply P | apply V | apply D];
    now rewrite Hf.
Qed.

(** X3.  a query other than projects.getNewIdeas leaves the world as it
    was: tables, trace and clock. *)
Theorem queries_change_nothing :
  forall E ctx req w,
    is_query req = true -> handle E ctx req w = w.
Proof.
  intros E ctx req w Hq.
  destruct req; try discriminate Hq; cbn [handle]; unfold after;
    unfold appRouter.projects.list, appRouter.projects.get,
      appRouter.videos.listByProject, appRouter.videos.listAll,
      appRouter.videos.get, appRouter.documents.getByProject,
      appRouter.documents.listAll, appRouter.stats.dashboard,
      db.getProjectsByUserId, db.getProjectById, db.getVideosByProjectId,
      db.getVideosByUserId, db.getVideoById, db.getDocumentByProjectId,
      db.getDocumentsByUserId, bind, db.getDb, db.query, ret, throw;
    destruct (database w) eqn:D; cbn [fst snd]; rewrite ?D;
    repeat match goal with
           | |- context [match ?x with _ => _ end] => destruct x; cbn [fst snd]
           end;
    reflexivity.
Qed.

Lemma queries_change_nothing_witness :
  is_query stats_dashboard = true
  /\ handle env0 alice stats_dashboard world3 = world3.
Proof.
  split; [reflexivity|].
  apply (queries_change_nothing env0 alice stats_dashboard world3).
  reflexivity.
Defined.

(* ================================================================== *)
(** ** Invariants of the tables *)
(* ================================================================== *)

Lemma update_twice (A : Type) (c : A -> bool) (f g : A -> A) (l : list A) :
  (forall r, c (f r) = c r) ->
  update c g (update c f l) = update c (fun r => g (f r)) l.
Proof.
  intros Hc. unfold update. rewrite map_map. apply map_ext. intros r.
  destruct (c r) eqn:Cr; [rewrite Hc, Cr | rewrite Cr]; reflexivity.
Qed.

Lemma forallb_update (A : Type) (q c : A -> bool) (f : A -> A) (l : list A) :
  (forall r, c r = true -> q (f r) = true) ->
  forallb q l = true -> forallb q (update c f l) = true.
Proof.
  intros Hf. unfold update. induction l as [|r l IH]; [reflexivity|].
  cbn. intros H. apply andb_prop in H as [Hr Hl]. rewrite (IH Hl).
  destruct (c r) eqn:Cr; [rewrite (Hf r Cr) | rewrite Hr]; reflexivity.
Qed.

Lemma forallb_update_kept (A : Type) (q c : A -> bool) (f : A -> A)
      (l : list A) :
  (forall r, q r = true -> q (f r) = true) ->
  forallb q l = true -> forallb q (update c f l) = true.
Proof.
  intros Hf. unfold update. induction l as [|r l IH]; [reflexivity|].
  cbn. intros H. apply andb_prop in H as [Hr Hl]. rewrite (IH Hl).
  destruct (c r); [rewrite (Hf r Hr) | rewrite Hr]; reflexivity.
Qed.

Lemma forallb_delete (A : Type) (q c : A -> bool) (l : list A) :
  forallb q l = true -> forallb q (delete c l) = true.
Proof.
  unfold delete. induction l as [|r l IH]; [reflexivity|].
  cbn. intros H. apply andb_prop in H as [Hr Hl].
  destruct (c r); cbn; [auto | now rewrite Hr, IH].
Qed.

Lemma forallb_snoc (A : Type) (q : A -> bool) (l : list A) (x : A) :
  forallb q l = true -> q x = true -> forallb q (l ++ [x]) = true.
Proof. intros Hl Hx. rewrite forallb_app, Hl. cbn. now rewrite Hx. Qed.

(** What a transcription request does to the videos. *)
Lemma transcribe_videos E ctx id t tr n video :
  findVideo id (uid ctx) t = Some video ->
  exists r t' tr' d,
    appRouter.videos.transcribe E ctx id (mkWorld (Some t) tr n)
    = (r, mkWorld (Some t') tr' n)
    /\ finished d = true
    /\ videos t'
       = update (owns_video (uid ctx) id) (db.set_video d n)
           (update (owns_video (uid ctx) id)
              (db.set_video
                 (PartialVideo.mk None None None (Some transcribing) None) n)
              (videos t)).
Proof.
  intros Hv. unfold appRouter.videos.transcribe, appRouter.videos.transcribe_try,
    appRouter.videos.transcribe_catch.
  unfold bind at 1. rewrite getVideoById_run, Hv.
  unfold bind at 1. rewrite updateVideo_run.
  set (t1 := db.with_videos _ t).
  unfold try_catch. unfold bind at 1.
  pose proof (talks_only_world _ _ t1 tr n
                (transcribeWithGemini_talks_only E (Video.videoUrl video)))
    as Hw.
  destruct (transcribeWithGemini E (Video.videoUrl video)
                                 (mkWorld (Some t1) tr n))
    as [[e0|result] w2]; cbn [snd] in Hw; rewrite Hw.
  - unfold bind. rewrite updateVideo_run. cbn [throw].
    eexists. eexists. eexists. eexists. split; [reflexivity|].
    split; [|reflexivity]. reflexivity.
  - unfold bind at 1.
    destruct (targetProject_run E ctx video result t1 (trace w2) n)
      as (r & t2 & Hrun & Hvid & _).
    rewrite Hrun. destruct r as [e1|target].
    + unfold bind. rewrite updateVideo_run. cbn [throw].
      eexists. eexists. eexists. eexists. split; [reflexivity|].
      split; [|cbn [db.with_videos videos]; rewrite Hvid; reflexivity].
      reflexivity.
    + rewrite updateVideo_run.
      eexists. eexists. eexists. eexists. split; [reflexivity|].
      split; [|cbn [db.with_videos videos]; rewrite Hvid; reflexivity].
      reflexivity.
Qed.

(** The key under which an upload is stored. *)
Lemma upload_run E ctx input t tr n :
  let fileExt :=
    match after_last_dot [] (UploadInput.filename input) with
    | [] => js "webm"
    | ext => ext
    end in
  let videoKey :=
    js "videos/" ++ string_of_number (uid ctx) ++ js "/" ++ nanoid E tr
       ++ js "." ++ fileExt in
  let videoBuffer := Buffer_from_base64 E (UploadInput.videoBase64 input) in
  let put := call_storagePut videoKey videoBuffer (UploadInput.mimeType input) in
  let values := fun videoUrl (p : Project.t) =>
    InsertVideo.mk (uid ctx) (Project.id p) (UploadInput.filename input)
      videoUrl videoKey (UploadInput.duration input)
      (Some (UploadInput.fileSize input)) (Some (UploadInput.mimeType input))
      None None (Some uploaded) None in
  appRouter.videos.upload E ctx input (mkWorld (Some t) tr n)
  = match storagePut E tr videoKey videoBuffer (UploadInput.mimeType input) with
    | inl e => (inl e, mkWorld (Some t) (tr ++ [put]) n)
    | inr videoUrl =>
      match hd_error (newIdeasOf (uid ctx) t) with
      | Some p =>
        (inr (find (fun v => jseqb (Video.videoKey v) videoKey)
                   (videos (db.insert_video (values videoUrl p) n t))),
         mkWorld (Some (db.insert_video (values videoUrl p) n t))
                 (tr ++ [put]) n)
      | None =>
        let t1 := db.insert_project (db.newIdeasValues (uid ctx)) n t in
        match created t n (db.newIdeasValues (uid ctx)) with
        | Some p =>
          (inr (find (fun v => jseqb (Video.videoKey v) videoKey)
                     (videos (db.insert_video (values videoUrl p) n t1))),
           mkWorld (Some (db.insert_video (values videoUrl p) n t1))
                   (tr ++ [put]) n)
        | None =>
          (inl (TypeError (typeErrorMessage E)),
           mkWorld (Some t1) (tr ++ [put]) n)
        end
      end
    end.
Proof.
  cbv zeta. unfold appRouter.videos.upload.
  unfold bind at 1. cbn beta iota. cbn [trace].
  unfold bind at 1. unfold call at 1. cbn [trace database now].
  destruct (storagePut E tr _ _ _) as [e|videoUrl]; [reflexivity|].
  unfold bind at 1. rewrite getOrCreateNewIdeasProject_run.
  rewrite newIdeasOf_find.
  destruct (hd_error (newIdeasOf (uid ctx) t)) as [p|].
  - rewrite createVideo_run. reflexivity.
  - rewrite createProject_run.
    destruct (created t n (db.newIdeasValues (uid ctx))) as [p|];
      [|reflexivity].
    rewrite createVideo_run. reflexivity.
Qed.

Lemma reassign_run ctx id projectId t tr n :
  appRouter.videos.reassign ctx id projectId (mkWorld (Some t) tr n)
  = match findVideo id (uid ctx) t with
    | None =>
      (inl (TRPCError NOT_FOUND (js "Video not found")), mkWorld (Some t) tr n)
    | Some _ =>
      match findProject projectId (uid ctx) t with
      | None =>
        (inl (TRPCError NOT_FOUND (js "Project not found")),
         mkWorld (Some t) tr n)
      | Some _ =>
        let t' :=
          db.with_videos
            (update (owns_video (uid ctx) id)
               (db.set_video
                  (PartialVideo.mk (Some projectId) None None None None) n))
            t in
        (inr (findVideo id (uid ctx) t'), mkWorld (Some t') tr n)
      end
    end.
Proof.
  unfold appRouter.videos.reassign.
  unfold bind at 1. rewrite getVideoById_run.
  destruct (findVideo id (uid ctx) t); [|reflexivity].
  unfold bind at 1. rewrite getProjectById_run.
  destruct (findProject projectId (uid ctx) t); [|reflexivity].
  rewrite updateVideo_run. reflexivity.
Qed.

Lemma videos_delete_run ctx id t tr n :
  appRouter.videos.delete ctx id (mkWorld (Some t) tr n)
  = match findVideo id (uid ctx) t with
    | None =>
      (inl (TRPCError NOT_FOUND (js "Video not found")), mkWorld (Some t) tr n)
    | Some _ =>
      (inr success_true,
       mkWorld (Some (db.with_videos (delete (owns_video (uid ctx) id)) t))
               tr n)
    end.
Proof.
  unfold appRouter.videos.delete.
  unfold bind at 1. rewrite getVideoById_run.
  destruct (findVideo id (uid ctx) t); [|reflexivity].
  unfold bind. rewrite deleteVideo_run. reflexivity.
Qed.

Lemma transcribe_not_found E ctx id t tr n :
  findVideo id (uid ctx) t = None ->
  appRouter.videos.transcribe E ctx id (mkWorld (Some t) tr n)
  = (inl (TRPCError NOT_FOUND (js "Video not found")), mkWorld (Some t) tr n).
Proof.
  intros Hv. unfold appRouter.videos.transcribe, appRouter.videos.transcribe_try,
    appRouter.videos.transcribe_catch.
  unfold bind at 1. now rewrite getVideoById_run, Hv.
Qed.

(** Every request leaves the videos settled. *)
Lemma handle_settled E ctx req t tr n t' :
  forallb settled (videos t) = true ->
  database (handle E ctx req (mkWorld (Some t) tr n)) = Some t' ->
  forallb settled (videos t') = true.
Proof.
  intros Hs Hdb.
  destruct (writes_videos req) eqn:Wv.
  - destruct req; try discriminate Wv; cbn [handle] in Hdb; unfold after in Hdb.
    + (* upload *)
      rewrite upload_run in Hdb. cbv zeta in Hdb.
      destruct (storagePut E tr _ _ _) as [e|url]; cbn [snd database] in Hdb.
      { injection Hdb as <-. exact Hs. }
      destruct (hd_error (newIdeasOf (uid ctx) t)) as [p|];
        [|destruct (created t n (db.newIdeasValues (uid ctx))) as [p|]];
        cbn [snd database] in Hdb; injection Hdb as <-;
        cbn [db.insert_video db.insert_project videos];
        try (apply forallb_snoc; [exact Hs | reflexivity]).
      exact Hs.
    + (* transcribe *)
      destruct (findVideo id (uid ctx) t) as [video|] eqn:Hv.
      * destruct (transcribe_videos E ctx id t tr n video Hv)
          as (r & t2 & tr2 & d & Hrun & Hd & Hvid).
        rewrite Hrun in Hdb. cbn [snd database] in Hdb. injection Hdb as <-.
        rewrite Hvid. rewrite update_twice by reflexivity.
        apply forallb_update; [|exact Hs].
        intros v _. unfold settled, finished in *. cbn.
        destruct (PartialVideo.status d) as [[]|]; try discriminate Hd;
          cbn [set]; apply andb_prop in Hd || idtac.
        -- destruct Hd as [H1 H2].
           destruct (PartialVideo.transcription d); [|discriminate].
           destruct (PartialVideo.firstKeyword d); [|discriminate].
           reflexivity.
        -- destruct (PartialVideo.errorMessage d); [|discriminate].
           reflexivity.
      * rewrite (transcribe_not_found E ctx id t tr n Hv) in Hdb.
        cbn [snd database] in Hdb. injection Hdb as <-. exact Hs.
    + (* reassign *)
      rewrite reassign_run in Hdb.
      destruct (findVideo id (uid ctx) t);
        [destruct (findProject projectId (uid ctx) t)|];
        cbn [snd database] in Hdb; injection Hdb as <-; try exact Hs.
      cbn [db.with_videos videos]. apply forallb_update_kept; [|exact Hs].
      intros v Hv. exact Hv.
    + (* delete *)
      rewrite videos_delete_run in Hdb.
      destruct (findVideo id (uid ctx) t);
        cbn [snd database] in Hdb; injection Hdb as <-; try exact Hs.
      cbn [db.with_videos videos]. now apply forallb_delete.
  - pose proof (handle_kept E ctx req (mkWorld (Some t) tr n)) as K.
    cbn [database] in K. rewrite Hdb in K. cbn in K.
    destruct K as (_ & V & _). rewrite Wv in V.
    destruct (V eq_refl) as [-> _]. exact Hs.
Qed.

(** X4.  between two requests no video is left uploading or transcribing; a
    transcribed video has its text and its keyword, a failed one its
    message. *)
Theorem videos_are_settled :
  forall w,
    reachable w ->
    exists t, database w = Some t /\ forallb settled (videos t) = true.
Proof.
  induction 1 as [tr n | w n _ IH | E ctx req w Hr IH].
  - exists empty_tables. split; reflexivity.
  - exact IH.
  - destruct IH as (t & Hdb & Hs).
    destruct (reachable_consistent w Hr) as (t0 & Hdb0 & Hc).
    rewrite Hdb in Hdb0. injection Hdb0 as <-.
    rewrite (connected w t Hdb).
    destruct (handle_keeps E ctx req t (trace w) (now w) Hc)
      as (t' & tr' & Hrun & _).
    exists t'. split; [now rewrite Hrun|].
    apply (handle_settled E ctx req t (trace w) (now w) t' Hs).
    now rewrite Hrun.
Qed.

Lemma videos_are_settled_witness :
  reachable world3
  /\ exists t, database world3 = Some t /\ forallb settled (videos t) = true.
Proof.
  split; [exact reachable_world3|].
  exact (videos_are_settled world3 reachable_world3).
Defined.

(* ------------------------------------------------------------------ *)
(* documents *)

Lemma generate_documents E ctx projectId t tr n :
  exists r t' tr',
    appRouter.documents.generate E ctx projectId (mkWorld (Some t) tr n)
    = (r, mkWorld (Some t') tr' n)
    /\ ((t' = t /\ exists e, r = inl e)
        \/ (exists d0 data k,
               (exists o, r = inr o)
               /\ t' = db.with_documents
                      (update (owns_document (uid ctx) (Document.id d0))
                              (db.set_document data n)) t
               /\ currentDocument projectId (uid ctx) t = Some d0
               /\ 1 <= k
               /\ PartialDocument.version data = Some (Document.version d0 + 1)
               /\ PartialDocument.videosIncorporated data = Some k)
        \/ (exists ins k,
               (exists o, r = inr o)
               /\ t' = db.insert_document ins n t
               /\ currentDocument projectId (uid ctx) t = None
               /\ 1 <= k
               /\ InsertDocument.projectId ins = projectId
               /\ InsertDocument.userId ins = uid ctx
               /\ InsertDocument.version ins = None
               /\ InsertDocument.videosIncorporated ins = Some k)).
Proof.
  unfold appRouter.documents.generate.
  unfold bind at 1. rewrite getProjectById_run.
  destruct (findProject _ _ _) as [p|];
    [|eexists; eexists; eexists; split; [reflexivity | left; eauto]].
  unfold bind at 1. rewrite getVideosByProjectId_run.
  set (vs := filter is_transcribed _).
  destruct (length vs =? 0) eqn:Hk;
    [eexists; eexists; eexists; split; [reflexivity | left; eauto]|].
  apply Nat.eqb_neq in Hk.
  unfold bind at 1. rewrite getDocumentByProjectId_run.
  unfold bind at 1.
  set (input := DocumentGenerationInput.mk _ _ _ _ _).
  pose proof (talks_only_world _ _ t tr n
                (generateProjectDocument_talks_only E input)) as Hw.
  destruct (generateProjectDocument E input (mkWorld (Some t) tr n))
    as [[e|generated] w2]; cbn [snd] in Hw; rewrite Hw;
    [eexists; eexists; eexists; split; [reflexivity | left; eauto]|].
  destruct (currentDocument projectId (uid ctx) t) as [d0|] eqn:Hd.
  - rewrite updateDocument_run.
    eexists. eexists. eexists. split; [reflexivity|]. right. left.
    eexists. eexists. exists (length vs).
    split; [eauto|]. split; [reflexivity|]. split; [reflexivity|].
    split; [lia|]. split; reflexivity.
  - rewrite createDocument_run.
    eexists. eexists. eexists. split; [reflexivity|]. right. right.
    eexists. exists (length vs).
    split; [eauto|]. split; [reflexivity|]. split; [reflexivity|].
    split; [lia|]. repeat split.
Qed.

Lemma map_update_key (A B : Type) (key : A -> B) (c : A -> bool) (f : A -> A)
      (l : list A) :
  (forall r, key (f r) = key r) -> map key (update c f l) = map key l.
Proof.
  intros Hk. unfold update. rewrite map_map. apply map_ext.
  intros r. destruct (c r); [apply Hk | reflexivity].
Qed.

Lemma NoDup_map_delete (A B : Type) (key : A -> B) (c : A -> bool)
      (l : list A) :
  NoDup (map key l) -> NoDup (map key (delete c l)).
Proof.
  unfold delete. induction l as [|r l IH]; cbn; [auto|].
  intros H. inversion H as [|? ? Hn Hl]; subst.
  destruct (c r); cbn; [auto|]. constructor; [|auto].
  intros Hin. apply Hn. apply in_map_iff in Hin as (x & Hx & Hin).
  apply filter_In in Hin as [Hin _]. rewrite <- Hx. now apply in_map.
Qed.

Lemma NoDup_map_insert (A B : Type) (key : A -> B) (l : list A) (x : A) :
  NoDup (map key l) -> ~ In (key x) (map key l) ->
  NoDup (map key (l ++ [x])).
Proof.
  intros Hl Hx. rewrite map_app. cbn.
  apply NoDup_app; [exact Hl | repeat constructor; auto |].
  intros a Ha [<-|[]]. contradiction.
Qed.

Lemma no_document_key projectId userId t :
  currentDocument projectId userId t = None ->
  ~ In (projectId, userId) (map document_key (documents t)).
Proof.
  intros Hn Hin. apply currentDocument_none in Hn.
  apply in_map_iff in Hin as (d & Hk & Hin).
  assert (Hf : In d (filter (fun d => (Document.projectId d =? projectId)
                                      && (Document.userId d =? userId))
                            (documents t))).
  { apply filter_In. split; [exact Hin|].
    unfold document_key in Hk. injection Hk as -> ->.
    now rewrite !Nat.eqb_refl. }
  rewrite Hn in Hf. destruct Hf.
Qed.

Lemma documents_update_run ctx id content t tr n :
  appRouter.documents.update ctx id content (mkWorld (Some t) tr n)
  = (inr (findDocument id
            (db.with_documents
               (update (owns_document (uid ctx) id)
                  (db.set_document
                     (PartialDocument.mk None (Some content) None None None)
                     n)) t)),
     mkWorld
       (Some (db.with_documents
                (update (owns_document (uid ctx) id)
                   (db.set_document
                      (PartialDocument.mk None (Some content) None None None)
                      n)) t)) tr n).
Proof. unfold appRouter.documents.update. now rewrite updateDocument_run. Qed.

Lemma documents_delete_run ctx id t tr n :
  appRouter.documents.delete ctx id (mkWorld (Some t) tr n)
  = (inr success_true,
     mkWorld (Some (db.with_documents (delete (owns_document (uid ctx) id)) t))
             tr n).
Proof.
  unfold appRouter.documents.delete, bind. now rewrite deleteDocument_run.
Qed.

Lemma handle_documents_in_order E ctx req t tr n t' :
  documents_in_order t ->
  database (handle E ctx req (mkWorld (Some t) tr n)) = Some t' ->
  documents_in_order t'.
Proof.
  intros [Hk Hs] Hdb.
  destruct (writes_documents req) eqn:Wd.
  - destruct req; try discriminate Wd; cbn [handle] in Hdb; unfold after in Hdb.
    + (* generate *)
      destruct (generate_documents E ctx projectId t tr n)
        as (r & t2 & tr2 & Hrun & Hcase).
      rewrite Hrun in Hdb. cbn [snd database] in Hdb. injection Hdb as <-.
      destruct Hcase as [[-> _]
                        |[(d0 & data & k & _ & -> & Hd0 & Hk1 & Hv & Hi)
                         |(ins & k & _ & -> & Hn & Hk1 & Hp & Hu & Hv & Hi)]].
      * now split.
      * split; cbn [db.with_documents documents].
        -- now rewrite map_update_key.
        -- apply forallb_update; [|exact Hs].
           intros d _. unfold counted, db.set_document.
           cbn [Document.version Document.videosIncorporated].
           rewrite Hv, Hi. unfold Query.set, Query.or_else.
           apply andb_true_intro. split; apply Nat.leb_le; lia.
      * split; cbn [db.insert_document documents].
        -- apply NoDup_map_insert; [exact Hk|].
           unfold document_key at 1. cbn. rewrite Hp, Hu.
           now apply no_document_key.
        -- apply forallb_snoc; [exact Hs|]. unfold counted.
           cbn [Document.version Document.videosIncorporated].
           rewrite Hv, Hi. unfold Query.or_else.
           apply andb_true_intro. split; apply Nat.leb_le; lia.
    + (* update *)
      rewrite documents_update_run in Hdb. cbn [snd database] in Hdb.
      injection Hdb as <-. split; cbn [db.with_documents documents].
      * now rewrite map_update_key.
      * apply forallb_update_kept; [|exact Hs]. intros d Hd. exact Hd.
    + (* delete *)
      rewrite documents_delete_run in Hdb. cbn [snd database] in Hdb.
      injection Hdb as <-. split; cbn [db.with_documents documents].
      * now apply NoDup_map_delete.
      * now apply forallb_delete.
  - pose proof (handle_kept E ctx req (mkWorld (Some t) tr n)) as K.
    cbn [database] in K. rewrite Hdb in K. cbn in K.
    destruct K as (_ & _ & D). rewrite Wd in D.
    destruct (D eq_refl) as [Hd _]. split; now rewrite Hd.
Qed.

(** X5.  a project never has two documents of the same user, and every
    document has a version and a number of incorporated videos of at
    least 1. *)
Theorem documents_are_in_order :
  forall w,
    reachable w ->
    exists t, database w = Some t /\ documents_in_order t.
Proof.
  induction 1 as [tr n | w n _ IH | E ctx req w Hr IH].
  - exists empty_tables. split; [reflexivity|]. split; [constructor|reflexivity].
  - exact IH.
  - destruct IH as (t & Hdb & Hs).
    destruct (reachable_consistent w Hr) as (t0 & Hdb0 & Hc).
    rewrite Hdb in Hdb0. injection Hdb0 as <-.
    rewrite (connected w t Hdb).
    destruct (handle_keeps E ctx req t (trace w) (now w) Hc)
      as (t' & tr' & Hrun & _).
    exists t'. split; [now rewrite Hrun|].
    apply (handle_documents_in_order E ctx req t (trace w) (now w) t' Hs).
    now rewrite Hrun.
Qed.

Lemma documents_are_in_order_witness :
  reachable world3
  /\ exists t, database world3 = Some t /\ documents_in_order t.
Proof.
  split; [exact reachable_world3|].
  exact (documents_are_in_order world3 reachable_world3).
Defined.

(* ================================================================== *)
(** ** The procedures, outcome by outcome *)
(* ================================================================== *)

Lemma jseqb_eq (a b : jsstring) : jseqb a b = true <-> a = b.
Proof.
  unfold jseqb. destruct (list_eq_dec N.eq_dec a b); split;
    auto; discriminate.
Qed.

Lemma jseqb_refl (a : jsstring) : jseqb a a = true.
Proof. now apply jseqb_eq. Qed.

Lemma find_existsb (A : Type) (f : A -> bool) (l : list A) :
  existsb f l = match find f l with Some _ => true | None => false end.
Proof.
  induction l as [|x l IH]; [reflexivity|]. cbn. destruct (f x); auto.
Qed.

Lemma filter_nil_of_find (A : Type) (f g : A -> bool) (l : list A) :
  find f l = None -> (forall r, g r = f r) -> filter g l = [].
Proof.
  intros Hf Hg. induction l as [|x l IH]; [reflexivity|].
  cbn in *. rewrite Hg. destruct (f x); [discriminate | auto].
Qed.

(** The row that [createProject] answers when no project of that owner
    has the name yet: the row it has inserted. *)
Lemma created_fresh t n (project : InsertProject.t) :
  find (fun p => jseqb (Project.name p) (InsertProject.name project)
                 && (Project.userId p =? InsertProject.userId project))
       (projects t) = None ->
  created t n project
  = Some (Project.mk (next_project_id t) (InsertProject.userId project)
            (InsertProject.name project) (InsertProject.description project)
            (or_else (InsertProject.isNewIdeas project) false)
            (InsertProject.thumbnailUrl project) (InsertProject.color project)
            n n).
Proof.
  intros Hf. unfold created. cbn [db.insert_project projects].
  rewrite filter_app.
  rewrite (filter_nil_of_find _ _ _ _ Hf) by (intros r; apply andb_comm).
  cbn. now rewrite Nat.eqb_refl, jseqb_refl.
Qed.

(** X6.  projects.create, for a description and a color within the limits
    of their columns, refuses a name that is empty or longer than 255,
    then a name that the caller already uses; otherwise it appends one
    project of the caller, not flagged as new ideas, whose color is the
    given one or #3B82F6, and answers that row. *)
Theorem projects_create_outcomes :
  forall E ctx input w t,
    database w = Some t ->
    nullable text_column (CreateProjectInput.description input) = true ->
    nullable (varchar 7) (CreateProjectInput.color input) = true ->
    appRouter.projects.create E ctx input w
    = if negb (valid_name (CreateProjectInput.name input)) then
        (inl (TRPCError BAD_REQUEST (zodErrorMessage E)), w)
      else if nameTaken (uid ctx) (CreateProjectInput.name input) t then
        (inl (TRPCError CONFLICT
                (js "A project with this name already exists")), w)
      else
        (inr (Some (createdProject ctx input t (now w))),
         mkWorld
           (Some (mkTables
                    (projects t ++ [createdProject ctx input t (now w)])
                    (videos t) (documents t)
                    (S (next_project_id t)) (next_video_id t)
                    (next_document_id t)))
           (trace w) (now w)).
Proof.
  intros E ctx input [d tr n] t Hdb _ _. cbn [database] in Hdb. subst d.
  cbn [now trace]. unfold appRouter.projects.create.
  destruct (negb (valid_name (CreateProjectInput.name input)));
    [reflexivity|].
  unfold bind. rewrite getProjectByName_run.
  unfold nameTaken. rewrite find_existsb.
  destruct (find _ (projects t)) eqn:Hf; [reflexivity|].
  rewrite createProject_run. rewrite created_fresh by exact Hf.
  unfold createdProject, db.insert_project, defaultColor. cbn.
  destruct (CreateProjectInput.color input) as [[|c s]|]; reflexivity.
Qed.

Lemma projects_create_outcomes_witness :
  database world3 = Some (tablesOf world3)
  /\ nullable text_column (CreateProjectInput.description atlas) = true
  /\ nullable (varchar 7) (CreateProjectInput.color atlas) = true
  /\ fst (appRouter.projects.create env0 alice atlas world3)
     = inr (Some (createdProject alice atlas (tablesOf world3) 1000)).
Proof.
  split; [exact database_world3|]. split; [reflexivity|].
  split; [reflexivity|].
  rewrite (projects_create_outcomes env0 alice atlas world3 (tablesOf world3)
             database_world3 eq_refl eq_refl).
  vm_compute. reflexivity.
Defined.

Lemma update_none (A : Type) (c : A -> bool) (f : A -> A) (l : list A) :
  find c l = None -> update c f l = l.
Proof.
  intros Hf. unfold update. induction l as [|x l IH]; [reflexivity|].
  cbn in *. destruct (c x); [discriminate|]. now rewrite IH.
Qed.

Lemma with_projects_same (t : Tables) : db.with_projects (fun l => l) t = t.
Proof. now destruct t. Qed.

Lemma with_videos_same (t : Tables) : db.with_videos (fun l => l) t = t.
Proof. now destruct t. Qed.

(** On rows with distinct identifiers, an update of the row that the
    caller owns changes that row alone. *)
Lemma update_one (A : Type) (id : A -> nat) (q : A -> bool) (f : A -> A)
      (l : list A) (x : A) :
  NoDup (map id l) -> In x l -> q x = true ->
  update (fun r => (id r =? id x) && q r) f l
  = map (fun r => if id r =? id x then f x else r) l.
Proof.
  intros Hn Hin Hq. unfold update. apply map_ext_in. intros r Hr.
  destruct (id r =? id x) eqn:He; [|reflexivity].
  apply Nat.eqb_eq in He.
  assert (r = x) as ->.
  { pose proof (find_unique _ id l r Hn Hr) as F1.
    pose proof (find_unique _ id l x Hn Hin) as F2.
    rewrite He in F1. congruence. }
  now rewrite Hq.
Qed.

Lemma delete_one (A : Type) (id : A -> nat) (q : A -> bool)
      (l : list A) (x : A) :
  NoDup (map id l) -> In x l -> q x = true ->
  delete (fun r => (id r =? id x) && q r) l
  = filter (fun r => negb (id r =? id x)) l.
Proof.
  intros Hn Hin Hq. unfold delete. apply filter_ext_in. intros r Hr.
  destruct (id r =? id x) eqn:He; [|reflexivity].
  apply Nat.eqb_eq in He.
  assert (r = x) as ->.
  { pose proof (find_unique _ id l r Hn Hr) as F1.
    pose proof (find_unique _ id l x Hn Hin) as F2.
    rewrite He in F1. congruence. }
  now rewrite Hq.
Qed.

(** X7.  projects.update, for a valid name and for a description and a
    color within the limits of their columns, answers NOT_FOUND and writes
    nothing for a project that the caller does not own.  For one that they
    own it replaces the name, the description and the color that are
    given, stamps updatedAt, leaves the owner, the new-ideas flag, the
    thumbnail and createdAt as they were, and changes no other row. *)
Theorem projects_update_outcomes :
  forall E ctx input w t,
    database w = Some t ->
    consistent t ->
    match UpdateProjectInput.name input with
    | Some s => valid_name s = true
    | None => True
    end ->
    nullable text_column (UpdateProjectInput.description input) = true ->
    nullable (varchar 7) (UpdateProjectInput.color input) = true ->
    match findProject (UpdateProjectInput.id input) (uid ctx) t with
    | None =>
      appRouter.projects.update E ctx input w
      = (inl (TRPCError NOT_FOUND (js "Project not found")), w)
    | Some p =>
      exists p' t',
        appRouter.projects.update E ctx input w
        = (inr p', mkWorld (Some t') (trace w) (now w))
        /\ p' = Project.mk (Project.id p) (Project.userId p)
                  (or_else (UpdateProjectInput.name input) (Project.name p))
                  (match UpdateProjectInput.description input with
                   | Some s => Some s
                   | None => Project.description p
                   end)
                  (Project.isNewIdeas p) (Project.thumbnailUrl p)
                  (match UpdateProjectInput.color input with
                   | Some s => Some s
                   | None => Project.color p
                   end)
                  (Project.createdAt p) (now w)
        /\ projects t'
           = map (fun r => if Project.id r =? Project.id p then p' else r)
                 (projects t)
        /\ videos t' = videos t /\ documents t' = documents t
    end.
Proof.
  intros E ctx input [d tr n] t Hdb Hc Hname _ _.
  cbn [database] in Hdb. subst d.
  cbn [now trace]. unfold appRouter.projects.update.
  replace (match UpdateProjectInput.name input with
           | Some n0 => negb (valid_name n0) | None => false end)
    with false
    by (destruct (UpdateProjectInput.name input); [now rewrite Hname|auto]).
  unfold bind. rewrite updateProject_run.
  set (data := PartialProject.mk _ _ _ _ _ _).
  destruct (findProject (UpdateProjectInput.id input) (uid ctx) t)
    as [p|] eqn:Hp.
  - apply findProject_in in Hp as Hp'. destruct Hp' as (Hin & Hid & Hu).
    unfold findProject at 1. cbn [db.with_projects projects].
    rewrite find_update_same by reflexivity.
    fold (findProject (UpdateProjectInput.id input) (uid ctx) t).
    rewrite Hp. cbn [option_map].
    eexists. eexists. split; [reflexivity|].
    split; [reflexivity|]. split; [|split; reflexivity].
    cbn [db.with_projects projects]. rewrite <- Hid.
    apply (update_one _ Project.id (fun r => Project.userId r =? uid ctx));
      [apply (project_ids_unique Hc) | exact Hin | now apply Nat.eqb_eq].
  - unfold findProject at 1. cbn [db.with_projects projects].
    rewrite find_update_same by reflexivity.
    fold (findProject (UpdateProjectInput.id input) (uid ctx) t).
    rewrite Hp. cbn [option_map].
    unfold db.with_projects. rewrite update_none by exact Hp.
    now destruct t.
Qed.

Lemma projects_update_outcomes_witness :
  database world3 = Some (tablesOf world3)
  /\ consistent (tablesOf world3)
  /\ valid_name (js "Phoenix") = true
  /\ nullable text_column (UpdateProjectInput.description rename2) = true
  /\ nullable (varchar 7) (UpdateProjectInput.color rename2) = true
  /\ exists p' t',
      appRouter.projects.update env0 alice rename2 world3
      = (inr p', mkWorld (Some t') (trace world3) (now world3))
      /\ Project.name p' = js "Phoenix"
      /\ Project.createdAt p' = Project.createdAt (projectOf 2 1 world3)
      /\ videos t' = videos (tablesOf world3).
Proof.
  split; [exact database_world3|]. split; [exact consistent_world3|].
  split; [reflexivity|]. split; [reflexivity|]. split; [reflexivity|].
  pose proof (projects_update_outcomes env0 alice rename2 world3
                (tablesOf world3) database_world3 consistent_world3
                eq_refl eq_refl eq_refl) as H.
  replace (findProject (UpdateProjectInput.id rename2) (uid alice)
                       (tablesOf world3))
    with (Some (projectOf 2 1 world3)) in H by (vm_compute; reflexivity).
  destruct H as (p' & t' & Hrun & Hp & _ & Hv & _).
  exists p', t'. split; [exact Hrun|]. rewrite Hp. cbn [Project.name Project.createdAt].
  split; [reflexivity|]. split; [reflexivity | exact Hv].
Defined.

(** X8.  deleting a project that the caller owns and that is not the
    new-ideas project removes that row and nothing else: its videos and
    its document stay in their tables. *)
Theorem projects_delete_removes_one_row :
  forall ctx id w t p,
    database w = Some t ->
    consistent t ->
    findProject id (uid ctx) t = Some p ->
    Project.isNewIdeas p = false ->
    exists t',
      appRouter.projects.delete ctx id w
      = (inr success_true, mkWorld (Some t') (trace w) (now w))
      /\ projects t' = filter (fun r => negb (Project.id r =? id)) (projects t)
      /\ videos t' = videos t
      /\ documents t' = documents t.
Proof.
  intros ctx id [d tr n] t p Hdb Hc Hp Hflag. cbn [database] in Hdb. subst d.
  cbn [now trace]. unfold appRouter.projects.delete.
  unfold bind at 1. rewrite getProjectById_run, Hp, Hflag.
  unfold bind. rewrite deleteProject_run.
  eexists. split; [reflexivity|]. split; [|split; reflexivity].
  cbn [db.with_projects projects].
  apply findProject_in in Hp as (Hin & Hid & Hu). rewrite <- Hid.
  apply (delete_one _ Project.id (fun r => Project.userId r =? uid ctx));
    [apply (project_ids_unique Hc) | exact Hin | now apply Nat.eqb_eq].
Qed.

Lemma projects_delete_removes_one_row_witness :
  database world3 = Some (tablesOf world3)
  /\ consistent (tablesOf world3)
  /\ findProject 2 (uid alice) (tablesOf world3) = Some (projectOf 2 1 world3)
  /\ Project.isNewIdeas (projectOf 2 1 world3) = false
  /\ exists t',
      appRouter.projects.delete alice 2 world3
      = (inr success_true, mkWorld (Some t') (trace world3) (now world3))
      /\ projects t'
         = filter (fun r => negb (Project.id r =? 2))
                  (projects (tablesOf world3))
      /\ videos t' = videos (tablesOf world3)
      /\ documents t' = documents (tablesOf world3).
Proof.
  assert (H3 : findProject 2 (uid alice) (tablesOf world3)
               = Some (projectOf 2 1 world3)) by (vm_compute; reflexivity).
  assert (H4 : Project.isNewIdeas (projectOf 2 1 world3) = false)
    by (vm_compute; reflexivity).
  split; [exact database_world3|]. split; [exact consistent_world3|].
  split; [exact H3|]. split; [exact H4|].
  exact (projects_delete_removes_one_row alice 2 world3 (tablesOf world3)
           (projectOf 2 1 world3) database_world3 consistent_world3 H3 H4).
Defined.

(** X9.  deleting a video removes its row and nothing else, and calls no
    collaborator: the stored object is not removed. *)
Theorem videos_delete_removes_one_row :
  forall ctx id w t v,
    database w = Some t ->
    consistent t ->
    findVideo id (uid ctx) t = Some v ->
    exists t',
      appRouter.videos.delete ctx id w
      = (inr success_true, mkWorld (Some t') (trace w) (now w))
      /\ videos t' = filter (fun r => negb (Video.id r =? id)) (videos t)
      /\ projects t' = projects t
      /\ documents t' = documents t.
Proof.
  intros ctx id [d tr n] t v Hdb Hc Hv. cbn [database] in Hdb. subst d.
  cbn [now trace]. rewrite videos_delete_run, Hv.
  eexists. split; [reflexivity|]. split; [|split; reflexivity].
  cbn [db.with_videos videos].
  apply findVideo_in in Hv as (Hin & Hid & Hu). rewrite <- Hid.
  apply (delete_one _ Video.id (fun r => Video.userId r =? uid ctx));
    [apply (video_ids_unique Hc) | exact Hin | now apply Nat.eqb_eq].
Qed.

Lemma videos_delete_removes_one_row_witness :
  database world3 = Some (tablesOf world3)
  /\ consistent (tablesOf world3)
  /\ findVideo 1 (uid alice) (tablesOf world3) = Some (videoOf 1 1 world3)
  /\ exists t',
      appRouter.videos.delete alice 1 world3
      = (inr success_true, mkWorld (Some t') (trace world3) (now world3))
      /\ videos t'
         = filter (fun r => negb (Video.id r =? 1)) (videos (tablesOf world3))
      /\ projects t' = projects (tablesOf world3)
      /\ documents t' = documents (tablesOf world3).
Proof.
  assert (H3 : findVideo 1 (uid alice) (tablesOf world3)
               = Some (videoOf 1 1 world3)) by (vm_compute; reflexivity).
  split; [exact database_world3|]. split; [exact consistent_world3|].
  split; [exact H3|].
  exact (videos_delete_removes_one_row alice 1 world3 (tablesOf world3)
           (videoOf 1 1 world3) database_world3 consistent_world3 H3).
Defined.

(** X10.  videos.reassign needs a video and a project that both belong to the
    caller; it then moves the video, stamps updatedAt and leaves every
    other column and every other row as they were. *)
Theorem videos_reassign_outcomes :
  forall ctx id projectId w t,
    database w = Some t ->
    consistent t ->
    match findVideo id (uid ctx) t, findProject projectId (uid ctx) t with
    | None, _ =>
      appRouter.videos.reassign ctx id projectId w
      = (inl (TRPCError NOT_FOUND (js "Video not found")), w)
    | Some _, None =>
      appRouter.videos.reassign ctx id projectId w
      = (inl (TRPCError NOT_FOUND (js "Project not found")), w)
    | Some v, Some _ =>
      exists v' t',
        appRouter.videos.reassign ctx id projectId w
        = (inr (Some v'), mkWorld (Some t') (trace w) (now w))
        /\ v' = Video.mk (Video.id v) (Video.userId v) projectId
                  (Video.filename v) (Video.videoUrl v) (Video.videoKey v)
                  (Video.duration v) (Video.fileSize v) (Video.mimeType v)
                  (Video.transcription v) (Video.firstKeyword v)
                  (Video.status v) (Video.errorMessage v)
                  (Video.createdAt v) (now w)
        /\ videos t'
           = map (fun r => if Video.id r =? id then v' else r) (videos t)
        /\ projects t' = projects t
        /\ documents t' = documents t
    end.
Proof.
  intros ctx id projectId [d tr n] t Hdb Hc. cbn [database] in Hdb. subst d.
  cbn [now trace]. rewrite reassign_run.
  destruct (findVideo id (uid ctx) t) as [v|] eqn:Hv; [|reflexivity].
  destruct (findProject projectId (uid ctx) t) as [p|]; [|reflexivity].
  cbv zeta. unfold findVideo at 1. cbn [db.with_videos videos].
  unfold owns_video. rewrite find_update_same by reflexivity.
  fold (findVideo id (uid ctx) t). rewrite Hv. cbn [option_map].
  eexists. eexists. split; [reflexivity|]. split; [reflexivity|].
  split; [|split; reflexivity].
  cbn [db.with_videos videos].
  apply findVideo_in in Hv as (Hin & Hid & Hu). rewrite <- Hid.
  apply (update_one _ Video.id (fun r => Video.userId r =? uid ctx));
    [apply (video_ids_unique Hc) | exact Hin | now apply Nat.eqb_eq].
Qed.

Lemma videos_reassign_outcomes_witness :
  database world3 = Some (tablesOf world3)
  /\ consistent (tablesOf world3)
  /\ exists v' t',
      appRouter.videos.reassign alice 1 1 world3
      = (inr (Some v'), mkWorld (Some t') (trace world3) (now world3))
      /\ Video.projectId v' = 1
      /\ Video.status v' = transcribed
      /\ projects t' = projects (tablesOf world3).
Proof.
  split; [exact database_world3|]. split; [exact consistent_world3|].
  pose proof (videos_reassign_outcomes alice 1 1 world3 (tablesOf world3)
                database_world3 consistent_world3) as H.
  replace (findVideo 1 (uid alice) (tablesOf world3))
    with (Some (videoOf 1 1 world3)) in H by (vm_compute; reflexivity).
  replace (findProject 1 (uid alice) (tablesOf world3))
    with (Some (projectOf 1 1 world3)) in H by (vm_compute; reflexivity).
  destruct H as (v' & t' & Hrun & Hv & _ & Hp & _).
  exists v', t'. split; [exact Hrun|]. rewrite Hv.
  split; [reflexivity|]. split; [vm_compute; reflexivity | exact Hp].
Defined.

(** X11.  a procedure that is given the identifier of a row that the caller
    does not own answers NOT_FOUND before it does anything else: the world
    is left as it was, so no collaborator has been called. *)
Theorem not_found_comes_first :
  forall E ctx id w t,
    database w = Some t ->
    (findProject id (uid ctx) t = None ->
     appRouter.projects.get ctx id w
     = (inl (TRPCError NOT_FOUND (js "Project not found")), w)
     /\ appRouter.projects.generateThumbnail E ctx id w
        = (inl (TRPCError NOT_FOUND (js "Project not found")), w)
     /\ appRouter.documents.generate E ctx id w
        = (inl (TRPCError NOT_FOUND (js "Project not found")), w))
    /\ (findVideo id (uid ctx) t = None ->
        appRouter.videos.get ctx id w
        = (inl (TRPCError NOT_FOUND (js "Video not found")), w)
        /\ appRouter.videos.transcribe E ctx id w
           = (inl (TRPCError NOT_FOUND (js "Video not found")), w)).
Proof.
  intros E ctx id [d tr n] t Hdb. cbn [database] in Hdb. subst d.
  split; intros Hn.
  - unfold appRouter.projects.get, appRouter.projects.generateThumbnail,
      appRouter.documents.generate.
    split; [|split]; unfold bind at 1; now rewrite getProjectById_run, Hn.
  - unfold appRouter.videos.get. split.
    + unfold bind. now rewrite getVideoById_run, Hn.
    + now apply transcribe_not_found.
Qed.

Lemma not_found_comes_first_witness :
  database world3 = Some (tablesOf world3)
  /\ findProject 7 (uid alice) (tablesOf world3) = None
  /\ findVideo 7 (uid alice) (tablesOf world3) = None
  /\ appRouter.documents.generate env0 alice 7 world3
     = (inl (TRPCError NOT_FOUND (js "Project not found")), world3)
  /\ appRouter.videos.transcribe env0 alice 7 world3
     = (inl (TRPCError NOT_FOUND (js "Video not found")), world3).
Proof.
  assert (H2 : findProject 7 (uid alice) (tablesOf world3) = None)
    by (vm_compute; reflexivity).
  assert (H3 : findVideo 7 (uid alice) (tablesOf world3) = None)
    by (vm_compute; reflexivity).
  split; [exact database_world3|]. split; [exact H2|]. split; [exact H3|].
  destruct (not_found_comes_first env0 alice 7 world3 (tablesOf world3)
              database_world3) as [P V].
  split; [apply (P H2) | apply (V H3)].
Defined.

(** X12.  a synthesis request that fails has written nothing: the tables are
    those of before the request. *)
Theorem failed_synthesis_writes_nothing :
  forall E ctx projectId w e,
    fst (appRouter.documents.generate E ctx projectId w) = inl e ->
    database (snd (appRouter.documents.generate E ctx projectId w))
    = database w.
Proof.
  intros E ctx projectId [[t|] tr n] e.
  - destruct (generate_documents E ctx projectId t tr n)
      as (r & t' & tr' & -> & [[-> _]|[H|H]]); cbn [fst snd database].
    + reflexivity.
    + destruct H as (_ & _ & _ & [o ->] & _). discriminate.
    + destruct H as (_ & _ & [o ->] & _). discriminate.
  - reflexivity.
Qed.

Lemma failed_synthesis_writes_nothing_witness :
  fst (appRouter.documents.generate env_claude_down alice 2 world3)
  = inl (Error (js "Overloaded"))
  /\ database (snd (appRouter.documents.generate env_claude_down alice 2
                      world3))
     = database world3.
Proof.
  assert (H : fst (appRouter.documents.generate env_claude_down alice 2 world3)
              = inl (Error (js "Overloaded"))) by (vm_compute; reflexivity).
  split; [exact H|].
  exact (failed_synthesis_writes_nothing env_claude_down alice 2 world3
           (Error (js "Overloaded")) H).
Defined.

(** X13.  documents.update does not look the document up for the caller
    before it answers.  On a document of somebody else it writes nothing
    and answers that document as it is; on an identifier that no document
    has it answers nothing, without an error. *)
Theorem documents_update_of_a_foreign_document :
  forall ctx id content w t,
    database w = Some t ->
    consistent t ->
    (forall d,
        In d (documents t) ->
        Document.id d = id ->
        Document.userId d <> uid ctx ->
        appRouter.documents.update ctx id content w = (inr (Some d), w))
    /\ (findDocument id t = None ->
        appRouter.documents.update ctx id content w = (inr None, w)).
Proof.
  intros ctx id content [d0 tr n] t Hdb Hc. cbn [database] in Hdb. subst d0.
  assert (Hsame : find (owns_document (uid ctx) id) (documents t) = None ->
                  appRouter.documents.update ctx id content
                    (mkWorld (Some t) tr n)
                  = (inr (findDocument id t), mkWorld (Some t) tr n)).
  { intros Hn. rewrite documents_update_run. unfold db.with_documents.
    rewrite update_none by exact Hn. now destruct t. }
  split.
  - intros d Hin Hid Hu. rewrite Hsame.
    + unfold findDocument. rewrite <- Hid.
      now rewrite (find_unique _ Document.id (documents t) d
                     (document_ids_unique Hc) Hin).
    + apply find_none_all. intros r Hr. unfold owns_document.
      destruct (Document.id r =? id) eqn:He; [|reflexivity].
      apply Nat.eqb_eq in He. cbn.
      assert (r = d) as ->.
      { pose proof (find_unique _ Document.id _ r (document_ids_unique Hc) Hr).
        pose proof (find_unique _ Document.id _ d (document_ids_unique Hc) Hin).
        rewrite He, <- Hid in *. congruence. }
      now apply Nat.eqb_neq.
  - intros Hn. rewrite Hsame; [now rewrite Hn|].
    apply find_none_all. intros r Hr. unfold owns_document.
    destruct (Document.id r =? id) eqn:He; [|reflexivity].
    unfold findDocument in Hn.
    pose proof (find_none _ _ Hn r Hr) as Hx. cbn in Hx. congruence.
Qed.

Lemma documents_update_of_a_foreign_document_witness :
  database world3 = Some (tablesOf world3)
  /\ consistent (tablesOf world3)
  /\ In (documentOf 1 world3) (documents (tablesOf world3))
  /\ Document.id (documentOf 1 world3) = 1
  /\ Document.userId (documentOf 1 world3) <> uid root
  /\ appRouter.documents.update root 1 (js "effacé") world3
     = (inr (Some (documentOf 1 world3)), world3).
Proof.
  assert (H3 : In (documentOf 1 world3) (documents (tablesOf world3)))
    by (vm_compute; left; reflexivity).
  assert (H4 : Document.id (documentOf 1 world3) = 1)
    by (vm_compute; reflexivity).
  assert (H5 : Document.userId (documentOf 1 world3) <> uid root)
    by (vm_compute; discriminate).
  split; [exact database_world3|]. split; [exact consistent_world3|].
  split; [exact H3|]. split; [exact H4|]. split; [exact H5|].
  exact (proj1 (documents_update_of_a_foreign_document root 1 (js "effacé")
                  world3 (tablesOf world3) database_world3 consistent_world3)
               (documentOf 1 world3) H3 H4 H5).
Defined.

Section Newest.
Variable A : Type.
Variable key : A -> nat.

Lemma insert_desc_cons (y : A) (l : list A) : insert_desc key y l <> [].
Proof.
  destruct l as [|a l]; cbn [insert_desc]; [|destruct (key y <? key a)];
    intros H; discriminate H.
Qed.

(** The first of the rows in descending order of a key, when the last row
    of the table is [x]: it is [x] when every other row has a smaller key,
    and a row that is not older than [x] otherwise. *)
Lemma newest_snoc (l : list A) (x p : A) :
  hd_error (orderBy_desc key (l ++ [x])) = Some p ->
  (p = x /\ forall y, In y l -> key y < key x)
  \/ (In p l /\ key x <= key p).
Proof.
  unfold orderBy_desc. rewrite fold_right_app. cbn [fold_right insert_desc].
  revert p. induction l as [|y l IH]; intros p; cbn [fold_right].
  - cbn. intros H. injection H as <-. left. split; [reflexivity|].
    intros y [].
  - destruct (fold_right (insert_desc key) [x] l) as [|z r] eqn:F.
    + destruct l as [|y' l']; [discriminate F|]. cbn [fold_right] in F.
      now apply insert_desc_cons in F.
    + specialize (IH z eq_refl). cbn [insert_desc].
      destruct (key y <? key z) eqn:L; cbn [hd_error]; intros H;
        injection H as <-.
      * apply Nat.ltb_lt in L.
        destruct IH as [[-> Hall]|[Hin Hle]].
        -- left. split; [reflexivity|].
           intros y' [<-|Hy']; [exact L | now apply Hall].
        -- right. split; [now right | exact Hle].
      * apply Nat.ltb_ge in L. right. split; [now left|].
        destruct IH as [[-> _]|[_ Hle]]; lia.
Qed.

End Newest.

(** The row that [createProject] answers: the row that it has inserted
    when every project of that owner and of that name is older, and
    otherwise one of these that is not older. *)
Lemma created_cases t n (project : InsertProject.t) :
  exists p,
    created t n project = Some p
    /\ ((p = Project.mk (next_project_id t) (InsertProject.userId project)
               (InsertProject.name project)
               (InsertProject.description project)
               (or_else (InsertProject.isNewIdeas project) false)
               (InsertProject.thumbnailUrl project)
               (InsertProject.color project) n n
         /\ forall q,
             In q (projects t) ->
             Project.userId q = InsertProject.userId project ->
             Project.name q = InsertProject.name project ->
             Project.createdAt q < n)
        \/ (In p (projects t)
            /\ Project.userId p = InsertProject.userId project
            /\ Project.name p = InsertProject.name project
            /\ n <= Project.createdAt p)).
Proof.
  unfold created. cbn [db.insert_project projects].
  rewrite filter_app. cbn [filter].
  cbn [Project.userId Project.name]. rewrite Nat.eqb_refl, jseqb_refl.
  cbn [andb].
  set (l := filter _ (projects t)).
  set (x := Project.mk _ _ _ _ _ _ _ _ _).
  destruct (hd_error (orderBy_desc Project.createdAt (l ++ [x])))
    as [p|] eqn:H.
  - exists p. split; [reflexivity|].
    apply newest_snoc in H as [[-> Hall]|[Hin Hle]].
    + left. split; [reflexivity|]. intros q Hq Hu Hn.
      apply (Hall q). apply filter_In. split; [exact Hq|].
      rewrite Hu, Hn, Nat.eqb_refl. apply jseqb_refl.
    + right. apply filter_In in Hin as [Hin Hc].
      apply andb_prop in Hc as [H1 H2].
      apply Nat.eqb_eq in H1. apply jseqb_eq in H2. auto.
  - destruct (orderBy_desc Project.createdAt (l ++ [x])) eqn:O;
      [|discriminate H].
    apply orderBy_desc_nil in O. now destruct l.
Qed.

(** [createProject] always finds a row to answer: one of that owner and of
    that name, the inserted row if no other. *)
Lemma created_some t n (project : InsertProject.t) :
  exists p,
    created t n project = Some p
    /\ In p (projects (db.insert_project project n t))
    /\ Project.userId p = InsertProject.userId project
    /\ Project.name p = InsertProject.name project.
Proof.
  destruct (created_cases t n project) as (p & Hc & [[-> _]|(Hin & Hu & Hn & _)]).
  - eexists. split; [exact Hc|]. cbn [db.insert_project projects].
    split; [apply in_or_app; right; now left|]. split; reflexivity.
  - exists p. split; [exact Hc|]. cbn [db.insert_project projects].
    split; [apply in_or_app; now left|]. auto.
Qed.

(** The first access of a user to their new-ideas project. *)
Lemma first_access u n t :
  newIdeasOf u t = [] ->
  exists p, created t n (db.newIdeasValues u) = Some p /\ firstAccess u n t p.
Proof.
  intros Hn.
  destruct (created_cases t n (db.newIdeasValues u))
    as (p & Hc & [[-> Hall]|(Hin & Hu & Hname & Hle)]).
  - eexists. split; [exact Hc|]. split; [now left | reflexivity].
  - exists p. split; [exact Hc|]. split.
    + right. split; [exact Hin|]. split; [exact Hu|].
      split; [exact Hname|]. split; [|exact Hle].
      destruct (Project.isNewIdeas p) eqn:Hf; [|reflexivity].
      assert (Hp : In p (newIdeasOf u t)).
      { apply filter_In. split; [exact Hin|].
        cbn in Hu. rewrite Hu, Nat.eqb_refl. exact Hf. }
      rewrite Hn in Hp. destruct Hp.
    + intros Hall. specialize (Hall p Hin Hu Hname). lia.
Qed.

Lemma find_snoc_fresh (A : Type) (f : A -> bool) (l : list A) (x : A) :
  (forall r, In r l -> f r = false) -> f x = true ->
  find f (l ++ [x]) = Some x.
Proof.
  intros Hl Hx. induction l as [|y l IH]; cbn.
  - now rewrite Hx.
  - rewrite (Hl y (or_introl eq_refl)). apply IH.
    intros r Hr. apply Hl. now right.
Qed.

(** X14.  videos.upload, on consistent tables and for values within the
    limits of their columns, stores the file first.  When the store fails
    nothing is written.  Otherwise one video of the caller is appended,
    uploaded, without transcription, under the key of the stored file and
    in a project of the caller: their new-ideas project if they have one.
    If they have none, it is inserted now and the video goes to it when
    every project of the caller that has the name of the new-ideas
    project is older than this request; if one is not older, the video
    goes to the inserted project or to such a project, which is not a
    new-ideas project.  The answer is the new row when no earlier video
    has its key. *)
Theorem videos_upload_outcomes :
  forall E ctx input w t,
    database w = Some t ->
    consistent t ->
    varchar 255 (UploadInput.filename input) = true ->
    varchar 100 (UploadInput.mimeType input) = true ->
    bigint_column (UploadInput.fileSize input) = true ->
    nullable int_column (UploadInput.duration input) = true ->
    varchar 512 (uploadKey E ctx input (trace w)) = true ->
    match storagePut E (trace w) (uploadKey E ctx input (trace w))
                     (Buffer_from_base64 E (UploadInput.videoBase64 input))
                     (UploadInput.mimeType input) with
    | inl e =>
      appRouter.videos.upload E ctx input w
      = (inl e,
         mkWorld (Some t) (trace w ++ [uploadPut E ctx input (trace w)])
                 (now w))
    | inr videoUrl =>
      text_column videoUrl = true ->
      exists answer t' p,
        appRouter.videos.upload E ctx input w
        = (inr answer,
           mkWorld (Some t') (trace w ++ [uploadPut E ctx input (trace w)])
                   (now w))
        /\ videos t'
           = videos t
             ++ [uploadedVideo E ctx input (trace w) videoUrl (Project.id p)
                               t (now w)]
        /\ In p (projects t')
        /\ Project.userId p = uid ctx
        /\ match newIdeasOf (uid ctx) t with
           | q :: _ => p = q /\ projects t' = projects t
           | [] =>
             projects t' = projects t ++ [newIdeasProject (uid ctx) t (now w)]
             /\ firstAccess (uid ctx) (now w) t p
           end
        /\ documents t' = documents t
        /\ ((forall x, In x (videos t) ->
                       Video.videoKey x <> uploadKey E ctx input (trace w)) ->
            answer
            = Some (uploadedVideo E ctx input (trace w) videoUrl
                                  (Project.id p) t (now w)))
    end.
Proof.
  intros E ctx input [d tr n] t Hdb _ _ _ _ _ _.
  cbn [database] in Hdb. subst d.
  cbn [now trace]. rewrite upload_run. cbv zeta.
  fold (fileExtension (UploadInput.filename input)).
  fold (uploadKey E ctx input tr). fold (uploadPut E ctx input tr).
  destruct (storagePut E tr _ _ _) as [e|videoUrl]; [reflexivity|].
  intros _.
  assert (Hans : forall t1 pid,
             videos t1 = videos t ->
             (forall x, In x (videos t) ->
                        Video.videoKey x <> uploadKey E ctx input tr) ->
             find (fun v => jseqb (Video.videoKey v) (uploadKey E ctx input tr))
                  (videos t1
                   ++ [uploadedVideo E ctx input tr videoUrl pid t n])
             = Some (uploadedVideo E ctx input tr videoUrl pid t n)).
  { intros t1 pid Hv Hfresh. rewrite Hv. apply find_snoc_fresh.
    - intros r Hr. destruct (jseqb _ _) eqn:Hj; [|reflexivity].
      apply jseqb_eq in Hj. now apply Hfresh in Hr.
    - apply jseqb_refl. }
  destruct (newIdeasOf (uid ctx) t) as [|q l] eqn:Hq; cbn [hd_error].
  - destruct (first_access (uid ctx) n t Hq) as (p & -> & Hfa).
    eexists. exists (db.insert_video
                       (InsertVideo.mk (uid ctx) (Project.id p)
                          (UploadInput.filename input) videoUrl
                          (uploadKey E ctx input tr)
                          (UploadInput.duration input)
                          (Some (UploadInput.fileSize input))
                          (Some (UploadInput.mimeType input))
                          None None (Some uploaded) None) n
                       (db.insert_project (db.newIdeasValues (uid ctx)) n t)).
    exists p. split; [reflexivity|].
    split; [reflexivity|].
    split.
    { cbn [db.insert_video db.insert_project projects].
      destruct Hfa as [[->|[Hin _]] _];
        apply in_or_app; [right; now left | now left]. }
    split.
    { destruct Hfa as [[->|(_ & Hu & _)] _]; [reflexivity | exact Hu]. }
    split; [split; [reflexivity | exact Hfa]|]. split; [reflexivity|].
    intros Hfresh. now apply (Hans (db.insert_project _ n t)).
  - assert (Hin : In q (newIdeasOf (uid ctx) t)) by (rewrite Hq; now left).
    apply filter_In in Hin as [Hin Hcnd]. apply andb_prop in Hcnd as [Hu _].
    apply Nat.eqb_eq in Hu.
    eexists. eexists. exists q. split; [reflexivity|].
    split; [reflexivity|]. split; [exact Hin|]. split; [exact Hu|].
    split; [now split|]. split; [reflexivity|].
    intros Hfresh. now apply (Hans t).
Qed.

Lemma videos_upload_outcomes_witness :
  database world3 = Some (tablesOf world3)
  /\ consistent (tablesOf world3)
  /\ varchar 255 (UploadInput.filename upload0) = true
  /\ varchar 100 (UploadInput.mimeType upload0) = true
  /\ bigint_column (UploadInput.fileSize upload0) = true
  /\ nullable int_column (UploadInput.duration upload0) = true
  /\ varchar 512 (uploadKey env0 root upload0 (trace world3)) = true
  /\ text_column (js "https://storage.example/video.webm") = true
  /\ exists answer t',
      appRouter.videos.upload env0 root upload0 world3
      = (inr answer,
         mkWorld (Some t')
                 (trace world3 ++ [uploadPut env0 root upload0 (trace world3)])
                 (now world3))
      /\ videos t'
         = videos (tablesOf world3)
           ++ [uploadedVideo env0 root upload0 (trace world3)
                 (js "https://storage.example/video.webm")
                 (Project.id (newIdeasProject (uid root) (tablesOf world3)
                                              (now world3)))
                 (tablesOf world3) (now world3)]
      /\ projects t'
         = projects (tablesOf world3)
           ++ [newIdeasProject (uid root) (tablesOf world3) (now world3)].
Proof.
  assert (H2 : varchar 512 (uploadKey env0 root upload0 (trace world3)) = true)
    by (vm_compute; reflexivity).
  assert (H3 : text_column (js "https://storage.example/video.webm") = true)
    by (vm_compute; reflexivity).
  split; [exact database_world3|]. split; [exact consistent_world3|].
  split; [reflexivity|]. split; [reflexivity|]. split; [reflexivity|].
  split; [reflexivity|]. split; [exact H2|]. split; [exact H3|].
  pose proof (videos_upload_outcomes env0 root upload0 world3
                (tablesOf world3) database_world3 consistent_world3
                eq_refl eq_refl eq_refl eq_refl H2) as H.
  change (storagePut env0 (trace world3)
            (uploadKey env0 root upload0 (trace world3))
            (Buffer_from_base64 env0 (UploadInput.videoBase64 upload0))
            (UploadInput.mimeType upload0))
    with (@inr exn jsstring (js "https://storage.example/video.webm")) in H.
  specialize (H H3).
  replace (newIdeasOf (uid root) (tablesOf world3)) with (@nil Project.t) in H
    by (vm_compute; reflexivity).
  destruct H as (answer & t' & p & Hrun & Hv & _ & _ & [Hp [_ Hnew]] & _).
  assert (Ep : p = newIdeasProject (uid root) (tablesOf world3) (now world3)).
  { apply Hnew. intros q Hin Hu _. exfalso.
    vm_compute in Hin. destruct Hin as [<-|[<-|[]]]; discriminate Hu. }
  subst p. exists answer, t'.
  split; [exact Hrun|]. split; [exact Hv | exact Hp].
Defined.

(** In the order in which this development breaks ties (the order of the
    table), an upload of a user without a new-ideas project who has just
    given its name to a project of theirs lands in that project. *)
Lemma upload_into_a_namesake :
  newIdeasOf (uid root) (tablesOf world4) = []
  /\ Project.name (projectOf 3 2 world4) = js "Nouvelles idées"
  /\ Project.isNewIdeas (projectOf 3 2 world4) = false
  /\ option_map Video.projectId
       (answerOf (fst (appRouter.videos.upload env0 root upload0 world4)))
     = Some 3.
Proof. repeat split; vm_compute; reflexivity. Qed.

Lemma after_last_dot_plain (acc s : jsstring) :
  existsb isDot s = false -> after_last_dot acc s = acc ++ s.
Proof.
  revert acc. induction s as [|c s IH]; intros acc H; cbn in *.
  - now rewrite app_nil_r.
  - apply orb_false_elim in H as [Hc Hs]. unfold isDot in Hc. rewrite Hc.
    rewrite IH by exact Hs. now rewrite <- app_assoc.
Qed.

Lemma after_last_dot_app (acc a b : jsstring) :
  after_last_dot acc (a ++ 46%N :: b) = after_last_dot [] b.
Proof.
  revert acc. induction a as [|c a IH]; intros acc; cbn.
  - reflexivity.
  - destruct (c =? 46)%N; apply IH.
Qed.

Lemma after_last_dot_no_dot (acc s : jsstring) :
  existsb isDot acc = false ->
  existsb isDot (after_last_dot acc s) = false.
Proof.
  revert acc. induction s as [|c s IH]; intros acc H; cbn; [exact H|].
  destruct (c =? 46)%N eqn:Hc; [now apply IH|].
  apply IH. rewrite existsb_app, H. cbn. unfold isDot. now rewrite Hc.
Qed.

(** X15.  the extension of a storage key is what follows the last dot of the
    file name; a name without a dot is its own extension, and a name that
    is empty or ends in a dot gets webm.  The extension is never empty
    and holds no dot. *)
Theorem fileExtension_cases :
  forall filename,
    fileExtension filename <> []
    /\ existsb isDot (fileExtension filename) = false
    /\ (forall a b,
           filename = a ++ 46%N :: b -> existsb isDot b = false ->
           fileExtension filename = match b with [] => js "webm" | _ => b end)
    /\ (existsb isDot filename = false ->
        fileExtension filename
        = match filename with [] => js "webm" | _ => filename end).
Proof.
  intros filename. unfold fileExtension. split; [|split; [|split]].
  - destruct (after_last_dot [] filename); [|discriminate].
    intros H. vm_compute in H. discriminate.
  - destruct (after_last_dot [] filename) eqn:Ha; [reflexivity|].
    rewrite <- Ha. now apply after_last_dot_no_dot.
  - intros a b -> Hb. rewrite after_last_dot_app.
    rewrite after_last_dot_plain by exact Hb. now destruct b.
  - intros Hf. rewrite after_last_dot_plain by exact Hf. now destruct filename.
Qed.

Lemma fileExtension_cases_witness :
  existsb isDot (js "mp4") = false
  /\ fileExtension (js "pitch.final" ++ 46%N :: js "mp4") = js "mp4".
Proof.
  split; [reflexivity|].
  destruct (fileExtension_cases (js "pitch.final" ++ 46%N :: js "mp4"))
    as (_ & _ & H & _).
  apply (H (js "pitch.final") (js "mp4")); reflexivity.
Defined.

(** The classifier reads the world through its trace only. *)
Lemma transcribeWithGemini_reads_trace E url w w' :
  trace w = trace w' ->
  fst (transcribeWithGemini E url w) = fst (transcribeWithGemini E url w').
Proof.
  intros Ht. unfold transcribeWithGemini.
  destruct (negb (GEMINI_API_KEY E)); [reflexivity|].
  unfold try_catch, bind, call. rewrite Ht.
  destruct (transcribeAudio E (trace w') url (js "fr") whisperPrompt)
    as [e|[text|err]]; cbn [fst snd trace]; try reflexivity.
  destruct (generateContent E _ _ _) as [e|response]; cbn [fst snd];
    [reflexivity|].
  destruct (exec jsonRegex response) as [m|]; [|reflexivity].
  destruct (JSON.parse (matched m)); reflexivity.
Qed.

Lemma targetProject_places E ctx video result t tr n :
  exists target t',
    appRouter.videos.targetProject E ctx video result (mkWorld (Some t) tr n)
    = (inr target, mkWorld (Some t') tr n)
    /\ videos t' = videos t
    /\ documents t' = documents t
    /\ placed E (uid ctx) video result n t t' target.
Proof.
  unfold appRouter.videos.targetProject, placed.
  destruct (TranscriptionResult.isNewIdea result).
  - unfold bind. rewrite getOrCreateNewIdeasProject_run, newIdeasOf_find.
    destruct (newIdeasOf (uid ctx) t) as [|q l] eqn:Hq; cbn [hd_error].
    + rewrite createProject_run.
      destruct (first_access (uid ctx) n t Hq) as (p & -> & Hfa).
      eexists. eexists. split; [reflexivity|].
      split; [reflexivity|]. split; [reflexivity|].
      split; [reflexivity|]. exists p. now split.
    + eexists. eexists. split; [reflexivity|].
      split; [reflexivity|]. split; [reflexivity|]. now split.
  - destruct (TranscriptionResult.suggestedProjectName result) as [s|];
      [destruct (JSON.truthy s)|].
    + unfold bind at 1. rewrite getProjectByName_run.
      destruct (find _ (projects t)) as [p|] eqn:F.
      * eexists. eexists. split; [reflexivity|].
        split; [reflexivity|]. split; [reflexivity|]. left.
        apply find_some in F as [Hin Hc]. apply andb_prop in Hc as [H1 H2].
        apply jseqb_eq in H1. apply Nat.eqb_eq in H2.
        exists p. auto.
      * unfold bind. rewrite createProject_run.
        rewrite created_fresh by exact F.
        eexists. eexists. split; [reflexivity|].
        split; [reflexivity|]. split; [reflexivity|]. right.
        split; [|now split].
        intros p Hin Hu Hname.
        pose proof (find_none _ _ F p Hin) as Hx. cbn beta in Hx.
        rewrite Hname, Hu, jseqb_refl, Nat.eqb_refl in Hx. discriminate Hx.
    + eexists. eexists. split; [reflexivity|]. auto.
    + eexists. eexists. split; [reflexivity|]. auto.
Qed.

(** X16.  On consistent tables, when the classifier answers with a text,
    a keyword and a name within the limits of their columns, the
    transcription request succeeds: the video is left transcribed with the text and the keyword
    of the answer and no document is touched.  For a new idea the video
    goes where an upload would put it: to the new-ideas project of the
    caller, which is inserted if they have none (or, then, to a project
    of theirs that has its name and is not older than the request).  For
    a suggested name it goes to a project of the caller that has this
    name, which is inserted, with the color #3B82F6, if they have none.
    Otherwise it stays in its project. *)
Theorem transcription_files_the_video :
  forall E ctx id w t video result,
    database w = Some t ->
    consistent t ->
    findVideo id (uid ctx) t = Some video ->
    fst (transcribeWithGemini E (Video.videoUrl video) w) = inr result ->
    text_column (TranscriptionResult.text result) = true ->
    varchar 255 (sql_text E (TranscriptionResult.firstKeyword result))
    = true ->
    match TranscriptionResult.suggestedProjectName result with
    | Some s => varchar 255 (sql_text E s) = true
    | None => True
    end ->
    exists video' t',
      fst (appRouter.videos.transcribe E ctx id w) = inr (Some video')
      /\ database (snd (appRouter.videos.transcribe E ctx id w)) = Some t'
      /\ findVideo id (uid ctx) t' = Some video'
      /\ Video.status video' = transcribed
      /\ Video.transcription video' = Some (TranscriptionResult.text result)
      /\ Video.firstKeyword video'
         = Some (sql_text E (TranscriptionResult.firstKeyword result))
      /\ placed E (uid ctx) video result (now w) t t'
                (Video.projectId video')
      /\ documents t' = documents t.
Proof.
  intros E ctx id [d tr n] t video result Hdb _ Hv Hres _ _ _.
  cbn [database now] in *. subst d.
  destruct (appRouter.videos.transcribe E ctx id (mkWorld (Some t) tr n))
    as [r w'] eqn:G.
  cbn [fst snd]. revert G.
  unfold appRouter.videos.transcribe, appRouter.videos.transcribe_try,
    appRouter.videos.transcribe_catch.
  unfold bind at 1. rewrite getVideoById_run, Hv.
  unfold bind at 1. rewrite updateVideo_run.
  set (t1 := db.with_videos _ t).
  assert (Hv1 : findVideo id (uid ctx) t1
                = Some (db.set_video
                          (PartialVideo.mk None None None (Some transcribing)
                                           None) n video)).
  { unfold findVideo, t1. cbn [db.with_videos videos].
    rewrite find_update_same by reflexivity.
    fold (findVideo id (uid ctx) t). now rewrite Hv. }
  unfold try_catch. unfold bind at 1.
  pose proof (talks_only_world _ _ t1 tr n
                (transcribeWithGemini_talks_only E (Video.videoUrl video)))
    as Hw.
  rewrite (transcribeWithGemini_reads_trace E (Video.videoUrl video)
             (mkWorld (Some t) tr n) (mkWorld (Some t1) tr n) eq_refl)
    in Hres.
  destruct (transcribeWithGemini E (Video.videoUrl video)
                                 (mkWorld (Some t1) tr n))
    as [r0 w2]. cbn [fst snd] in Hres, Hw. subst r0. rewrite Hw.
  unfold bind at 1.
  destruct (targetProject_places E ctx video result t1 (trace w2) n)
    as (target & t2 & -> & Hvid & Hdoc & Hplace).
  rewrite updateVideo_run.
  set (done := PartialVideo.mk (Some target) _ _ _ _).
  assert (Hv2 : findVideo id (uid ctx)
                  (db.with_videos
                     (update (fun v => (Video.id v =? id)
                                       && (Video.userId v =? uid ctx))
                        (db.set_video done n)) t2)
                = Some (db.set_video done n
                          (db.set_video
                             (PartialVideo.mk None None None
                                (Some transcribing) None) n video))).
  { unfold findVideo. cbn [db.with_videos videos]. rewrite Hvid.
    rewrite find_update_same by reflexivity.
    fold (findVideo id (uid ctx) t1). now rewrite Hv1. }
  rewrite Hv2. intros G. injection G as <- <-. cbn [database].
  eexists. eexists. split; [reflexivity|]. split; [reflexivity|].
  split; [exact Hv2|].
  split; [reflexivity|]. split; [reflexivity|]. split; [reflexivity|].
  split.
  - unfold placed, firstAccess, newIdeasProject, newIdeasOf in *.
    cbn [db.with_videos projects next_project_id] in *. exact Hplace.
  - cbn [db.with_videos documents]. rewrite Hdoc. reflexivity.
Qed.

Lemma transcription_files_the_video_witness :
  database world1 = Some (tablesOf world1)
  /\ consistent (tablesOf world1)
  /\ findVideo 1 (uid alice) (tablesOf world1) = Some (videoOf 1 1 world1)
  /\ fst (transcribeWithGemini env0 (Video.videoUrl (videoOf 1 1 world1))
                               world1)
     = inr (fallbackResult env0 (js "Phoenix est un projet de refonte."))
  /\ varchar 255 (js "phoenix est un") = true
  /\ exists video' t',
      fst (appRouter.videos.transcribe env0 alice 1 world1)
      = inr (Some video')
      /\ database (snd (appRouter.videos.transcribe env0 alice 1 world1))
         = Some t'
      /\ findVideo 1 (uid alice) t' = Some video'
      /\ Video.status video' = transcribed
      /\ Video.transcription video'
         = Some (js "Phoenix est un projet de refonte.")
      /\ Video.firstKeyword video' = Some (js "phoenix est un")
      /\ Video.projectId video' = 2
      /\ projects t'
         = projects (tablesOf world1)
           ++ [Project.mk 2 (uid alice) (js "phoenix est un") None false None
                 (Some (js "#3B82F6")) 1000 1000]
      /\ documents t' = documents (tablesOf world1).
Proof.
  assert (H2 : findVideo 1 (uid alice) (tablesOf world1)
               = Some (videoOf 1 1 world1)) by (vm_compute; reflexivity).
  assert (H3 : fst (transcribeWithGemini env0
                      (Video.videoUrl (videoOf 1 1 world1)) world1)
               = inr (fallbackResult env0
                        (js "Phoenix est un projet de refonte.")))
    by (vm_compute; reflexivity).
  assert (H4 : text_column
                 (TranscriptionResult.text
                    (fallbackResult env0
                       (js "Phoenix est un projet de refonte."))) = true)
    by (vm_compute; reflexivity).
  assert (H5 : varchar 255
                 (sql_text env0
                    (TranscriptionResult.firstKeyword
                       (fallbackResult env0
                          (js "Phoenix est un projet de refonte."))))
               = true) by (vm_compute; reflexivity).
  assert (H6 : match TranscriptionResult.suggestedProjectName
                       (fallbackResult env0
                          (js "Phoenix est un projet de refonte.")) with
               | Some s => varchar 255 (sql_text env0 s) = true
               | None => True
               end) by (vm_compute; reflexivity).
  split; [exact database_world1|]. split; [exact consistent_world1|].
  split; [exact H2|]. split; [exact H3|]. split; [reflexivity|].
  destruct (transcription_files_the_video env0 alice 1 world1
              (tablesOf world1) (videoOf 1 1 world1)
              (fallbackResult env0 (js "Phoenix est un projet de refonte."))
              database_world1 consistent_world1 H2 H3 H4 H5 H6)
    as (video' & t' & Ha & Hdb & Hf & Hs & Ht & Hk & Hplace & Hd).
  exists video', t'.
  split; [exact Ha|]. split; [exact Hdb|]. split; [exact Hf|].
  split; [exact Hs|]. split; [exact Ht|]. split; [exact Hk|].
  assert (Hp : (exists p,
                   In p (projects (tablesOf world1))
                   /\ Project.userId p = uid alice
                   /\ Project.name p = js "phoenix est un"
                   /\ Video.projectId video' = Project.id p
                   /\ projects t' = projects (tablesOf world1))
               \/ ((forall p,
                       In p (projects (tablesOf world1)) ->
                       Project.userId p = uid alice ->
                       Project.name p <> js "phoenix est un")
                   /\ Video.projectId video' = 2
                   /\ projects t'
                      = projects (tablesOf world1)
                        ++ [Project.mk 2 (uid alice) (js "phoenix est un")
                              None false None (Some (js "#3B82F6"))
                              1000 1000]))
    by exact Hplace.
  destruct Hp as [(p & Hin & _ & Hname & _)|(_ & Hp1 & Hp2)].
  - exfalso. vm_compute in Hin. destruct Hin as [<-|[]].
    vm_compute in Hname. discriminate Hname.
  - split; [exact Hp1|]. split; [exact Hp2 | exact Hd].
Defined.

(* ================================================================== *)
(** ** db.ts: the helpers of the three tables *)
(* ================================================================== *)

(** X17.  without a database handle every helper of the three tables throws
    the same error and leaves the world as it was. *)
Theorem helpers_need_the_database :
  forall w,
    database w = None ->
    (forall p, db.createProject p w = (inl Unavailable, w))
    /\ (forall u, db.getProjectsByUserId u w = (inl Unavailable, w))
    /\ (forall i u, db.getProjectById i u w = (inl Unavailable, w))
    /\ (forall s u, db.getProjectByName s u w = (inl Unavailable, w))
    /\ (forall u, db.getOrCreateNewIdeasProject u w = (inl Unavailable, w))
    /\ (forall i u d, db.updateProject i u d w = (inl Unavailable, w))
    /\ (forall i u, db.deleteProject i u w = (inl Unavailable, w))
    /\ (forall v, db.createVideo v w = (inl Unavailable, w))
    /\ (forall i u, db.getVideosByProjectId i u w = (inl Unavailable, w))
    /\ (forall i u, db.getVideoById i u w = (inl Unavailable, w))
    /\ (forall u, db.getVideosByUserId u w = (inl Unavailable, w))
    /\ (forall i u d, db.updateVideo i u d w = (inl Unavailable, w))
    /\ (forall i u, db.deleteVideo i u w = (inl Unavailable, w))
    /\ (forall i, db.countVideosByProjectId i w = (inl Unavailable, w))
    /\ (forall d, db.createDocument d w = (inl Unavailable, w))
    /\ (forall i u, db.getDocumentByProjectId i u w = (inl Unavailable, w))
    /\ (forall u, db.getDocumentsByUserId u w = (inl Unavailable, w))
    /\ (forall i u d, db.updateDocument i u d w = (inl Unavailable, w))
    /\ (forall i u, db.deleteDocument i u w = (inl Unavailable, w)).
Proof.
  intros w Hdb.
  assert (G : db.getDb w = (inl Unavailable, w))
    by (unfold db.getDb; now rewrite Hdb).
  repeat split; intros;
    unfold db.createProject, db.getProjectsByUserId, db.getProjectById,
      db.getProjectByName, db.getOrCreateNewIdeasProject, db.updateProject,
      db.deleteProject, db.createVideo, db.getVideosByProjectId,
      db.getVideoById, db.getVideosByUserId, db.updateVideo, db.deleteVideo,
      db.countVideosByProjectId, db.createDocument, db.getDocumentByProjectId,
      db.getDocumentsByUserId, db.updateDocument, db.deleteDocument;
    unfold bind at 1; now rewrite G.
Qed.

Lemma helpers_need_the_database_witness :
  database offline = None
  /\ db.getProjectsByUserId 1 offline = (inl Unavailable, offline)
  /\ db.deleteVideo 1 1 offline = (inl Unavailable, offline).
Proof.
  split; [reflexivity|].
  destruct (helpers_need_the_database offline eq_refl)
    as (_ & H2 & _ & _ & _ & _ & _ & _ & _ & _ & _ & _ & H13 & _).
  split; [apply H2 | apply H13].
Defined.

Section Ordering.
Variable A : Type.
Variable key : A -> nat.

Lemma descending_cons (x : A) (l : list A) :
  descending key (x :: l) = true <->
  (forall y, hd_error l = Some y -> key y <= key x)
  /\ descending key l = true.
Proof.
  cbn [descending]. destruct l as [|y r].
  - split; [|reflexivity]. intros _. split; [discriminate | reflexivity].
  - rewrite andb_true_iff, Nat.leb_le. split.
    + intros [H1 H2]. split; [|exact H2]. intros z Hz. cbn in Hz.
      now injection Hz as <-.
    + intros [H1 H2]. split; [now apply H1 | exact H2].
Qed.

Lemma insert_desc_hd (x : A) (l : list A) (y : A) :
  hd_error (insert_desc key x l) = Some y ->
  y = x \/ (hd_error l = Some y /\ key x < key y).
Proof.
  destruct l as [|z r]; cbn [insert_desc hd_error].
  - intros H. injection H as <-. now left.
  - destruct (key x <? key z) eqn:Hlt; cbn [hd_error]; intros H;
      injection H as <-.
    + right. split; [reflexivity | now apply Nat.ltb_lt].
    + now left.
Qed.

Lemma insert_desc_descending (x : A) (l : list A) :
  descending key l = true -> descending key (insert_desc key x l) = true.
Proof.
  induction l as [|z r IH]; [reflexivity|].
  intros Hd. apply descending_cons in Hd as [Hhd Hr].
  cbn [insert_desc]. destruct (key x <? key z) eqn:Hlt.
  - apply descending_cons. split; [|now apply IH].
    intros y Hy. apply insert_desc_hd in Hy as [->|[Hy _]].
    + apply Nat.ltb_lt in Hlt. lia.
    + now apply Hhd.
  - apply descending_cons. split.
    + intros y Hy. injection Hy as <-. apply Nat.ltb_ge in Hlt. exact Hlt.
    + apply descending_cons. now split.
Qed.

Lemma orderBy_desc_descending (l : list A) :
  descending key (orderBy_desc key l) = true.
Proof.
  induction l as [|x l IH]; [reflexivity|].
  cbn. now apply insert_desc_descending.
Qed.

Lemma descending_hd_max (x : A) (l : list A) :
  descending key (x :: l) = true -> forall y, In y l -> key y <= key x.
Proof.
  revert x. induction l as [|z r IH]; intros x Hd y Hy; [destruct Hy|].
  apply descending_cons in Hd as [Hhd Hr].
  pose proof (Hhd z eq_refl) as Hz.
  destruct Hy as [<-|Hy]; [exact Hz|].
  pose proof (IH z Hr y Hy). lia.
Qed.

End Ordering.

(** X18.  the three lists of a user hold that user's rows, all of them and
    each once, the most recently updated project, the most recently
    created video and the most recently updated document first. *)
Theorem lists_are_complete_and_ordered :
  forall u w t,
    database w = Some t ->
    exists lp lv ld,
      db.getProjectsByUserId u w = (inr lp, w)
      /\ Permutation lp (filter (fun p => Project.userId p =? u) (projects t))
      /\ descending Project.updatedAt lp = true
      /\ db.getVideosByUserId u w = (inr lv, w)
      /\ Permutation lv (filter (fun v => Video.userId v =? u) (videos t))
      /\ descending Video.createdAt lv = true
      /\ db.getDocumentsByUserId u w = (inr ld, w)
      /\ Permutation ld (filter (fun d => Document.userId d =? u)
                                (documents t))
      /\ descending Document.updatedAt ld = true.
Proof.
  intros u [d tr n] t Hdb. cbn [database] in Hdb. subst d.
  eexists. eexists. eexists.
  split; [apply getProjectsByUserId_run|].
  split; [apply orderBy_desc_perm|].
  split; [apply orderBy_desc_descending|].
  split; [apply getVideosByUserId_run|].
  split; [apply orderBy_desc_perm|].
  split; [apply orderBy_desc_descending|].
  split; [apply getDocumentsByUserId_run|].
  split; [apply orderBy_desc_perm | apply orderBy_desc_descending].
Qed.

Lemma lists_are_complete_and_ordered_witness :
  database world3 = Some (tablesOf world3)
  /\ exists lp lv ld,
      db.getProjectsByUserId 1 world3 = (inr lp, world3)
      /\ Permutation lp (filter (fun p => Project.userId p =? 1)
                                (projects (tablesOf world3)))
      /\ descending Project.updatedAt lp = true
      /\ db.getVideosByUserId 1 world3 = (inr lv, world3)
      /\ Permutation lv (filter (fun v => Video.userId v =? 1)
                                (videos (tablesOf world3)))
      /\ descending Video.createdAt lv = true
      /\ db.getDocumentsByUserId 1 world3 = (inr ld, world3)
      /\ Permutation ld (filter (fun d => Document.userId d =? 1)
                                (documents (tablesOf world3)))
      /\ descending Document.updatedAt ld = true.
Proof.
  split; [exact database_world3|].
  exact (lists_are_complete_and_ordered 1 world3 (tablesOf world3)
           database_world3).
Defined.

(** X19.  the document of a project is the one of highest version among the
    documents of that project and of that user; there is none only when
    there is no such document. *)
Theorem document_of_highest_version :
  forall projectId userId w t,
    database w = Some t ->
    exists answer,
      db.getDocumentByProjectId projectId userId w = (inr answer, w)
      /\ match answer with
         | Some d =>
           In d (documents t)
           /\ Document.projectId d = projectId
           /\ Document.userId d = userId
           /\ forall d',
               In d' (documents t) ->
               Document.projectId d' = projectId ->
               Document.userId d' = userId ->
               Document.version d' <= Document.version d
         | None =>
           forall d',
             In d' (documents t) ->
             Document.projectId d' = projectId ->
             Document.userId d' <> userId
         end.
Proof.
  intros projectId userId [d0 tr n] t Hdb. cbn [database] in Hdb. subst d0.
  exists (currentDocument projectId userId t).
  split; [apply getDocumentByProjectId_run|].
  destruct (currentDocument projectId userId t) as [d|] eqn:Hd.
  - destruct (currentDocument_in _ _ _ _ Hd) as (Hin & Hp & Hu).
    repeat split; try assumption.
    intros d' Hin' Hp' Hu'. unfold currentDocument in Hd.
    set (l := filter _ (documents t)) in Hd.
    assert (Hl : In d' (orderBy_desc Document.version l)).
    { apply orderBy_desc_in. apply filter_In. split; [exact Hin'|].
      now rewrite Hp', Hu', !Nat.eqb_refl. }
    pose proof (orderBy_desc_descending _ Document.version l) as Hs.
    destruct (orderBy_desc Document.version l) as [|x r]; [destruct Hl|].
    cbn in Hd. injection Hd as ->.
    destruct Hl as [->|Hl]; [lia|].
    now apply (descending_hd_max _ Document.version d r).
  - intros d' Hin' Hp' Hu'.
    apply (no_document_key _ _ _ Hd).
    apply in_map_iff. exists d'. split; [|exact Hin'].
    unfold document_key. now rewrite Hp', Hu'.
Qed.

Lemma document_of_highest_version_witness :
  database world3 = Some (tablesOf world3)
  /\ exists answer,
      db.getDocumentByProjectId 2 1 world3 = (inr answer, world3)
      /\ match answer with
         | Some d =>
           In d (documents (tablesOf world3))
           /\ Document.projectId d = 2
           /\ Document.userId d = 1
           /\ forall d',
               In d' (documents (tablesOf world3)) ->
               Document.projectId d' = 2 ->
               Document.userId d' = 1 ->
               Document.version d' <= Document.version d
         | None =>
           forall d',
             In d' (documents (tablesOf world3)) ->
             Document.projectId d' = 2 ->
             Document.userId d' <> 1
         end.
Proof.
  split; [exact database_world3|].
  exact (document_of_highest_version 2 1 world3 (tablesOf world3)
           database_world3).
Defined.

(** X20.  the count of the videos of a project is the length of the list of
    its videos that its owner gets. *)
Theorem count_agrees_with_the_list :
  forall w t p,
    database w = Some t ->
    consistent t ->
    In p (projects t) ->
    exists l,
      db.getVideosByProjectId (Project.id p) (Project.userId p) w = (inr l, w)
      /\ db.countVideosByProjectId (Project.id p) w = (inr (length l), w).
Proof.
  intros [d tr n] t p Hdb Hc Hin. cbn [database] in Hdb. subst d.
  eexists. split; [apply getVideosByProjectId_run|].
  unfold db.countVideosByProjectId, bind, db.getDb, db.query, ret.
  cbn [database fst snd]. f_equal. f_equal.
  rewrite (Permutation_length (orderBy_desc_perm _ Video.createdAt _)).
  unfold where_. f_equal. apply filter_ext_in. intros v Hv.
  destruct (Video.projectId v =? Project.id p) eqn:He; [|reflexivity].
  apply Nat.eqb_eq in He.
  rewrite (videos_follow_projects Hc v p Hv Hin He).
  now rewrite Nat.eqb_refl.
Qed.

Lemma count_agrees_with_the_list_witness :
  database world3 = Some (tablesOf world3)
  /\ consistent (tablesOf world3)
  /\ In (projectOf 2 1 world3) (projects (tablesOf world3))
  /\ exists l,
      db.getVideosByProjectId (Project.id (projectOf 2 1 world3))
        (Project.userId (projectOf 2 1 world3)) world3 = (inr l, world3)
      /\ db.countVideosByProjectId (Project.id (projectOf 2 1 world3)) world3
         = (inr (length l), world3).
Proof.
  assert (H3 : In (projectOf 2 1 world3) (projects (tablesOf world3)))
    by (vm_compute; right; left; reflexivity).
  split; [exact database_world3|]. split; [exact consistent_world3|].
  split; [exact H3|].
  exact (count_agrees_with_the_list world3 (tablesOf world3)
           (projectOf 2 1 world3) database_world3 consistent_world3 H3).
Defined.

Lemma find_snoc_other (A : Type) (f : A -> bool) (l : list A) (x : A) :
  f x = false -> find f (l ++ [x]) = find f l.
Proof.
  intros Hx. induction l as [|y l IH]; cbn.
  - now rewrite Hx.
  - destruct (f y); [reflexivity | exact IH].
Qed.

(** X21.  A project or a video with values within the limits of the
    columns, once inserted, is found under the identifier of the counter,
    with the defaults of the schema for the columns that were not given,
    and the rows under the other identifiers are found as before. *)
Theorem inserted_rows_are_found :
  forall w t,
    database w = Some t ->
    consistent t ->
    (forall p,
        fits_project p = true ->
        db.getProjectById (next_project_id t) (InsertProject.userId p)
                          (snd (db.createProject p w))
        = (inr (Some (Project.mk (next_project_id t)
                        (InsertProject.userId p) (InsertProject.name p)
                        (InsertProject.description p)
                        (or_else (InsertProject.isNewIdeas p) false)
                        (InsertProject.thumbnailUrl p)
                        (InsertProject.color p) (now w) (now w))),
           snd (db.createProject p w))
        /\ forall i u,
            i <> next_project_id t ->
            fst (db.getProjectById i u (snd (db.createProject p w)))
            = fst (db.getProjectById i u w))
    /\ (forall v,
           fits_video v = true ->
           db.getVideoById (next_video_id t) (InsertVideo.userId v)
                           (snd (db.createVideo v w))
           = (inr (Some (Video.mk (next_video_id t)
                           (InsertVideo.userId v) (InsertVideo.projectId v)
                           (InsertVideo.filename v) (InsertVideo.videoUrl v)
                           (InsertVideo.videoKey v) (InsertVideo.duration v)
                           (InsertVideo.fileSize v) (InsertVideo.mimeType v)
                           (InsertVideo.transcription v)
                           (InsertVideo.firstKeyword v)
                           (or_else (InsertVideo.status v) uploading)
                           (InsertVideo.errorMessage v) (now w) (now w))),
              snd (db.createVideo v w))
           /\ forall i u,
               i <> next_video_id t ->
               fst (db.getVideoById i u (snd (db.createVideo v w)))
               = fst (db.getVideoById i u w)).
Proof.
  intros [d tr n] t Hdb Hc. cbn [database] in Hdb. subst d. cbn [now].
  split.
  - intros p _. rewrite createProject_run. cbn [snd].
    split; [|intros i u Hi]; rewrite !getProjectById_run; cbn [fst];
      f_equal; unfold findProject; cbn [db.insert_project projects].
    + f_equal. apply find_snoc_fresh.
      * intros r Hr. pose proof (project_ids_below Hc r Hr) as Hlt.
        destruct (Project.id r =? next_project_id t) eqn:He; [|reflexivity].
        apply Nat.eqb_eq in He. lia.
      * cbn. now rewrite !Nat.eqb_refl.
    + apply find_snoc_other. cbn.
      destruct (next_project_id t =? i) eqn:He; [|reflexivity].
      apply Nat.eqb_eq in He. congruence.
  - intros v _. rewrite createVideo_run. cbn [snd].
    split; [|intros i u Hi]; rewrite !getVideoById_run; cbn [fst];
      f_equal; unfold findVideo; cbn [db.insert_video videos].
    + f_equal. apply find_snoc_fresh.
      * intros r Hr. pose proof (video_ids_below Hc r Hr) as Hlt.
        destruct (Video.id r =? next_video_id t) eqn:He; [|reflexivity].
        apply Nat.eqb_eq in He. lia.
      * cbn. now rewrite !Nat.eqb_refl.
    + apply find_snoc_other. cbn.
      destruct (next_video_id t =? i) eqn:He; [|reflexivity].
      apply Nat.eqb_eq in He. congruence.
Qed.

Lemma inserted_rows_are_found_witness :
  database world3 = Some (tablesOf world3)
  /\ consistent (tablesOf world3)
  /\ fits_project (db.newIdeasValues 2) = true
  /\ db.getProjectById 3 2 (snd (db.createProject (db.newIdeasValues 2) world3))
     = (inr (Some (newIdeasProject 2 (tablesOf world3) 1000)),
        snd (db.createProject (db.newIdeasValues 2) world3))
  /\ fst (db.getProjectById 2 1
            (snd (db.createProject (db.newIdeasValues 2) world3)))
     = fst (db.getProjectById 2 1 world3).
Proof.
  assert (Hf : fits_project (db.newIdeasValues 2) = true)
    by (vm_compute; reflexivity).
  split; [exact database_world3|]. split; [exact consistent_world3|].
  split; [exact Hf|].
  destruct (proj1 (inserted_rows_are_found world3 (tablesOf world3)
                     database_world3 consistent_world3)
                  (db.newIdeasValues 2) Hf) as [H1 H2].
  split; [exact H1|]. apply H2. vm_compute. discriminate.
Defined.

(* ================================================================== *)
(** ** The patterns of the two services *)
(* ================================================================== *)

Lemma star_any_states : forall fuel s pv cp,
  length s < fuel ->
  star_loop (run any) fuel (MState pv s cp) = suffix_states pv s cp.
Proof.
  induction fuel as [|k IH]; intros s pv cp Hlen; [lia|].
  cbn [star_loop]. destruct s as [|c t]; [reflexivity|].
  cbn [run any rest caps flat_map suffix_states].
  replace (length t <? length (c :: t)) with true
    by (symmetry; apply Nat.ltb_lt; cbn; lia).
  rewrite app_nil_r. rewrite IH by (cbn in Hlen; lia). reflexivity.
Qed.

Lemma no_close_no_stop : forall s pv cp,
  existsb isClose s = false ->
  flat_map (run (Chr (N.eqb 125))) (suffix_states pv s cp) = [].
Proof.
  induction s as [|c t IH]; intros pv cp H; [reflexivity|].
  cbn in H. apply orb_false_elim in H as [Hc Ht].
  cbn [suffix_states]. rewrite flat_map_app, IH by exact Ht.
  cbn [flat_map run rest app]. unfold isClose in Hc.
  rewrite N.eqb_sym in Hc. now rewrite Hc.
Qed.

Lemma hd_error_app_some (A : Type) (l1 l2 : list A) (x : A) :
  hd_error l1 = Some x -> hd_error (l1 ++ l2) = Some x.
Proof. destruct l1; [discriminate | exact (fun H => H)]. Qed.

Lemma last_close_stops : forall b c pv cp,
  existsb isClose c = false ->
  exists q,
    hd_error (flat_map (run (Chr (N.eqb 125)))
                       (suffix_states pv (b ++ 125%N :: c) cp))
    = Some (MState q c cp).
Proof.
  induction b as [|x b IH]; intros c pv cp Hc.
  - exists (Some 125%N). cbn [app suffix_states].
    rewrite flat_map_app, no_close_no_stop by exact Hc. reflexivity.
  - destruct (IH c (Some x) cp Hc) as [q Hq]. exists q.
    cbn [app suffix_states]. rewrite flat_map_app.
    now apply hd_error_app_some.
Qed.

Lemma json_match_at_open pv r :
  match_at jsonRegex pv (123%N :: r)
  = hd_error (flat_map (run (Chr (N.eqb 125)))
                       (suffix_states (Some 123%N) r [])).
Proof.
  unfold match_at, jsonRegex. cbn [seq_of run rest caps flat_map].
  cbn [N.eqb Pos.eqb]. cbn [flat_map]. rewrite app_nil_r.
  cbn [run rest]. rewrite star_any_states by lia. reflexivity.
Qed.

Lemma json_match_at_other pv s :
  match s with c :: _ => isOpen c = false | [] => True end ->
  match_at jsonRegex pv s = None.
Proof.
  unfold match_at, jsonRegex. cbn [seq_of run rest caps].
  destruct s as [|c t]; [reflexivity|]. unfold isOpen.
  rewrite N.eqb_sym. intros ->. reflexivity.
Qed.

Lemma json_exec_skips : forall a s i pv,
  existsb isOpen a = false ->
  exists q,
    exec_from jsonRegex i pv (a ++ s)
    = exec_from jsonRegex (i + length a) q s.
Proof.
  induction a as [|c a IH]; intros s i pv Ha.
  - exists pv. cbn. now rewrite Nat.add_0_r.
  - cbn in Ha. apply orb_false_elim in Ha as [Hc Ha].
    destruct (IH s (S i) (Some c) Ha) as [q Hq]. exists q.
    cbn [app exec_from]. rewrite json_match_at_other by exact Hc.
    rewrite Hq. f_equal. cbn. lia.
Qed.

Lemma json_exec_none : forall s i pv,
  existsb isClose s = false -> exec_from jsonRegex i pv s = None.
Proof.
  induction s as [|c t IH]; intros i pv Hs.
  - cbn [exec_from]. now rewrite json_match_at_other.
  - cbn in Hs. apply orb_false_elim in Hs as [_ Ht].
    cbn [exec_from].
    assert (Hm : match_at jsonRegex pv (c :: t) = None).
    { destruct (isOpen c) eqn:Ho.
      - unfold isOpen in Ho. apply N.eqb_eq in Ho. subst c.
        rewrite json_match_at_open. now rewrite no_close_no_stop.
      - now apply json_match_at_other. }
    rewrite Hm. now apply IH.
Qed.

(** X22.  the pattern that looks for the JSON object of the answer matches
    from the first opening brace to the last closing brace that follows
    it, whatever lies between them; it matches nothing when no closing
    brace follows the first opening brace. *)
Theorem json_match_is_the_widest :
  (forall a b c,
      existsb isOpen a = false ->
      existsb isClose c = false ->
      exec jsonRegex (a ++ 123%N :: b ++ 125%N :: c)
      = Some (MatchResult (length a) (123%N :: b ++ [125%N]) []))
  /\ (forall s,
         existsb isClose (dropWhile (fun c => negb (isOpen c)) s) = false ->
         exec jsonRegex s = None).
Proof.
  split.
  - intros a b c Ha Hc. unfold exec.
    destruct (json_exec_skips a (123%N :: b ++ 125%N :: c) 0 None Ha)
      as [q ->].
    cbn [exec_from Nat.add]. rewrite json_match_at_open.
    destruct (last_close_stops b c (Some 123%N) [] Hc) as [q' ->].
    cbn [rest caps]. f_equal. f_equal.
    replace (length (123%N :: b ++ 125%N :: c) - length c)
      with (S (length b + 1))
      by (cbn [length]; rewrite length_app; cbn [length]; lia).
    cbn [firstn]. f_equal.
    replace (b ++ 125%N :: c) with ((b ++ [125%N]) ++ c)
      by (now rewrite <- app_assoc).
    rewrite firstn_app.
    replace (length b + 1 - length (b ++ [125%N])) with 0
      by (rewrite length_app; cbn; lia).
    rewrite firstn_all2 by (rewrite length_app; cbn; lia).
    cbn. now rewrite app_nil_r.
  - intros s Hs. unfold exec.
    rewrite <- (takeWhile_dropWhile _ (fun c => negb (isOpen c)) s).
    destruct (json_exec_skips (takeWhile (fun c => negb (isOpen c)) s)
                (dropWhile (fun c => negb (isOpen c)) s) 0 None) as [q ->].
    + clear Hs. induction s as [|c t IH]; [reflexivity|].
      cbn. destruct (isOpen c) eqn:Ho; cbn; [reflexivity|].
      now rewrite Ho.
    + now apply json_exec_none.
Qed.

Lemma json_match_is_the_widest_witness :
  existsb isOpen (js "ok ") = false
  /\ existsb isClose (js " fin") = false
  /\ exec jsonRegex (js "ok " ++ 123%N :: js "a} {b" ++ 125%N :: js " fin")
     = Some (MatchResult (length (js "ok "))
                         (123%N :: js "a} {b" ++ [125%N]) []).
Proof.
  split; [reflexivity|]. split; [reflexivity|].
  apply (proj1 json_match_is_the_widest); reflexivity.
Defined.

(* ------------------------------------------------------------------ *)
(* the title of a generated document *)

Lemma hd_error_flat_map (A B : Type) (f : A -> list B) (l : list A)
      (a : A) (b : B) :
  hd_error l = Some a -> hd_error (f a) = Some b ->
  hd_error (flat_map f l) = Some b.
Proof.
  destruct l as [|x l]; [discriminate|]. cbn. intros H. injection H as ->.
  now apply hd_error_app_some.
Qed.

Lemma hd_error_map (A B : Type) (f : A -> B) (l : list A) :
  hd_error (map f l) = option_map f (hd_error l).
Proof. now destruct l. Qed.

(** The head of a greedy run of one character class. *)
Lemma plus_head (p : N -> bool) (c : N) (s : jsstring) pv cp :
  p c = true ->
  exists q,
    hd_error (run (Plus (Chr p)) (MState pv (c :: s) cp))
    = Some (MState q (dropWhile p s) cp).
Proof.
  intros Hc. unfold Plus. cbn [run rest caps]. rewrite Hc.
  cbn [flat_map]. rewrite app_nil_r. cbn [run rest].
  apply (star_loop_head p (run (Chr p)) (fun st => eq_refl)). lia.
Qed.

Lemma dropWhile_app_stop (A : Type) (p : A -> bool) (a b : list A) :
  forallb p a = true ->
  match b with [] => True | x :: _ => p x = false end ->
  dropWhile p (a ++ b) = b.
Proof.
  intros Ha Hb. induction a as [|x a IH]; cbn in *.
  - destruct b as [|y b]; [reflexivity|]. cbn. now rewrite Hb.
  - apply andb_prop in Ha as [Hx Ha]. rewrite Hx. now apply IH.
Qed.

Lemma lineTerminator_is_whiteSpace (c : N) :
  isLineTerminator c = true -> isWhiteSpace c = true.
Proof.
  unfold isLineTerminator. intros H.
  repeat (apply orb_prop in H as [H|H]); apply N.eqb_eq in H; subst c;
    reflexivity.
Qed.

Lemma title_match_at_heading gap c title more :
  gap <> [] ->
  forallb isWhiteSpace gap = true ->
  isWhiteSpace c = false ->
  forallb (fun x => negb (isLineTerminator x)) title = true ->
  match more with [] => True | x :: _ => isLineTerminator x = true end ->
  exists q,
    match_at titleRegex None (35%N :: gap ++ (c :: title) ++ more)
    = Some (MState q more [c :: title]).
Proof.
  intros Hgap Hws Hc Htitle Hrest.
  destruct gap as [|g gap]; [contradiction|].
  cbn in Hws. apply andb_prop in Hws as [Hg Hws].
  assert (Hdot : negb (isLineTerminator c) = true).
  { destruct (isLineTerminator c) eqn:Hl; [|reflexivity].
    apply lineTerminator_is_whiteSpace in Hl. congruence. }
  unfold match_at, titleRegex.
  cbn [seq_of run prev RegExp.rest caps flat_map]. rewrite app_nil_r.
  cbn [N.eqb Pos.eqb flat_map]. rewrite app_nil_r.
  cbn [app].
  destruct (plus_head isWhiteSpace g (gap ++ (c :: title) ++ more)
                      (Some 35%N) [] Hg) as [q1 H1].
  rewrite dropWhile_app_stop in H1; [|exact Hws|cbn; exact Hc].
  destruct (plus_head (fun x => negb (isLineTerminator x)) c (title ++ more)
                      q1 [] Hdot) as [q2 H2].
  rewrite dropWhile_app_stop in H2;
    [|exact Htitle|destruct more; [exact I | now rewrite Hrest]].
  exists q2.
  apply (hd_error_flat_map _ _ _ _ _ _ H1).
  change (run (Seq (Group (Plus dot)) Eol)
              (MState q1 ((c :: title) ++ more) []))
    with (flat_map (run Eol)
            (map (fun st' =>
                    MState (prev st') (RegExp.rest st')
                      (caps st'
                       ++ [firstn (length ((c :: title) ++ more)
                                   - length (RegExp.rest st'))
                                  ((c :: title) ++ more)]))
                 (run (Plus dot) (MState q1 ((c :: title) ++ more) [])))).
  apply hd_error_flat_map
    with (a := MState q2 more [c :: title]).
  - rewrite hd_error_map. unfold dot. cbn [app]. rewrite H2.
    cbn [option_map prev RegExp.rest caps app]. f_equal. f_equal. f_equal.
    replace (length (c :: title ++ more) - length more)
      with (length (c :: title))
      by (cbn [length]; rewrite length_app; lia).
    change (c :: title ++ more) with ((c :: title) ++ more).
    rewrite firstn_app, Nat.sub_diag, firstn_all. cbn. now rewrite app_nil_r.
  - cbn [run RegExp.rest]. destruct more as [|x more]; [reflexivity|].
    now rewrite Hrest.
Qed.

Lemma run_seq (a b : regex) (st : mstate) :
  run (Seq a b) st = flat_map (run b) (run a st).
Proof. reflexivity. Qed.

Lemma title_match_at_none pv s :
  match s with c :: _ => (c =? 35)%N = false | [] => True end ->
  match_at titleRegex pv s = None.
Proof.
  intros Hs. unfold match_at, titleRegex. cbn [seq_of].
  assert (Hn : run (Seq (Chr (N.eqb 35))
                        (Seq (Plus ws) (Seq (Group (Plus dot)) Eol)))
                   (MState pv s []) = []).
  { rewrite run_seq. cbn [run RegExp.rest caps].
    destruct s as [|c t]; [reflexivity|].
    rewrite N.eqb_sym, Hs. reflexivity. }
  rewrite run_seq.
  assert (Hb : run Bol (MState pv s []) = [MState pv s []]
               \/ run Bol (MState pv s []) = []).
  { cbn [run prev]. destruct pv as [c|]; [destruct (isLineTerminator c)|];
      auto. }
  destruct Hb as [-> | ->]; cbn [flat_map]; rewrite ?Hn; reflexivity.
Qed.

Lemma title_exec_none : forall s i pv,
  existsb (N.eqb 35) s = false -> exec_from titleRegex i pv s = None.
Proof.
  induction s as [|c t IH]; intros i pv Hs.
  - cbn [exec_from]. now rewrite title_match_at_none.
  - cbn in Hs. apply orb_false_elim in Hs as [Hc Ht].
    cbn [exec_from]. rewrite title_match_at_none.
    + now apply IH.
    + now rewrite N.eqb_sym.
Qed.

(** X23.  the title of a generated document is the title that
    [generateProjectDocument] answers.  For a document that opens with a
    heading it is the text of that heading, without the white space
    between the mark and the text; for a document without any heading
    mark it is made of the name of the project. *)
Theorem title_of_a_generated_document :
  (forall E input w generated,
      fst (generateProjectDocument E input w) = inr generated ->
      GeneratedDocument.title generated
      = titleOf (DocumentGenerationInput.projectName input)
                (GeneratedDocument.content generated))
  /\ (forall name gap c title more,
         gap <> [] ->
         forallb isWhiteSpace gap = true ->
         isWhiteSpace c = false ->
         forallb (fun x => negb (isLineTerminator x)) title = true ->
         match more with [] => True | x :: _ => isLineTerminator x = true end ->
         titleOf name (35%N :: gap ++ (c :: title) ++ more) = c :: title)
  /\ (forall name content,
         existsb (N.eqb 35) content = false ->
         titleOf name content = js "Document de présentation - " ++ name).
Proof.
  split; [|split].
  - intros E input w generated. unfold generateProjectDocument.
    destruct (negb (ANTHROPIC_API_KEY E)); [discriminate|].
    unfold try_catch, bind, messages, call. cbn [fst snd trace].
    destruct (messages_create E (trace w) (documentRequest input))
      as [e|[|[content|] others]]; cbn [fst snd throw]; try discriminate.
    destruct (messages_create E _ (summaryRequest content))
      as [e|[|[summary|] others']]; cbn [fst snd throw ret];
      try discriminate; intros H; injection H as <-; reflexivity.
  - intros name gap c title more Hgap Hws Hc Htitle Hrest.
    unfold titleOf, exec. cbn [exec_from].
    destruct (title_match_at_heading gap c title more Hgap Hws Hc Htitle Hrest)
      as [q ->].
    reflexivity.
  - intros name content Hn. unfold titleOf, exec.
    now rewrite title_exec_none.
Qed.

Lemma title_of_a_generated_document_witness :
  titleOf (js "Atlas")
          (35%N :: js " " ++ (80%N :: js "hoenix") ++ LF :: js "Refonte.")
  = 80%N :: js "hoenix"
  /\ titleOf (js "Atlas") (js "Refonte.")
     = js "Document de présentation - " ++ js "Atlas".
Proof.
  destruct title_of_a_generated_document as (_ & H2 & H3).
  split.
  - apply H2; vm_compute; (reflexivity || discriminate || exact I).
  - apply H3. vm_compute. reflexivity.
Defined.

(* ================================================================== *)
(** ** The shape of the keyword *)
(* ================================================================== *)

Lemma words_from_are_words : forall s cur,
  forallb (fun c => negb (isWhiteSpace c)) cur = true ->
  Forall (fun w => isWord w = true /\ incl w (cur ++ s)) (words_from cur s).
Proof.
  induction s as [|c t IH]; intros cur Hcur.
  - cbn [words_from]. destruct cur as [|x cur]; constructor; [|constructor].
    split; [exact Hcur | rewrite app_nil_r; apply incl_refl].
  - cbn [words_from]. destruct (isWhiteSpace c) eqn:Hc.
    + assert (Ht : Forall (fun w => isWord w = true /\ incl w (cur ++ c :: t))
                          (words_from [] t)).
      { eapply Forall_impl; [|apply (IH [] eq_refl)].
        intros w [Hw Hi]. split; [exact Hw|].
        intros a Ha. apply in_or_app. right. right. now apply Hi. }
      destruct cur as [|x cur]; [exact Ht|].
      constructor; [|exact Ht]. split; [exact Hcur|].
      now apply incl_appl, incl_refl.
    + eapply Forall_impl; [|apply (IH (cur ++ [c]))].
      * intros w [Hw Hi]. split; [exact Hw|]. now rewrite <- app_assoc in Hi.
      * rewrite forallb_app, Hcur. cbn. now rewrite Hc.
Qed.

Lemma words_from_word : forall w cur more,
  forallb (fun c => negb (isWhiteSpace c)) w = true ->
  words_from cur (w ++ more) = words_from (cur ++ w) more.
Proof.
  induction w as [|c w IH]; intros cur more Hw.
  - now rewrite app_nil_r.
  - cbn in Hw. apply andb_prop in Hw as [Hc Hw].
    cbn [app words_from]. apply negb_true_iff in Hc. rewrite Hc.
    rewrite IH by exact Hw. now rewrite <- app_assoc.
Qed.

Lemma isWord_solid w :
  isWord w = true ->
  w <> [] /\ forallb (fun c => negb (isWhiteSpace c)) w = true.
Proof. destruct w; [discriminate|]. intros H. split; [discriminate|exact H]. Qed.

(** The words of words joined by single spaces are those words. *)
Lemma words_join (l : list jsstring) :
  Forall (fun w => isWord w = true) l -> words (join (js " ") l) = l.
Proof.
  unfold words. induction 1 as [|x l Hx Hl IH]; [reflexivity|].
  apply isWord_solid in Hx as [Hne Hx].
  destruct l as [|y r].
  - cbn [join]. rewrite <- (app_nil_r x) at 1.
    rewrite words_from_word by exact Hx. cbn. now destruct x.
  - change (join (js " ") (x :: y :: r))
      with (x ++ 32%N :: join (js " ") (y :: r)).
    rewrite words_from_word by exact Hx. cbn [app words_from].
    change (isWhiteSpace 32) with true. cbn iota.
    rewrite IH. now destruct x.
Qed.

Lemma in_join c sep (l : list jsstring) :
  In c (join sep l) -> In c sep \/ exists w, In w l /\ In c w.
Proof.
  induction l as [|x l IH]; [intros []|].
  destruct l as [|y r].
  - cbn. intros H. right. exists x. auto.
  - change (join sep (x :: y :: r)) with (x ++ sep ++ join sep (y :: r)).
    intros H. apply in_app_or in H as [H|H].
    + right. exists x. split; [now left | exact H].
    + apply in_app_or in H as [H|H]; [now left|].
      destruct (IH H) as [H'|(w & Hw & Hc)]; [now left|].
      right. exists w. split; [now right | exact Hc].
Qed.

Lemma in_firstn (A : Type) (x : A) n (l : list A) :
  In x (firstn n l) -> In x l.
Proof.
  revert l. induction n as [|n IH]; intros [|y l]; cbn; try tauto.
  intros [H|H]; [now left | right; now apply IH].
Qed.

Lemma in_takeWhile (A : Type) (p : A -> bool) (x : A) (l : list A) :
  In x (takeWhile p l) -> In x l /\ p x = true.
Proof.
  induction l as [|y l IH]; cbn; [tauto|].
  destruct (p y) eqn:Hy; [|intros []].
  intros [<-|H]; [auto|]. destruct (IH H). auto.
Qed.

Lemma join_nil (l : list jsstring) :
  Forall (fun w => isWord w = true) l -> join (js " ") l = [] -> l = [].
Proof.
  intros Hl Hj. destruct l as [|x l]; [reflexivity|].
  inversion Hl as [|? ? Hx _]; subst.
  destruct x as [|c x]; [discriminate|].
  destruct l; discriminate.
Qed.

Lemma words_nil : forall s cur,
  words_from cur s = [] <-> cur = [] /\ forallb isWhiteSpace s = true.
Proof.
  induction s as [|c t IH]; intros cur; cbn [words_from forallb].
  - destruct cur; split; try tauto; try discriminate.
    intros [H _]. discriminate.
  - destruct (isWhiteSpace c) eqn:Hc; cbn [andb].
    + destruct cur as [|x cur].
      * rewrite IH. tauto.
      * split; [discriminate | intros [H _]; discriminate].
    + rewrite IH. split; [|intros [_ H]; discriminate].
      intros [H _]. destruct cur; discriminate.
Qed.

(** The keyword in the words of the leading clause. *)
Lemma keyword_of_words (lc : jsstring -> jsstring) (transcript : jsstring) :
  matchesNewIdeaCue (lc (trim transcript)) = false ->
  keyword (extractFirstKeyword lc transcript)
  = join (js " ") (firstn 3 (words (leadingClause (lc (trim transcript))))).
Proof.
  intros Hcue. unfold extractFirstKeyword.
  fold (matchesNewIdeaCue (lc (trim transcript))). rewrite Hcue.
  cbn [keyword]. unfold slice0. rewrite split_clause_head.
  apply split_words_trimmed.
Qed.

(** X24.  whatever the transcript, the keyword is made of at most three
    words with one space between two of them and no white space before or
    after, and it holds none of the marks that end a clause.  When the
    transcript has no new-idea cue these are the first words of its
    leading clause, so the keyword is empty exactly when that clause is
    empty or white space. *)
Theorem keyword_shape :
  forall (toLowerCase : jsstring -> jsstring) (transcript : jsstring),
    let k := keyword (extractFirstKeyword toLowerCase transcript) in
    let text := toLowerCase (trim transcript) in
    k = join (js " ") (words k)
    /\ length (words k) <= 3
    /\ existsb isClauseEnd k = false
    /\ (matchesNewIdeaCue text = false ->
        words k = firstn 3 (words (leadingClause text))
        /\ (k = [] <-> forallb isWhiteSpace (leadingClause text) = true)).
Proof.
  intros lc transcript k text.
  destruct (matchesNewIdeaCue text) eqn:Hcue.
  - assert (Hk : k = js "nouvelle idée").
    { unfold k, extractFirstKeyword.
      fold (matchesNewIdeaCue (lc (trim transcript))). fold text.
      now rewrite Hcue. }
    rewrite Hk. split; [vm_compute; reflexivity|].
    split; [vm_compute; lia|]. split; [vm_compute; reflexivity|].
    discriminate.
  - pose proof (keyword_of_words lc transcript Hcue) as Hk.
    fold k text in Hk.
    pose proof (words_from_are_words (leadingClause text) [] eq_refl) as Hw.
    fold (words (leadingClause text)) in Hw. cbn [app] in Hw.
    assert (Hf : Forall (fun w => isWord w = true)
                        (firstn 3 (words (leadingClause text)))).
    { apply Forall_forall. intros w Hin. apply in_firstn in Hin.
      rewrite Forall_forall in Hw. now destruct (Hw w Hin). }
    assert (Hwk : words k = firstn 3 (words (leadingClause text)))
      by (rewrite Hk; now apply words_join).
    split; [now rewrite Hwk|].
    split; [rewrite Hwk; apply firstn_le_length|].
    split.
    + destruct (existsb isClauseEnd k) eqn:He; [|reflexivity].
      apply existsb_exists in He as (c & Hin & Hc).
      rewrite Hk in Hin. apply in_join in Hin as [Hin|(w & Hwin & Hcw)].
      * destruct Hin as [<-|[]]. discriminate Hc.
      * apply in_firstn in Hwin. rewrite Forall_forall in Hw.
        destruct (Hw w Hwin) as [_ Hi]. apply Hi in Hcw.
        apply in_takeWhile in Hcw as [_ Hn]. now rewrite Hc in Hn.
    + intros _. split; [exact Hwk|].
      split.
      * intros H0. rewrite H0 in Hk. symmetry in Hk.
        apply join_nil in Hk; [|exact Hf].
        assert (Hnil : words (leadingClause text) = []).
        { destruct (words (leadingClause text)); [reflexivity|discriminate]. }
        now apply words_nil in Hnil as [_ Hnil].
      * intros Hws. rewrite Hk.
        assert (Hnil : words (leadingClause text) = [])
          by (apply words_nil; auto).
        now rewrite Hnil.
Qed.

Lemma keyword_shape_witness :
  matchesNewIdeaCue (toLowerCase_latin1 (trim (js "  Atlas: la  suite ")))
  = false
  /\ words (keyword (extractFirstKeyword toLowerCase_latin1
                       (js "  Atlas: la  suite ")))
     = [js "atlas"]
  /\ matchesNewIdeaCue (toLowerCase_latin1 (trim (js "... et donc"))) = false
  /\ keyword (extractFirstKeyword toLowerCase_latin1 (js "... et donc")) = [].
Proof.
  assert (H1 : matchesNewIdeaCue
                 (toLowerCase_latin1 (trim (js "  Atlas: la  suite ")))
               = false) by (vm_compute; reflexivity).
  assert (H2 : matchesNewIdeaCue
                 (toLowerCase_latin1 (trim (js "... et donc"))) = false)
    by (vm_compute; reflexivity).
  split; [exact H1|]. split.
  - destruct (keyword_shape toLowerCase_latin1 (js "  Atlas: la  suite "))
      as (_ & _ & _ & H).
    rewrite (proj1 (H H1)). vm_compute. reflexivity.
  - split; [exact H2|].
    destruct (keyword_shape toLowerCase_latin1 (js "... et donc"))
      as (_ & _ & _ & H).
    apply (proj2 (H H2)). vm_compute. reflexivity.
Defined.

(* ================================================================== *)
(** ** db.ts: the user helpers *)
(* ================================================================== *)

Lemma getUserByOpenId_find (openId : jsstring) (t : Users) :
  getUserByOpenId openId (Some t) = find (has_openId openId) (users t).
Proof.
  unfold getUserByOpenId, first, limit, where_.
  rewrite hd_error_firstn_1. apply hd_error_filter.
Qed.

Lemma text_eqb_eq (a b : option jsstring) : text_eqb a b = true -> a = b.
Proof.
  destruct a, b; cbn; try discriminate; [|reflexivity].
  intros H. apply jseqb_eq in H. now subst.
Qed.

Lemma Role_eqb_eq (a b : Role) : Role_eqb a b = true -> a = b.
Proof. destruct a, b; cbn; (reflexivity || discriminate). Qed.

(** Whether it moves updatedAt or not, an update leaves a row with the
    values that [updateSet] gives. *)
Lemma set_user_values (d : UserSet.t) (n : Date) (r : UserRow.t) :
  UserRow.id (set_user d n r) = UserRow.id r
  /\ UserRow.openId (set_user d n r) = UserRow.openId r
  /\ UserRow.createdAt (set_user d n r) = UserRow.createdAt r
  /\ UserRow.name (set_user d n r) = or_else (UserSet.name d) (UserRow.name r)
  /\ UserRow.email (set_user d n r)
     = or_else (UserSet.email d) (UserRow.email r)
  /\ UserRow.loginMethod (set_user d n r)
     = or_else (UserSet.loginMethod d) (UserRow.loginMethod r)
  /\ UserRow.role (set_user d n r) = or_else (UserSet.role d) (UserRow.role r)
  /\ UserRow.lastSignedIn (set_user d n r)
     = or_else (UserSet.lastSignedIn d) (UserRow.lastSignedIn r).
Proof.
  unfold set_user. cbv zeta.
  destruct (same_values r (assign_user d r)) eqn:Hs;
    [|repeat split; reflexivity].
  unfold same_values in Hs.
  repeat (apply andb_prop in Hs as [Hs ?]).
  repeat split; try reflexivity.
  - now apply text_eqb_eq in Hs.
  - now apply text_eqb_eq.
  - now apply text_eqb_eq.
  - now apply Role_eqb_eq.
  - now apply Nat.eqb_eq.
Qed.

Lemma set_user_openId (o : jsstring) (d : UserSet.t) (n : Date)
      (r : UserRow.t) :
  has_openId o (set_user d n r) = has_openId o r.
Proof.
  unfold has_openId. now rewrite (proj1 (proj2 (set_user_values d n r))).
Qed.

Lemma upsertUser_run (owner : jsstring) (user : InsertUser.t) (n : Date)
      (t : Users) :
  InsertUser.openId user <> [] ->
  exists values d,
    upsertUser owner user n (Some t) = (inr tt, Some (insert_user values d n t))
    /\ InsertUser.openId values = InsertUser.openId user
    /\ InsertUser.name values = InsertUser.name user
    /\ InsertUser.email values = InsertUser.email user
    /\ InsertUser.loginMethod values = InsertUser.loginMethod user
    /\ InsertUser.role values
       = match InsertUser.role user with
         | Some x => Some x
         | None => if jseqb (InsertUser.openId user) owner
                   then Some role_admin else None
         end
    /\ InsertUser.lastSignedIn values
       = Some (or_else (InsertUser.lastSignedIn user) n)
    /\ d = if bare user owner
           then UserSet.mk None None None None (Some n)
           else UserSet.mk (InsertUser.name user) (InsertUser.email user)
                  (InsertUser.loginMethod user) (InsertUser.role values)
                  (InsertUser.lastSignedIn user).
Proof.
  intros Ho. unfold upsertUser.
  destruct (InsertUser.openId user) as [|c o] eqn:Eo; [contradiction|].
  cbv zeta. eexists. eexists. split; [reflexivity|].
  cbn [InsertUser.openId InsertUser.name InsertUser.email
       InsertUser.loginMethod InsertUser.role InsertUser.lastSignedIn].
  repeat (split; [reflexivity|]).
  unfold bare, UserSet.is_empty. rewrite Eo.
  cbn [UserSet.name UserSet.email UserSet.loginMethod UserSet.role
       UserSet.lastSignedIn].
  destruct (InsertUser.name user), (InsertUser.email user),
    (InsertUser.loginMethod user), (InsertUser.role user),
    (InsertUser.lastSignedIn user); try reflexivity.
  all: destruct (jseqb (c :: o) owner); try reflexivity.
Qed.

(** X25.  upsertUser followed by getUserByOpenId.  The user is found, under
    the identifier and the creation date that they had if they were
    known.  Each member that is given is stored, each that is absent
    keeps its value or, for a new user, gets the default of the schema.
    Without a role the owner of the application is made admin and anybody
    else keeps their role.  When lastSignedIn is absent, a new user gets
    the current time and a known user keeps theirs, unless the statement
    would otherwise set nothing (no member is given and the user is not
    the owner): it then sets the current time. *)
Theorem upsertUser_then_getUserByOpenId :
  forall ownerOpenId user n t,
    InsertUser.openId user <> [] ->
    let old := getUserByOpenId (InsertUser.openId user) (Some t) in
    exists t' r,
      upsertUser ownerOpenId user n (Some t) = (inr tt, Some t')
      /\ getUserByOpenId (InsertUser.openId user) (Some t') = Some r
      /\ UserRow.openId r = InsertUser.openId user
      /\ UserRow.id r = or_else (option_map UserRow.id old) (next_user_id t)
      /\ UserRow.createdAt r = or_else (option_map UserRow.createdAt old) n
      /\ UserRow.name r
         = or_else (InsertUser.name user)
                   (or_else (option_map UserRow.name old) None)
      /\ UserRow.email r
         = or_else (InsertUser.email user)
                   (or_else (option_map UserRow.email old) None)
      /\ UserRow.loginMethod r
         = or_else (InsertUser.loginMethod user)
                   (or_else (option_map UserRow.loginMethod old) None)
      /\ UserRow.role r
         = match InsertUser.role user with
           | Some x => x
           | None =>
             if jseqb (InsertUser.openId user) ownerOpenId then role_admin
             else or_else (option_map UserRow.role old) role_user
           end
      /\ UserRow.lastSignedIn r
         = match InsertUser.lastSignedIn user, old with
           | Some d, _ => d
           | None, None => n
           | None, Some r0 =>
             if bare user ownerOpenId then n else UserRow.lastSignedIn r0
           end.
Proof.
  intros owner user n t Ho old.
  destruct (upsertUser_run owner user n t Ho)
    as (values & d & Hrun & Vo & Vn & Ve & Vl & Vr & Vs & Hd).
  exists (insert_user values d n t). unfold old.
  rewrite !getUserByOpenId_find.
  destruct (find (has_openId (InsertUser.openId user)) (users t))
    as [r0|] eqn:Hf.
  - exists (set_user d n r0). split; [exact Hrun|].
    unfold insert_user. rewrite Vo, find_existsb, Hf.
    cbn [users]. rewrite find_update_same by (intros r; apply set_user_openId).
    rewrite Hf. split; [reflexivity|].
    destruct (set_user_values d n r0)
      as (Si & So & Sc & Sn & Se & Sl & Sr & Ss).
    rewrite Si, So, Sc, Sn, Se, Sl, Sr, Ss. cbn [option_map or_else].
    apply find_some in Hf as [_ Hf]. apply jseqb_eq in Hf.
    split; [exact Hf|]. split; [reflexivity|]. split; [reflexivity|].
    rewrite Hd, Vr.
    destruct (bare user owner) eqn:Hb.
    + unfold bare in Hb.
      destruct (InsertUser.name user), (InsertUser.email user),
        (InsertUser.loginMethod user), (InsertUser.role user),
        (InsertUser.lastSignedIn user); try discriminate Hb.
      apply negb_true_iff in Hb. rewrite Hb. repeat split.
    + cbn [UserSet.name UserSet.email UserSet.loginMethod UserSet.role
           UserSet.lastSignedIn].
      split; [reflexivity|]. split; [reflexivity|]. split; [reflexivity|].
      split.
      * destruct (InsertUser.role user); [reflexivity|].
        destruct (jseqb (InsertUser.openId user) owner); reflexivity.
      * destruct (InsertUser.lastSignedIn user); reflexivity.
  - exists (new_user values n t). split; [exact Hrun|].
    unfold insert_user. rewrite Vo, find_existsb, Hf.
    cbn [users]. split.
    + apply find_snoc_fresh.
      * intros r Hr. apply (find_none _ _ Hf r Hr).
      * unfold has_openId, new_user. cbn. rewrite Vo. apply jseqb_refl.
    + unfold new_user. cbn. rewrite Vo, Vn, Ve, Vl, Vr, Vs.
      cbn [or_else].
      split; [reflexivity|]. split; [reflexivity|]. split; [reflexivity|].
      split; [reflexivity|]. split; [reflexivity|]. split; [reflexivity|].
      split.
      * destruct (InsertUser.role user); [reflexivity|].
        destruct (jseqb (InsertUser.openId user) owner); reflexivity.
      * destruct (InsertUser.lastSignedIn user); reflexivity.
Qed.

Lemma find_update_other (A : Type) (c q : A -> bool) (f : A -> A)
      (l : list A) :
  (forall r, q (f r) = q r) ->
  find q (update c f l) = option_map (fun r => if c r then f r else r) (find q l).
Proof.
  intros Hq. unfold update. induction l as [|x l IH]; [reflexivity|].
  cbn [map find]. destruct (c x) eqn:Cx.
  - rewrite Hq. destruct (q x); [cbn; now rewrite Cx | exact IH].
  - destruct (q x); [cbn; now rewrite Cx | exact IH].
Qed.

(** X26.  upsertUser across the table.  It throws on an empty openId and
    does nothing, without an error, when there is no database.  Otherwise
    it adds one row for an unknown openId and none for a known one, keeps
    the openIds distinct, and leaves every other user as they were. *)
Theorem upsertUser_touches_one_user :
  forall ownerOpenId user n,
    (InsertUser.openId user = [] ->
     forall db,
       upsertUser ownerOpenId user n db
       = (inl (Error (js "User openId is required for upsert")), db))
    /\ (InsertUser.openId user <> [] ->
        upsertUser ownerOpenId user n None = (inr tt, None)
        /\ forall t,
            exists t',
              upsertUser ownerOpenId user n (Some t) = (inr tt, Some t')
              /\ length (users t')
                 = match getUserByOpenId (InsertUser.openId user) (Some t) with
                   | Some _ => length (users t)
                   | None => S (length (users t))
                   end
              /\ (NoDup (map UserRow.openId (users t)) ->
                  NoDup (map UserRow.openId (users t')))
              /\ forall o,
                  o <> InsertUser.openId user ->
                  getUserByOpenId o (Some t') = getUserByOpenId o (Some t)).
Proof.
  intros owner user n. split.
  - intros Ho db. unfold upsertUser. now rewrite Ho.
  - intros Ho. split.
    + unfold upsertUser. now destruct (InsertUser.openId user).
    + intros t.
      destruct (upsertUser_run owner user n t Ho)
        as (values & d & Hrun & Vo & _).
      exists (insert_user values d n t). split; [exact Hrun|].
      rewrite getUserByOpenId_find. unfold insert_user. rewrite Vo.
      rewrite find_existsb. clear Hrun.
      destruct (find (has_openId (InsertUser.openId user)) (users t))
        as [r0|] eqn:Hf; cbn [users].
      * split; [unfold update; apply length_map|].
        split.
        -- intros Hn. rewrite map_update_key; [exact Hn|].
           intros r. apply (proj1 (proj2 (set_user_values d n r))).
        -- intros o Hne. rewrite !getUserByOpenId_find. cbn [users].
           rewrite find_update_other by (intros r; apply set_user_openId).
           destruct (find (has_openId o) (users t)) as [r|] eqn:Hr;
             [|reflexivity].
           cbn [option_map]. apply find_some in Hr as [_ Hr].
           apply jseqb_eq in Hr.
           destruct (has_openId (InsertUser.openId user) r) eqn:Hx;
             [|reflexivity].
           apply jseqb_eq in Hx. congruence.
      * split; [rewrite length_app; cbn; lia|].
        split.
        -- intros Hn. apply NoDup_map_insert; [exact Hn|].
           intros Hin. apply in_map_iff in Hin as (r & Hr & Hin).
           pose proof (find_none _ _ Hf r Hin) as Hx.
           unfold has_openId, new_user in *. cbn in Hr. rewrite Vo in Hr.
           rewrite Hr, jseqb_refl in Hx. discriminate.
        -- intros o Hne. rewrite !getUserByOpenId_find. cbn [users].
           apply find_snoc_other. unfold has_openId, new_user. cbn.
           rewrite Vo. destruct (jseqb _ o) eqn:Hx; [|reflexivity].
           apply jseqb_eq in Hx. congruence.
Qed.

Lemma upsertUser_then_getUserByOpenId_witness :
  InsertUser.openId signin2 <> []
  /\ exists t' r,
      upsertUser (js "root") signin2 2000 (Some users1) = (inr tt, Some t')
      /\ getUserByOpenId (js "root") (Some t') = Some r
      /\ UserRow.id r = 1
      /\ UserRow.name r = Some (js "Root")
      /\ UserRow.email r = Some (js "root@example.org")
      /\ UserRow.role r = role_admin
      /\ UserRow.lastSignedIn r = 1000.
Proof.
  assert (H : InsertUser.openId signin2 <> []) by (vm_compute; discriminate).
  split; [exact H|].
  destruct (upsertUser_then_getUserByOpenId (js "root") signin2 2000 users1 H)
    as (t' & r & Hrun & Hget & _ & Hi & _ & Hn & He & _ & Hr & Hs).
  exists t', r. split; [exact Hrun|]. split; [exact Hget|].
  rewrite Hi, Hn, He, Hr, Hs. vm_compute. repeat split.
Defined.

Lemma upsertUser_touches_one_user_witness :
  InsertUser.openId signin2 <> []
  /\ upsertUser (js "root") signin2 2000 None = (inr tt, None)
  /\ exists t',
      upsertUser (js "root") signin2 2000 (Some users1) = (inr tt, Some t')
      /\ length (users t') = 1.
Proof.
  assert (H : InsertUser.openId signin2 <> []) by (vm_compute; discriminate).
  split; [exact H|].
  destruct (proj2 (upsertUser_touches_one_user (js "root") signin2 2000) H)
    as [H1 H2].
  split; [exact H1|].
  destruct (H2 users1) as (t' & Hrun & Hlen & _).
  exists t'. split; [exact Hrun|]. rewrite Hlen. vm_compute. reflexivity.
Defined.

(* ================================================================== *)
(** ** A missing database, the dashboard and the thumbnail *)
(* ================================================================== *)

Lemma getDb_offline (w : World) :
  database w = None -> db.getDb w = (inl Unavailable, w).
Proof. intros H. unfold db.getDb. now rewrite H. Qed.

(** X27.  without a database every request fails, and none but an upload has
    any effect.  A project name is validated first; an upload stores the
    file first, so that the file is stored although the request fails;
    every other request fails with the error of the database at once. *)
Theorem requests_need_the_database :
  forall E ctx req w,
    database w = None ->
    respond E ctx req w
    = (Some (offlineError E ctx req w),
       match req with
       | videos_upload input =>
         mkWorld None (trace w ++ [uploadPut E ctx input (trace w)]) (now w)
       | _ => w
       end).
Proof.
  intros E ctx req w Hdb. pose proof (getDb_offline w Hdb) as G.
  destruct req; cbn [respond offlineError]; unfold outcome.
  all: try (unfold appRouter.projects.list, appRouter.projects.get,
      appRouter.projects.getNewIdeas, appRouter.projects.delete,
      appRouter.projects.generateThumbnail,
      appRouter.videos.listByProject, appRouter.videos.listAll,
      appRouter.videos.get, appRouter.videos.transcribe,
      appRouter.videos.reassign, appRouter.videos.delete,
      appRouter.documents.getByProject, appRouter.documents.listAll,
      appRouter.documents.generate, appRouter.documents.update,
      appRouter.documents.delete, appRouter.stats.dashboard,
      db.getProjectsByUserId, db.getProjectById,
      db.getOrCreateNewIdeasProject, db.getVideosByProjectId,
      db.getVideosByUserId, db.getVideoById, db.getDocumentByProjectId,
      db.getDocumentsByUserId, db.updateDocument, db.deleteDocument;
    unfold bind; rewrite G; reflexivity).
  - unfold appRouter.projects.create.
    destruct (negb (valid_name (CreateProjectInput.name input)));
      [reflexivity|].
    unfold db.getProjectByName, bind. now rewrite G.
  - unfold appRouter.projects.update.
    destruct (UpdateProjectInput.name input) as [s|];
      [destruct (negb (valid_name s)); [reflexivity|]|];
      unfold db.updateProject, bind; now rewrite G.
  - unfold appRouter.videos.upload. cbv zeta.
    fold (fileExtension (UploadInput.filename input)).
    fold (uploadKey E ctx input (trace w)).
    unfold uploadPut, bind, call. destruct w as [d tr n].
    cbn [database trace now] in *. subst d.
    destruct (storagePut E tr _ _ _); cbn [fst snd]; [reflexivity|].
    unfold db.getOrCreateNewIdeasProject, bind, db.getDb.
    reflexivity.
Qed.

Lemma requests_need_the_database_witness :
  database offline = None
  /\ respond env0 alice (videos_upload upload0) offline
     = (Some Unavailable,
        mkWorld None [uploadPut env0 alice upload0 []] 1000).
Proof.
  split; [reflexivity|].
  apply (requests_need_the_database env0 alice (videos_upload upload0)
           offline eq_refl).
Defined.

Section Recent.
Variable A : Type.
Variable key : A -> nat.

Lemma descending_tail (x : A) (l : list A) :
  descending key (x :: l) = true -> descending key l = true.
Proof. intros H. now apply descending_cons in H. Qed.

(** In a descending list every row of a prefix is at least as recent as
    every row after the prefix. *)
Lemma descending_prefix (a b : list A) :
  descending key (a ++ b) = true ->
  forall x y, In x a -> In y b -> key y <= key x.
Proof.
  induction a as [|z a IH]; intros Hd x y Hx Hy; [destruct Hx|].
  destruct Hx as [<-|Hx].
  - apply (descending_hd_max _ key z (a ++ b) Hd). apply in_or_app. now right.
  - apply IH; [|exact Hx|exact Hy]. now apply (descending_tail z).
Qed.

Lemma recent_rows (k : nat) (l : list A) :
  descending key l = true ->
  forall x y, In x (firstn k l) -> In y l -> ~ In y (firstn k l) ->
              key y <= key x.
Proof.
  intros Hd x y Hx Hy Hn. rewrite <- (firstn_skipn k l) in Hd, Hy.
  apply in_app_or in Hy as [Hy|Hy]; [contradiction|].
  now apply (descending_prefix (firstn k l) (skipn k l)).
Qed.

End Recent.

(** Settled videos are transcribed, waiting or failed. *)
Lemma settled_partition (l : list Video.t) :
  (forall v, In v l -> settled v = true) ->
  length l
  = length (filter (fun v => VideoStatus_eqb (Video.status v) transcribed) l)
    + length (filter (fun v => VideoStatus_eqb (Video.status v) uploaded
                               || VideoStatus_eqb (Video.status v)
                                                  transcribing) l)
    + length (filter (fun v => VideoStatus_eqb (Video.status v) error) l).
Proof.
  induction l as [|v l IH]; intros Hs; [reflexivity|].
  cbn [filter length].
  rewrite IH by (intros x Hx; apply Hs; now right).
  pose proof (Hs v (or_introl eq_refl)) as Hv. unfold settled in Hv.
  destruct (Video.status v); try discriminate Hv; cbn; lia.
Qed.

(** X28.  the dashboard counts the rows of the caller and of nobody else:
    their projects other than the new-ideas project, their videos and
    their documents.  On settled videos every video is counted once as
    transcribed, as pending or as failed.  The recent projects and the
    recent videos are at most five rows of the caller, and no row left out
    is more recent than one that is listed; the new-ideas project can be
    among the recent projects. *)
Theorem dashboard_counts :
  forall ctx w t,
    database w = Some t ->
    forallb settled (videos t) = true ->
    exists d,
      appRouter.stats.dashboard ctx w = (inr d, w)
      /\ Dashboard.totalProjects d
         = length (filter (fun p => (Project.userId p =? uid ctx)
                                    && negb (Project.isNewIdeas p))
                          (projects t))
      /\ Dashboard.totalVideos d
         = length (filter (fun v => Video.userId v =? uid ctx) (videos t))
      /\ Dashboard.totalDocuments d
         = length (filter (fun x => Document.userId x =? uid ctx)
                          (documents t))
      /\ Dashboard.totalVideos d
         = Dashboard.transcribedVideos d + Dashboard.pendingVideos d
           + length (filter (fun v => (Video.userId v =? uid ctx)
                                      && VideoStatus_eqb (Video.status v) error)
                            (videos t))
      /\ length (Dashboard.recentProjects d) <= 5
      /\ length (Dashboard.recentVideos d) <= 5
      /\ (forall p,
             In p (Dashboard.recentProjects d) ->
             In p (projects t) /\ Project.userId p = uid ctx
             /\ forall q,
                 In q (projects t) -> Project.userId q = uid ctx ->
                 ~ In q (Dashboard.recentProjects d) ->
                 Project.updatedAt q <= Project.updatedAt p)
      /\ (forall v,
             In v (Dashboard.recentVideos d) ->
             In v (videos t) /\ Video.userId v = uid ctx
             /\ forall q,
                 In q (videos t) -> Video.userId q = uid ctx ->
                 ~ In q (Dashboard.recentVideos d) ->
                 Video.createdAt q <= Video.createdAt v).
Proof.
  intros ctx [d0 tr n] t Hdb Hs. cbn [database] in Hdb. subst d0.
  unfold appRouter.stats.dashboard.
  unfold bind at 1. rewrite getProjectsByUserId_run.
  unfold bind at 1. rewrite getVideosByUserId_run.
  unfold bind at 1. rewrite getDocumentsByUserId_run.
  set (lp := orderBy_desc Project.updatedAt _).
  set (lv := orderBy_desc Video.createdAt _).
  set (ld := orderBy_desc Document.updatedAt _).
  eexists. split; [reflexivity|].
  cbn [Dashboard.totalProjects Dashboard.totalVideos Dashboard.totalDocuments
       Dashboard.transcribedVideos Dashboard.pendingVideos
       Dashboard.recentProjects Dashboard.recentVideos].
  assert (Pp : Permutation lp (filter (fun p => Project.userId p =? uid ctx)
                                      (projects t)))
    by apply orderBy_desc_perm.
  assert (Pv : Permutation lv (filter (fun v => Video.userId v =? uid ctx)
                                      (videos t)))
    by apply orderBy_desc_perm.
  assert (Pd : Permutation ld (filter (fun x => Document.userId x =? uid ctx)
                                      (documents t)))
    by apply orderBy_desc_perm.
  split.
  { rewrite (filter_perm_length _ _ _ _ Pp). now rewrite filter_filter. }
  split; [apply (Permutation_length Pv)|].
  split; [apply (Permutation_length Pd)|].
  split.
  { rewrite (settled_partition lv).
    - f_equal. rewrite (filter_perm_length _ _ _ _ Pv).
      now rewrite filter_filter.
    - intros v Hv. apply (Permutation_in _ Pv) in Hv.
      apply filter_In in Hv as [Hv _].
      rewrite forallb_forall in Hs. now apply Hs. }
  split; [apply firstn_le_length|]. split; [apply firstn_le_length|].
  unfold slice0. split.
  - intros p Hp.
    assert (Hin : In p lp) by (now apply in_firstn in Hp).
    apply (Permutation_in _ Pp) in Hin. apply filter_In in Hin as [Hin Hu].
    apply Nat.eqb_eq in Hu. split; [exact Hin|]. split; [exact Hu|].
    intros q Hq Hqu Hn.
    apply (recent_rows _ Project.updatedAt 5 lp); try assumption.
    + apply orderBy_desc_descending.
    + apply (Permutation_in _ (Permutation_sym Pp)). apply filter_In.
      split; [exact Hq | now apply Nat.eqb_eq].
  - intros v Hv.
    assert (Hin : In v lv) by (now apply in_firstn in Hv).
    apply (Permutation_in _ Pv) in Hin. apply filter_In in Hin as [Hin Hu].
    apply Nat.eqb_eq in Hu. split; [exact Hin|]. split; [exact Hu|].
    intros q Hq Hqu Hn.
    apply (recent_rows _ Video.createdAt 5 lv); try assumption.
    + apply orderBy_desc_descending.
    + apply (Permutation_in _ (Permutation_sym Pv)). apply filter_In.
      split; [exact Hq | now apply Nat.eqb_eq].
Qed.

Lemma dashboard_counts_witness :
  database world3 = Some (tablesOf world3)
  /\ forallb settled (videos (tablesOf world3)) = true
  /\ exists d,
      appRouter.stats.dashboard alice world3 = (inr d, world3)
      /\ Dashboard.totalProjects d = 1
      /\ Dashboard.totalVideos d = 1
      /\ Dashboard.totalDocuments d = 1
      /\ Dashboard.transcribedVideos d + Dashboard.pendingVideos d = 1.
Proof.
  assert (H2 : forallb settled (videos (tablesOf world3)) = true)
    by (vm_compute; reflexivity).
  split; [exact database_world3|]. split; [exact H2|].
  destruct (dashboard_counts alice world3 (tablesOf world3) database_world3 H2)
    as (d & Hrun & Hp & Hv & Hd & Hsum & _).
  exists d. split; [exact Hrun|].
  assert (E1 : Dashboard.totalVideos d = 1)
    by (rewrite Hv; vm_compute; reflexivity).
  split; [rewrite Hp; vm_compute; reflexivity|].
  split; [exact E1|]. split; [rewrite Hd; vm_compute; reflexivity|].
  rewrite E1 in Hsum.
  replace (length (filter (fun v => (Video.userId v =? uid alice)
                                    && VideoStatus_eqb (Video.status v) error)
                          (videos (tablesOf world3)))) with 0 in Hsum
    by (vm_compute; reflexivity).
  lia.
Defined.

(** X29.  a thumbnail request that fails has written nothing.  One that
    succeeds has stored the address of the image in the project, stamped
    its updatedAt and changed nothing else: no other column of the
    project, no other project, no video and no document. *)
Theorem generateThumbnail_outcomes :
  forall E ctx id w t,
    database w = Some t ->
    consistent t ->
    match fst (appRouter.projects.generateThumbnail E ctx id w),
          database (snd (appRouter.projects.generateThumbnail E ctx id w)) with
    | inl _, after => after = Some t
    | inr imageUrl, Some t' =>
      exists p,
        findProject id (uid ctx) t = Some p
        /\ projects t'
           = map (fun r =>
                    if Project.id r =? id
                    then Project.mk (Project.id p) (Project.userId p)
                           (Project.name p) (Project.description p)
                           (Project.isNewIdeas p) (Some imageUrl)
                           (Project.color p) (Project.createdAt p) (now w)
                    else r)
                 (projects t)
        /\ videos t' = videos t
        /\ documents t' = documents t
    | inr _, None => False
    end.
Proof.
  intros E ctx id [d tr n] t Hdb Hc. cbn [database] in Hdb. subst d.
  cbn [now].
  destruct (appRouter.projects.generateThumbnail E ctx id
              (mkWorld (Some t) tr n)) as [r w'] eqn:G.
  cbn [fst snd]. revert G. unfold appRouter.projects.generateThumbnail.
  unfold bind at 1. rewrite getProjectById_run.
  destruct (findProject id (uid ctx) t) as [p|] eqn:Hp;
    [|intros G; injection G as <- <-; reflexivity].
  unfold bind at 1. rewrite getDocumentByProjectId_run.
  unfold bind at 1.
  set (content := thumbnailContext p _).
  pose proof (talks_only_world _ _ t tr n
                (generateThumbnailPrompt_talks_only E (Project.name p) content))
    as Hw.
  destruct (generateThumbnailPrompt E (Project.name p) content
                                    (mkWorld (Some t) tr n))
    as [[e|prompt] w2]; cbn [snd] in Hw; rewrite Hw;
    [intros G; injection G as <- <-; reflexivity|].
  unfold bind at 1. unfold call at 1. cbn [database trace now].
  destruct (generateImage E (trace w2) prompt) as [e|imageUrl];
    [intros G; injection G as <- <-; reflexivity|].
  unfold bind. rewrite updateProject_run. cbn [fst snd].
  intros G. injection G as <- <-. cbn [database].
  exists p. split; [reflexivity|]. split; [|split; reflexivity].
  cbn [db.with_projects projects].
  apply findProject_in in Hp as (Hin & Hid & Hu). rewrite <- Hid.
  apply (update_one _ Project.id (fun r => Project.userId r =? uid ctx));
    [apply (project_ids_unique Hc) | exact Hin | now apply Nat.eqb_eq].
Qed.

Lemma generateThumbnail_outcomes_witness :
  database world3 = Some (tablesOf world3)
  /\ consistent (tablesOf world3)
  /\ exists p,
      findProject 2 (uid alice) (tablesOf world3) = Some p
      /\ projects (tablesOf (handle env0 alice (projects_generateThumbnail 2)
                                    world3))
         = map (fun r =>
                  if Project.id r =? 2
                  then Project.mk (Project.id p) (Project.userId p)
                         (Project.name p) (Project.description p)
                         (Project.isNewIdeas p)
                         (Some (js "https://images.example/phoenix.png"))
                         (Project.color p) (Project.createdAt p) (now world3)
                  else r)
               (projects (tablesOf world3)).
Proof.
  split; [exact database_world3|]. split; [exact consistent_world3|].
  pose proof (generateThumbnail_outcomes env0 alice 2 world3 (tablesOf world3)
                database_world3 consistent_world3) as H.
  replace (fst (appRouter.projects.generateThumbnail env0 alice 2 world3))
    with (@inr exn jsstring (js "https://images.example/phoenix.png")) in H
    by (vm_compute; reflexivity).
  replace (database
             (snd (appRouter.projects.generateThumbnail env0 alice 2 world3)))
    with (Some (tablesOf (handle env0 alice (projects_generateThumbnail 2)
                                 world3))) in H
    by (vm_compute; reflexivity).
  destruct H as (p & Hf & Hp & _).
  exists p. split; [exact Hf | exact Hp].
Defined.
